(** * spin_entropy: the simultaneous fitting routines of [data_tools.py]

    A shallow embedding of [src/data_tools.py] (line shapes, window
    selection, the parameter-sharing joint fit, the independent-fit
    fallback, [get_subset]) together with the properties the
    specification states about them, and of the data utilities of the
    same file ([dfdx], [moving_avg], [xy_to_meshgrid], the polynomials,
    [dist_2_line]) with further properties read off the code.

    Conventions of the embedding.
    - Floating-point numbers are an abstract carrier [F] with the
      operations the source applies to them (class [FloatOps]); nothing
      is assumed about rounding.  Where a property needs the order of
      [<] it is stated under the laws of [FloatOrder].  An instance on
      the reals extended with NaN and the infinities is given at the end
      of the definitions.
    - A numpy array is a shape and a row-major buffer ([ndarray]); the
      caller's arrays live in a store addressed by object handles, so
      that the in-place assignment [z.shape = (n,m)] is visible.
    - Python exceptions are values of [exn]; a computation is a function
      from the program state to a [result] and the new state (monad
      [M]).
    - The external optimisers ([lmfit.minimize], [scipy.curve_fit]) are
      parameters of the development; each call is recorded in the trace
      of the state together with the arguments it received. *)

From Stdlib Require Import String Ascii DecimalString DecimalNat.
From Stdlib Require Import ZArith QArith Reals Lra Bool Lia List.
Import ListNotations.

Close Scope Q_scope.
Open Scope string_scope.
Open Scope list_scope.
Open Scope nat_scope.

Set Implicit Arguments.

(* ================================================================== *)
(** ** Numbers *)

(** The operations of a Python/numpy float that the source uses.
    [lit q] is the float denoted by the decimal literal [q];
    [fpow x k] is [x ** k]; [fltb] is [<]; [fnonzero] is the truth
    value of a number in an [if]. *)
Class FloatOps (F : Type) : Type := {
  lit      : Q -> F;
  fadd     : F -> F -> F;
  fsub     : F -> F -> F;
  fmul     : F -> F -> F;
  fdiv     : F -> F -> F;
  fneg     : F -> F;
  fabs     : F -> F;
  fpow     : F -> Z -> F;
  ftanh    : F -> F;
  fcosh    : F -> F;
  fltb     : F -> F -> bool;
  fisnan   : F -> bool;
  finf     : F;
  fnonzero : F -> bool
}.

(** The part of the IEEE order that index minimisation relies on: on
    numbers that are not NaN, [<] is a strict weak order with greatest
    element [finf]. *)
Class FloatOrder (F : Type) `{FloatOps F} : Prop := {
  fltb_irrefl : forall a, fltb a a = false;
  fltb_trans  : forall a b c, fltb a b = true -> fltb b c = true -> fltb a c = true;
  fltb_negtrans : forall a b c,
      fisnan a = false -> fisnan b = false -> fisnan c = false ->
      fltb a b = false -> fltb b c = false -> fltb a c = false;
  finf_not_nan : fisnan finf = false;
  finf_top : forall a, fltb finf a = false
}.

(* ================================================================== *)
(** ** Python values: exceptions, indexing, slicing, formatting *)

Inductive exn : Type :=
| ValueError (msg : string)
| IndexError
| KeyError (key : string)
| NameError (name : string)
| TypeError (msg : string)
| NotImplementedError (msg : string)
| OptimizerError.

Inductive result (A : Type) : Type :=
| Ok (a : A)
| Raise (e : exn).
Arguments Ok {A} a.
Arguments Raise {A} e.

Definition rbind {A B} (r : result A) (k : A -> result B) : result B :=
  match r with
  | Ok a => k a
  | Raise e => Raise e
  end.

Declare Scope res_scope.
Delimit Scope res_scope with res.
Notation "x <- c ;; k" := (rbind c (fun x => k))
  (at level 61, c at next level, right associativity) : res_scope.

(** [for a in l: acc = f(acc, a)] where the body may raise. *)
Fixpoint rfold {A B} (f : B -> A -> result B) (l : list A) (acc : B) : result B :=
  match l with
  | [] => Ok acc
  | a :: l' => rbind (f acc a) (rfold f l')
  end.

(** [[f(a) for a in l]] where [f] may raise. *)
Fixpoint rmap {A B} (f : A -> result B) (l : list A) : result (list B) :=
  match l with
  | [] => Ok []
  | a :: l' => rbind (f a) (fun b => rbind (rmap f l') (fun bs => Ok (b :: bs)))
  end.

(** [range(a, a+k)] is [seq a k]. *)
Definition range (n : nat) : list nat := seq 0 n.

(** [l[k]] for an integer [k]: negative indices count from the end. *)
Definition py_index {A} (l : list A) (k : Z) : result A :=
  let len := Z.of_nat (length l) in
  let k' := if (k <? 0)%Z then (k + len)%Z else k in
  if ((k' <? 0) || (len <=? k'))%Z then Raise IndexError
  else match nth_error l (Z.to_nat k') with
       | Some a => Ok a
       | None => Raise IndexError
       end.

(** The bound of a slice, clipped the way Python clips it. *)
Definition slice_bound (len : nat) (k : Z) : nat :=
  let len := Z.of_nat len in
  Z.to_nat (if (k <? 0)%Z then Z.max (k + len) 0 else Z.min k len).

(** [l[a:b]]. *)
Definition py_slice {A} (l : list A) (a b : Z) : list A :=
  let s := slice_bound (length l) a in
  let e := slice_bound (length l) b in
  firstn (e - s) (skipn s l).

(** ['{0:d}'.format(i)]. *)
Definition format_d (i : nat) : string :=
  NilEmpty.string_of_uint (Nat.to_uint i).

(** ['{0}_{1:d}'.format(p, i)]: the name of role [p] in group [i]. *)
Definition pname (p : string) (i : nat) : string :=
  p ++ "_" ++ format_d i.

(** The truth value of an optional sequence ([None] and the empty
    sequence are false). *)
Definition truthy_seq {A} (o : option (list A)) : bool :=
  match o with
  | Some (_ :: _) => true
  | _ => false
  end.

Definition seq_items {A} (o : option (list A)) : list A :=
  match o with
  | Some l => l
  | None => []
  end.

(* ================================================================== *)
(** ** numpy arrays *)

Section Numpy.
Context {F : Type} `{FloatOps F}.

(** An array object: its shape and its elements in row-major order. *)
Record ndarray : Type := mk_nd { shape : list nat; buf : list F }.

Definition ndim (a : ndarray) : nat := length (shape a).

(** A one-dimensional array holding [l]. *)
Definition arr1 (l : list F) : ndarray := mk_nd [length l] l.

(** An operation between an array and a scalar, elementwise. *)
Definition nd_map (f : F -> F) (a : ndarray) : ndarray :=
  mk_nd (shape a) (map f (buf a)).

Fixpoint zip_with (f : F -> F -> F) (l1 l2 : list F) : list F :=
  match l1, l2 with
  | a :: l1', b :: l2' => f a b :: zip_with f l1' l2'
  | _, _ => []
  end.

(** An operation between two arrays of one shape, elementwise. *)
Definition nd_map2 (f : F -> F -> F) (a b : ndarray) : ndarray :=
  mk_nd (shape a) (zip_with f (buf a) (buf b)).

(** [count] consecutive pieces of [w] elements. *)
Definition chunks (w count : nat) (b : list F) : list (list F) :=
  map (fun i => firstn w (skipn (i * w) b)) (seq 0 count).

(** [a[i, :]] of a two-dimensional array.  Arrays of three or more
    dimensions are outside the interface of the fitting routines and
    outside this model. *)
Definition row2 (a : ndarray) (i : nat) : result (list F) :=
  match shape a with
  | [n; m] => if i <? n then Ok (firstn m (skipn (i * m) (buf a)))
              else Raise IndexError
  | _ => Raise (TypeError "array of unsupported dimension")
  end.

(** [a - b] for one-dimensional arrays, with numpy's broadcasting. *)
Definition np_sub1 (a b : list F) : result (list F) :=
  if length a =? length b then Ok (zip_with fsub a b)
  else match a, b with
       | [a0], _ => Ok (map (fun v => fsub a0 v) b)
       | _, [b0] => Ok (map (fun v => fsub v b0) a)
       | _, _ => Raise (ValueError "operands could not be broadcast together")
       end.

(** [np.concatenate(l)] for a list of one-dimensional arrays. *)
Definition np_concatenate (l : list (list F)) : result (list F) :=
  match l with
  | [] => Raise (ValueError "need at least one array to concatenate")
  | _ => Ok (concat l)
  end.

(** [np.tile(a, (n,1))]. *)
Definition np_tile (a : ndarray) (n : nat) : ndarray :=
  match shape a with
  | [] => mk_nd [n; 1] (concat (repeat (buf a) n))
  | [m] => mk_nd [n; m] (concat (repeat (buf a) n))
  | [r; m] => mk_nd [n * r; m] (concat (repeat (buf a) n))
  | s0 :: s1 :: rest =>
      let w := s1 * fold_right Nat.mul 1 rest in
      mk_nd (s0 :: n * s1 :: rest)
            (flat_map (fun blk => concat (repeat blk n)) (chunks w s0 (buf a)))
  end.

(** [a.transpose()] of a two-dimensional array (the only case the
    routines reach on inputs of their interface; see [row2]). *)
Definition np_transpose (a : ndarray) : result ndarray :=
  match shape a with
  | [n; m] =>
      Ok (mk_nd [m; n]
            (flat_map (fun j => map (fun i => nth (i * m + j) (buf a) (lit 0%Q)) (seq 0 n))
                      (seq 0 m)))
  | _ => Raise (TypeError "array of unsupported dimension")
  end.

(** [a - t] for a two-dimensional [a] and a one-dimensional [t],
    broadcast along the last axis: the lengths agree, or one of them
    is 1. *)
Definition np_sub_bcast (a : ndarray) (t : list F) : result ndarray :=
  match shape a with
  | [m; n] =>
      if n =? length t then
        Ok (mk_nd [m; n] (flat_map (fun r => zip_with fsub r t) (chunks n m (buf a))))
      else match t with
           | [t0] => Ok (mk_nd [m; n] (map (fun v => fsub v t0) (buf a)))
           | _ => if n =? 1 then
                    Ok (mk_nd [m; length t]
                          (flat_map (fun v => map (fun c => fsub v c) t) (buf a)))
                  else Raise (ValueError "operands could not be broadcast together")
           end
  | _ => Raise (TypeError "array of unsupported dimension")
  end.

(** [np.argmin] of a non-empty sequence free of NaN: the first index
    holding the least value.  The scan keeps the best index so far and
    replaces it only by a strictly smaller value. *)
Fixpoint argmin_from (best_i : nat) (best : F) (i : nat) (l : list F) : nat :=
  match l with
  | [] => best_i
  | v :: l' => if fltb v best then argmin_from i v (S i) l'
               else argmin_from best_i best (S i) l'
  end.

Definition replace_nan (v : F) : F := if fisnan v then finf else v.

(** [np.nanargmin] of a one-dimensional sequence: NaN entries are
    replaced by [+inf]; a sequence of NaN only, and an empty one, are
    errors. *)
Definition nanargmin (l : list F) : result nat :=
  match l with
  | [] => Raise (ValueError "attempt to get argmin of an empty sequence")
  | v :: l' =>
      if forallb fisnan l then Raise (ValueError "All-NaN slice encountered")
      else Ok (argmin_from 0 (replace_nan v) 1 (map replace_nan l'))
  end.

(** Column [i] of a buffer of [m] rows of [c] elements. *)
Definition column (m c : nat) (b : list F) (i : nat) : list F :=
  map (fun j => nth (j * c + i) b (lit 0%Q)) (seq 0 m).

(** [np.nanargmin(a, axis=0)] of a two-dimensional array. *)
Definition nanargmin_axis0 (a : ndarray) : result (list Z) :=
  match shape a with
  | [m; c] =>
      rmap (fun i => rbind (nanargmin (column m c (buf a) i))
                           (fun j => Ok (Z.of_nat j)))
           (seq 0 c)
  | _ => Raise (TypeError "array of unsupported dimension")
  end.

(** [a.max()], [a.min()] and [a.mean()] of a one-dimensional array.
    NaN propagates through the extrema; an empty array has none. *)
Definition np_maximum (a b : F) : F :=
  if fisnan a then a else if fisnan b then b else if fltb a b then b else a.

Definition np_minimum (a b : F) : F :=
  if fisnan a then a else if fisnan b then b else if fltb b a then b else a.

Definition np_max (l : list F) : result F :=
  match l with
  | [] => Raise (ValueError "zero-size array to reduction operation maximum which has no identity")
  | v :: l' => Ok (fold_left np_maximum l' v)
  end.

Definition np_min (l : list F) : result F :=
  match l with
  | [] => Raise (ValueError "zero-size array to reduction operation minimum which has no identity")
  | v :: l' => Ok (fold_left np_minimum l' v)
  end.

Definition np_mean (l : list F) : F :=
  fdiv (fold_left fadd l (lit 0%Q)) (lit (inject_Z (Z.of_nat (length l)))).

(** Python's built-in [max(a, b)]. *)
Definition py_max (a b : F) : F := if fltb a b then b else a.

(* ------------------------------------------------------------------ *)
(** ** Line shapes (lines 103-111) *)

(** [i_sense(x, x0, beta, i0, i1, i2)], written with the array
    operations of the source:
    [arg = (x-x0)/beta; -i0*np.tanh(arg) + i1*(x-x0) + i2]. *)
Definition i_sense (x : ndarray) (x0 beta i0 i1 i2 : F) : ndarray :=
  let arg := nd_map (fun v => fdiv v beta) (nd_map (fun v => fsub v x0) x) in
  nd_map (fun v => fadd v i2)
    (nd_map2 fadd
       (nd_map (fun v => fmul (fneg i0) v) (nd_map ftanh arg))
       (nd_map (fun v => fmul i1 v) (nd_map (fun v => fsub v x0) x))).

(** [di_sense_simple(x, x0, beta, di0, di2, delta)]:
    [arg = (x-x0)/beta;
     -(0.5)*di0*(arg+delta)*(np.cosh(arg)**-2) + di2]. *)
Definition di_sense_simple (x : ndarray) (x0 beta di0 di2 delta : F) : ndarray :=
  let arg := nd_map (fun v => fdiv v beta) (nd_map (fun v => fsub v x0) x) in
  nd_map (fun v => fadd v di2)
    (nd_map2 fmul
       (nd_map (fun v => fmul (fmul (fneg (lit (1#2)%Q)) di0) v)
               (nd_map (fun v => fadd v delta) arg))
       (nd_map (fun v => fpow v (-2)%Z) (nd_map fcosh arg))).

End Numpy.

Arguments ndarray F : clear implicits.

(* ================================================================== *)
(** ** lmfit parameter sets *)

Section Lmfit.
Context {F : Type} `{FloatOps F}.

(** One [lmfit.Parameter]: current value, bounds, the "varies" flag and
    the optional equality expression.  In this program an expression is
    always the bare name of another parameter. *)
Record lm_param : Type := mk_param {
  p_value : F;
  p_min   : F;
  p_max   : F;
  p_vary  : bool;
  p_expr  : option string
}.

(** [lmfit.Parameters]: an ordered dictionary from names to parameters. *)
Definition lm_params : Type := list (string * lm_param).

Fixpoint params_lookup (ps : lm_params) (name : string) : option lm_param :=
  match ps with
  | [] => None
  | (k, p) :: ps' => if String.eqb k name then Some p else params_lookup ps' name
  end.

(** [ps[name] = p]: an existing key keeps its place. *)
Fixpoint params_set (ps : lm_params) (name : string) (p : lm_param) : lm_params :=
  match ps with
  | [] => [(name, p)]
  | (k, q) :: ps' => if String.eqb k name then (k, p) :: ps'
                     else (k, q) :: params_set ps' name p
  end.

(** Modelled from the spec: what lmfit, which is not part of the
    repository's source, makes of the value of a parameter created with
    bounds.  The value is brought into the bounds by
    [if val > max: val = max] followed by [if val < min: val = min]; a
    NaN compares false both times and stays. *)
Definition clip (v lo hi : F) : F :=
  let v := if fltb hi v then hi else v in
  if fltb v lo then lo else v.

(** Modelled from the spec: [ps.add(name, value=v, min=lo, max=hi)].
    The parameter varies, has no expression, keeps the two bounds as
    they are given and holds the value clipped into them.  (Recent
    versions of lmfit also put bounds given in the wrong order right
    and refuse two equal bounds; older ones do not, and neither does
    this model.) *)
Definition params_add (ps : lm_params) (name : string) (v lo hi : F) : lm_params :=
  params_set ps name (mk_param (clip v lo hi) lo hi true None).

(** [ps[name]]. *)
Definition params_get (ps : lm_params) (name : string) : result lm_param :=
  match params_lookup ps name with
  | Some p => Ok p
  | None => Raise (KeyError name)
  end.

(** Modelled from the spec: [ps[name].expr = e].  A parameter that is
    given an expression stops varying: lmfit clears its flag. *)
Definition set_expr (ps : lm_params) (name e : string) : result lm_params :=
  rbind (params_get ps name) (fun p =>
  Ok (params_set ps name (mk_param (p_value p) (p_min p) (p_max p) false (Some e)))).

(** [ps[name].vary = False]. *)
Definition set_fixed (ps : lm_params) (name : string) : result lm_params :=
  rbind (params_get ps name) (fun p =>
  Ok (params_set ps name (mk_param (p_value p) (p_min p) (p_max p) false (p_expr p)))).

(** Modelled from the spec: the value of a parameter under lmfit's
    constraint rules, which are not part of the repository's source.  A
    parameter carrying an equality expression has the value of the
    parameter the expression names ("its value becomes
    [value_of(role, 0)]"); any other parameter owns its value. *)
Fixpoint eval_expr (fuel : nat) (ps : lm_params) (e : string) : result F :=
  match fuel with
  | O => Raise (ValueError "circular parameter expression")
  | S fuel' =>
      match params_lookup ps e with
      | None => Raise (NameError e)
      | Some p => match p_expr p with
                  | None => Ok (p_value p)
                  | Some e' => eval_expr fuel' ps e'
                  end
      end
  end.

Definition param_value (ps : lm_params) (name : string) : result F :=
  rbind (params_get ps name) (fun p =>
  match p_expr p with
  | None => Ok (p_value p)
  | Some e => eval_expr (length ps) ps e
  end).

(** [ps.valuesdict()]. *)
Definition valuesdict (ps : lm_params) : result (list (string * F)) :=
  rmap (fun kp => rbind (param_value ps (fst kp)) (fun v => Ok (fst kp, v))) ps.

Fixpoint dict_lookup (d : list (string * F)) (k : string) : option F :=
  match d with
  | [] => None
  | (k', v) :: d' => if String.eqb k' k then Some v else dict_lookup d' k
  end.

Definition dict_get (d : list (string * F)) (k : string) : result F :=
  match dict_lookup d k with
  | Some v => Ok v
  | None => Raise (KeyError k)
  end.

(** Modelled from the spec: the free variables of a joint solve.  A
    parameter is optimised unless it is marked not-varying ("holding it
    at its initial value") or tied by an expression ("no longer
    independently optimized"). *)
Definition is_free (p : lm_param) : bool :=
  p_vary p && match p_expr p with None => true | Some _ => false end.

Definition var_names (ps : lm_params) : list string :=
  map fst (filter (fun kp => is_free (snd kp)) ps).

Definition var_inits (ps : lm_params) : list (F * F * F) :=
  map (fun kp => (p_value (snd kp), p_min (snd kp), p_max (snd kp)))
      (filter (fun kp => is_free (snd kp)) ps).

Definition set_value (ps : lm_params) (name : string) (v : F) : lm_params :=
  match params_lookup ps name with
  | Some p => params_set ps name (mk_param v (p_min p) (p_max p) (p_vary p) (p_expr p))
  | None => ps
  end.

(** Writing a vector of free-variable values back into the set. *)
Fixpoint assign (names : list string) (vals : list F) (ps : lm_params) : lm_params :=
  match names, vals with
  | k :: names', v :: vals' => assign names' vals' (set_value ps k v)
  | _, _ => ps
  end.

(** Modelled from the spec: [lmfit.minimize(fcn, ps, args)], which is
    not part of the repository's source.  The least-squares engine
    [engine] is arbitrary: it sees the residual as a function of the
    free variables, together with their initial values and bounds, and
    either fails or returns a vector of final values.  The parameters
    of the result are the given ones with the free variables
    overwritten; fixed parameters keep their value and tied parameters
    follow their expression. *)
Definition minimize
    (engine : (list F -> result (list F)) -> list (F * F * F) -> option (list F))
    (fcn : lm_params -> result (list F)) (ps : lm_params) : result lm_params :=
  match engine (fun v => fcn (assign (var_names ps) v ps)) (var_inits ps) with
  | Some v => Ok (assign (var_names ps) v ps)
  | None => Raise OptimizerError
  end.

End Lmfit.

Arguments lm_param F : clear implicits.
Arguments lm_params F : clear implicits.

(* ================================================================== *)
(** ** Program state *)

Section State.
Context {F : Type} `{FloatOps F}.

(** Calls into the external libraries, with what they were given. *)
Inductive event : Type :=
| EvParameters
| EvMinimize (ps : lm_params F) (ilow ihigh : list Z)
| EvCurveFit (xdata ydata p0 lower upper : list F).

(** The store of array objects (every handle below [next] is in use),
    and the trace of library calls, latest last. *)
Record state : Type := mk_state {
  heap  : nat -> ndarray F;
  next  : nat;
  trace : list event
}.

Definition M (A : Type) : Type := state -> result A * state.

Definition ret {A} (a : A) : M A := fun s => (Ok a, s).

Definition raise {A} (e : exn) : M A := fun s => (Raise e, s).

Definition bind {A B} (c : M A) (k : A -> M B) : M B :=
  fun s => match c s with
           | (Ok a, s') => k a s'
           | (Raise e, s') => (Raise e, s')
           end.

Definition lift {A} (r : result A) : M A := fun s => (r, s).

Definition get_obj (r : nat) : M (ndarray F) := fun s => (Ok (heap s r), s).

(** [obj.shape = sh], in place. *)
Definition set_shape (r : nat) (sh : list nat) : M unit :=
  fun s => (Ok tt,
            mk_state (fun r' => if r' =? r then mk_nd sh (buf (heap s r)) else heap s r')
                     (next s) (trace s)).

(** A fresh array object. *)
Definition alloc (a : ndarray F) : M nat :=
  fun s => (Ok (next s),
            mk_state (fun r' => if r' =? next s then a else heap s r')
                     (S (next s)) (trace s)).

Definition emit (e : event) : M unit :=
  fun s => (Ok tt, mk_state (heap s) (next s) (trace s ++ [e])).

(** [for a in l: acc = f(acc, a)] with effects. *)
Fixpoint mfold {A B} (f : B -> A -> M B) (l : list A) (acc : B) : M B :=
  match l with
  | [] => ret acc
  | a :: l' => bind (f acc a) (mfold f l')
  end.

End State.

Arguments event F : clear implicits.
Arguments state F : clear implicits.
Arguments M F A : clear implicits.

Declare Scope m_scope.
Delimit Scope m_scope with M.
Notation "x <- c ;; k" := (bind c (fun x => k))
  (at level 61, c at next level, right associativity) : m_scope.
Notation "c ;;; k" := (bind c (fun _ => k))
  (at level 61, right associativity) : m_scope.

(* ================================================================== *)
(** ** Simultaneous fits (lines 138-327) *)

Section Fit.
Context {F : Type} `{FloatOps F}.

(** The least-squares engine behind [lmfit.minimize] and
    [scipy.optimize.curve_fit].  Both are arbitrary functions of what
    they are given; [None] is a failure of the optimiser. *)
Variable lm_engine :
  (list F -> result (list F)) -> list (F * F * F) -> option (list F).
Variable curve_fit :
  (list F -> list F -> result (list F)) ->
  list F -> list F -> list F -> list F -> list F -> option (list F).

Local Open Scope res_scope.

(** The table of results: one row of values per dataset. *)
Definition table : Type := list (list F).

(** [a[i, lo:hi]]. *)
Definition row_slice (a : ndarray F) (i : nat) (lo hi : Z) : result (list F) :=
  r <- row2 a i ;; Ok (py_slice r lo hi).

(** [a[i, j]]. *)
Definition item2 (a : ndarray F) (i : nat) (j : Z) : result F :=
  r <- row2 a i ;; py_index r j.

(** [x0 = params['x0_i']; ...; return i_sense(xx, x0, beta, i0, i1, i2)]
    (lines 143-152). *)
Definition i_sense_dataset (params : lm_params F) (i : nat) (xx : list F)
  : result (list F) :=
  x0 <- param_value params (pname "x0" i) ;;
  beta <- param_value params (pname "beta" i) ;;
  i0 <- param_value params (pname "i0" i) ;;
  i1 <- param_value params (pname "i1" i) ;;
  i2 <- param_value params (pname "i2" i) ;;
  Ok (buf (i_sense (arr1 xx) x0 beta i0 i1 i2)).

(** [n,m = zz.shape]. *)
Definition shape2 (a : ndarray F) : result (nat * nat) :=
  match shape a with
  | [n; m] => Ok (n, m)
  | _ => Raise (ValueError "not enough values to unpack")
  end.

(** The residual of a joint fit (lines 154-164). *)
Definition i_sense_objective (params : lm_params F) (xx zz : ndarray F)
    (idx0 idx1 : list Z) : result (list F) :=
  nm <- shape2 zz ;;
  resid <- rfold (fun resid i =>
      lo <- py_index idx0 (Z.of_nat i) ;;
      hi <- py_index idx1 (Z.of_nat i) ;;
      zs <- row_slice zz i lo hi ;;
      xs <- row_slice xx i lo hi ;;
      f <- i_sense_dataset params i xs ;;
      r <- np_sub1 zs f ;;
      Ok (resid ++ [r])) (range (fst nm)) [] ;;
  np_concatenate resid.

(** The same for the weak-localisation peak (lines 234-255).  The
    source reads the x-array of the enclosing function, [x], not its
    own argument [xx]. *)
Definition di_dataset (params : lm_params F) (i : nat) (xx : list F)
  : result (list F) :=
  x0 <- param_value params (pname "x0" i) ;;
  beta <- param_value params (pname "beta" i) ;;
  di0 <- param_value params (pname "di0" i) ;;
  di2 <- param_value params (pname "di2" i) ;;
  delta <- param_value params (pname "delta" i) ;;
  Ok (buf (di_sense_simple (arr1 xx) x0 beta di0 di2 delta)).

Definition di_objective (x : ndarray F) (params : lm_params F) (xx zz : ndarray F)
    (idx0 idx1 : list Z) : result (list F) :=
  nm <- shape2 zz ;;
  resid <- rfold (fun resid i =>
      lo <- py_index idx0 (Z.of_nat i) ;;
      hi <- py_index idx1 (Z.of_nat i) ;;
      zs <- row_slice zz i lo hi ;;
      xs <- row_slice x i lo hi ;;
      f <- di_dataset params i xs ;;
      r <- np_sub1 zs f ;;
      Ok (resid ++ [r])) (range (fst nm)) [] ;;
  np_concatenate resid.

(** [np.nanargmin(np.abs(x.transpose() - t), axis=0)]. *)
Definition nearest_index (x : ndarray F) (t : list F) : result (list Z) :=
  xt <- np_transpose x ;;
  d <- np_sub_bcast xt t ;;
  nanargmin_axis0 (nd_map fabs d).

(** The fit window (lines 186-192, and again lines 277-283).  In
    [if(span)] an omitted [span] and a zero [span] are false. *)
Definition fit_window (x : ndarray F) (centers : list F) (span : option F) (n : nat)
  : result (list Z * list Z) :=
  match span with
  | Some s =>
      if fnonzero s then
        icenters <- nearest_index x centers ;;
        ilow <- nearest_index x (map (fun c => fsub c s) centers) ;;
        ihigh <- nearest_index x (map (fun c => fadd c s) centers) ;;
        Ok (ilow, ihigh)
      else Ok (repeat 0%Z n, repeat (-1)%Z n)
  | None => Ok (repeat 0%Z n, repeat (-1)%Z n)
  end.

(** [z[i,ilow[i]:ihigh[i]]]. *)
Definition window (a : ndarray F) (ilow ihigh : list Z) (i : nat) : result (list F) :=
  lo <- py_index ilow (Z.of_nat i) ;;
  hi <- py_index ihigh (Z.of_nat i) ;;
  row_slice a i lo hi.

(* ------------------------------------------------------------------ *)
(** *** Sensor current: initial guesses and bounds *)

Definition i_sense_columns : list string := ["x0"; "beta"; "i0"; "i1"; "i2"].

(** [abs(z[i,lo:hi].max() - z[i,lo:hi].min())]. *)
Definition i0_guess (z : ndarray F) (ilow ihigh : list Z) (i : nat) : result F :=
  w1 <- window z ilow ihigh i ;;
  mx <- np_max w1 ;;
  w2 <- window z ilow ihigh i ;;
  mn <- np_min w2 ;;
  Ok (fabs (fsub mx mn)).

(** [z[i,lo:hi].mean()]. *)
Definition i2_guess (z : ndarray F) (ilow ihigh : list Z) (i : nat) : result F :=
  w <- window z ilow ihigh i ;; Ok (np_mean w).

(** The five [fit_params.add] of group [i] (lines 204-209). *)
Definition i_sense_add_group (z : ndarray F) (centers widths x0bounds : list F)
    (ilow ihigh : list Z) (ps : lm_params F) (i : nat) : result (lm_params F) :=
  c <- py_index centers (Z.of_nat i) ;;
  b0 <- py_index x0bounds 0%Z ;;
  b1 <- py_index x0bounds 1%Z ;;
  let ps := params_add ps (pname "x0" i) c b0 b1 in
  w <- py_index widths (Z.of_nat i) ;;
  let ps := params_add ps (pname "beta" i) w (lit (2#10)%Q) (lit 10%Q) in
  g0 <- i0_guess z ilow ihigh i ;;
  let ps := params_add ps (pname "i0" i) g0 (lit (1#1000)%Q) (lit 10%Q) in
  let ps := params_add ps (pname "i1" i) (lit (1#10)%Q) (lit 0%Q) (lit 10%Q) in
  g2 <- i2_guess z ilow ihigh i ;;
  Ok (params_add ps (pname "i2" i) g2 (lit 0%Q) (lit 20%Q)).

(** [p0] and [bounds] of the independent fit of dataset [i]
    (lines 225-227). *)
Definition i_sense_p0 (z : ndarray F) (centers widths : list F)
    (ilow ihigh : list Z) (i : nat) : result (list F) :=
  c <- py_index centers (Z.of_nat i) ;;
  w <- py_index widths (Z.of_nat i) ;;
  g0 <- i0_guess z ilow ihigh i ;;
  g2 <- i2_guess z ilow ihigh i ;;
  Ok [c; w; g0; lit (1#10)%Q; g2].

Definition i_sense_bounds (x0bounds : list F) : result (list F * list F) :=
  b0 <- py_index x0bounds 0%Z ;;
  b1 <- py_index x0bounds 1%Z ;;
  Ok ([b0; lit (2#10)%Q; lit (1#1000)%Q; lit 0%Q; lit 0%Q],
      [b1; lit 10%Q; lit 10%Q; lit 10%Q; lit 20%Q]).

(** The [min] and the [max] of the five [fit_params.add] of a group
    (lines 205-209), in the order of the columns. *)
Definition i_sense_add_bounds (x0bounds : list F) : result (list F * list F) :=
  b0 <- py_index x0bounds 0%Z ;;
  b1 <- py_index x0bounds 1%Z ;;
  Ok ([b0; lit (2#10)%Q; lit (1#1000)%Q; lit 0%Q; lit 0%Q],
      [b1; lit 10%Q; lit 10%Q; lit 10%Q; lit 20%Q]).

(** [i_sense] as the model function handed to [curve_fit]. *)
Definition i_sense_model (xdata p : list F) : result (list F) :=
  match p with
  | [x0; beta; i0; i1; i2] => Ok (buf (i_sense (arr1 xdata) x0 beta i0 i1 i2))
  | _ => Raise (TypeError "i_sense() takes 6 positional arguments")
  end.

(* ------------------------------------------------------------------ *)
(** *** Weak localisation: initial guesses and bounds *)

Definition di_columns : list string := ["x0"; "beta"; "di0"; "di2"; "delta"].

(** [max(abs(z[i,lo:hi].min()), abs(z[i,lo:hi].max()))]. *)
Definition di0_guess (z : ndarray F) (ilow ihigh : list Z) (i : nat) : result F :=
  w1 <- window z ilow ihigh i ;;
  mn <- np_min w1 ;;
  w2 <- window z ilow ihigh i ;;
  mx <- np_max w2 ;;
  Ok (py_max (fabs mn) (fabs mx)).

(** [(z[i,ilow[i]]+z[i,ihigh[i]])/2.0]. *)
Definition di2_guess (z : ndarray F) (ilow ihigh : list Z) (i : nat) : result F :=
  lo <- py_index ilow (Z.of_nat i) ;;
  a <- item2 z i lo ;;
  hi <- py_index ihigh (Z.of_nat i) ;;
  b <- item2 z i hi ;;
  Ok (fdiv (fadd a b) (lit 2%Q)).

(** The five [fit_params.add] of group [i] (lines 295-300). *)
Definition di_add_group (z : ndarray F) (centers widths x0bounds : list F)
    (ilow ihigh : list Z) (ps : lm_params F) (i : nat) : result (lm_params F) :=
  c <- py_index centers (Z.of_nat i) ;;
  b0 <- py_index x0bounds 0%Z ;;
  b1 <- py_index x0bounds 1%Z ;;
  let ps := params_add ps (pname "x0" i) c b0 b1 in
  w <- py_index widths (Z.of_nat i) ;;
  let ps := params_add ps (pname "beta" i) w (lit (2#10)%Q) (lit 10%Q) in
  g0 <- di0_guess z ilow ihigh i ;;
  let ps := params_add ps (pname "di0" i) g0 (lit 0%Q) (lit (5#10)%Q) in
  g2 <- di2_guess z ilow ihigh i ;;
  let ps := params_add ps (pname "di2" i) g2 (lit (-1#100)%Q) (lit (1#100)%Q) in
  Ok (params_add ps (pname "delta" i) (lit 0%Q) (lit (-2)%Q) (lit 2%Q)).

(** [p0] and [bounds] of the independent fit of dataset [i]
    (lines 322-324). *)
Definition di_p0 (z : ndarray F) (centers widths : list F)
    (ilow ihigh : list Z) (i : nat) : result (list F) :=
  c <- py_index centers (Z.of_nat i) ;;
  w <- py_index widths (Z.of_nat i) ;;
  g0 <- di0_guess z ilow ihigh i ;;
  g2 <- di2_guess z ilow ihigh i ;;
  Ok [c; w; g0; g2; lit 0%Q].

Definition di_bounds (x0bounds : list F) : result (list F * list F) :=
  b0 <- py_index x0bounds 0%Z ;;
  b1 <- py_index x0bounds 1%Z ;;
  Ok ([b0; lit (2#10)%Q; lit 0%Q; lit (-5#100)%Q; lit (-2)%Q],
      [b1; lit 10%Q; lit (5#10)%Q; lit (5#100)%Q; lit 2%Q]).

(** The [min] and the [max] of the five [fit_params.add] of a group
    (lines 296-300), in the order of the columns. *)
Definition di_add_bounds (x0bounds : list F) : result (list F * list F) :=
  b0 <- py_index x0bounds 0%Z ;;
  b1 <- py_index x0bounds 1%Z ;;
  Ok ([b0; lit (2#10)%Q; lit 0%Q; lit (-1#100)%Q; lit (-2)%Q],
      [b1; lit 10%Q; lit (5#10)%Q; lit (1#100)%Q; lit 2%Q]).

Definition di_model (xdata p : list F) : result (list F) :=
  match p with
  | [x0; beta; di0; di2; delta] =>
      Ok (buf (di_sense_simple (arr1 xdata) x0 beta di0 di2 delta))
  | _ => Raise (TypeError "di_sense_simple() takes 6 positional arguments")
  end.

(* ------------------------------------------------------------------ *)
(** *** Constraints and tabulation, common to both routines *)

(** [for p in constrain: for i in range(1,n):
       fit_params['p_i'].expr = 'p_0'] (lines 211-213, 303-305). *)
Definition apply_constrain (constrain : list string) (n : nat) (ps : lm_params F)
  : result (lm_params F) :=
  rfold (fun ps p =>
           rfold (fun ps i => set_expr ps (pname p i) (pname p 0)) (seq 1 (n - 1)) ps)
        constrain ps.

(** [for p in fix: for i in range(n): fit_params['p_i'].vary = False]
    (lines 308-310). *)
Definition apply_fix (fix_ : list string) (n : nat) (ps : lm_params F)
  : result (lm_params F) :=
  rfold (fun ps p => rfold (fun ps i => set_fixed ps (pname p i)) (range n) ps)
        fix_ ps.

(** [for i in range(n):
       df.loc[i] = [valdict['c_i'] for c in columns]]
    (lines 219-220, 316-317). *)
Definition tabulate (columns : list string) (n : nat) (valdict : list (string * F))
  : result table :=
  rfold (fun df i =>
           row <- rmap (fun c => dict_get valdict (pname c i)) columns ;;
           Ok (df ++ [row]))
        (range n) [].

(* ------------------------------------------------------------------ *)
(** *** Shape checks (lines 166-184, 257-275) *)

Local Open Scope m_scope.

(** [if(z.ndim==1): m = len(z); n = 1; z.shape = (n,m)
     elif(z.ndim==2): n,m = z.shape
     else: raise ValueError]. *)
Definition z_dimensions (zr : nat) : M F (nat * nat) :=
  z <- get_obj zr ;;
  match shape z return M F (nat * nat) with
  | [m] => set_shape zr [1; m] ;;; ret (1, m)
  | [n; m] => ret (n, m)
  | _ => raise (ValueError "the shape of zarray is wrong")
  end.

(** [if(x.ndim==1 or x.shape[0]==1): x = np.tile(x, (n,1))
     elif(x.shape[0]==n): pass
     else: raise ValueError].
    The result is the object [x] names afterwards.  An array of no
    dimension has no [shape[0]]. *)
Definition x_rows (xr : nat) (n : nat) : M F nat :=
  x <- get_obj xr ;;
  match shape x return M F nat with
  | [] => raise IndexError
  | [_] => alloc (np_tile x n)
  | s0 :: _ =>
      if s0 =? 1 then alloc (np_tile x n)
      else if s0 =? n then ret xr
      else raise (ValueError "the shape of xarray is wrong")
  end.

(** [df.loc[i] = row] on a table of five columns holding rows
    [0..i-1]. *)
Definition df_set_row (df : table) (row : list F) : result table :=
  if length row =? 5 then Ok (df ++ [row])
  else Raise (ValueError "cannot set a row with mismatched columns").

(* ------------------------------------------------------------------ *)
(** *** [i_sense_fit_simultaneous] (lines 138-230) *)

(** From the window selection to the table (lines 186-230), on the
    arrays [x] and [z] as the shape checks leave them. *)
Definition i_sense_fit_body (x z : ndarray F) (n : nat)
    (centers widths x0bounds : list F)
    (constrain : option (list string)) (span : option F) : M F table :=
  win <- lift (fit_window x centers span n) ;;
  let ilow := fst win in
  let ihigh := snd win in
  if truthy_seq constrain then
    emit EvParameters ;;;
    ps <- lift (rfold (i_sense_add_group z centers widths x0bounds ilow ihigh)
                      (range n) []) ;;
    ps <- lift (apply_constrain (seq_items constrain) n ps) ;;
    emit (EvMinimize ps ilow ihigh) ;;;
    res <- lift (minimize lm_engine
                   (fun p => i_sense_objective p x z ilow ihigh) ps) ;;
    valdict <- lift (valuesdict res) ;;
    lift (tabulate i_sense_columns n valdict)
  else
    mfold (fun df i =>
        p0 <- lift (i_sense_p0 z centers widths ilow ihigh i) ;;
        bounds <- lift (i_sense_bounds x0bounds) ;;
        xs <- lift (window x ilow ihigh i) ;;
        zs <- lift (window z ilow ihigh i) ;;
        emit (EvCurveFit xs zs p0 (fst bounds) (snd bounds)) ;;;
        match curve_fit i_sense_model xs zs p0 (fst bounds) (snd bounds) with
        | Some popt => lift (df_set_row df popt)
        | None => raise OptimizerError
        end)
      (range n) [].

Definition i_sense_fit_simultaneous (xr zr : nat) (centers widths x0bounds : list F)
    (constrain : option (list string)) (span : option F) : M F table :=
  nm <- z_dimensions zr ;;
  let n := fst nm in
  xr' <- x_rows xr n ;;
  x <- get_obj xr' ;;
  z <- get_obj zr ;;
  i_sense_fit_body x z n centers widths x0bounds constrain span.

(* ------------------------------------------------------------------ *)
(** *** [di_fit_simultaneous] (lines 232-327) *)

(** From the window selection to the table (lines 277-327). *)
Definition di_fit_body (x z : ndarray F) (n : nat)
    (centers widths x0bounds : list F)
    (constrain fix_ : option (list string)) (span : option F) : M F table :=
  win <- lift (fit_window x centers span n) ;;
  let ilow := fst win in
  let ihigh := snd win in
  if truthy_seq constrain || truthy_seq fix_ then
    emit EvParameters ;;;
    ps <- lift (rfold (di_add_group z centers widths x0bounds ilow ihigh)
                      (range n) []) ;;
    ps <- lift (if truthy_seq constrain
                then apply_constrain (seq_items constrain) n ps else Ok ps) ;;
    ps <- lift (if truthy_seq fix_
                then apply_fix (seq_items fix_) n ps else Ok ps) ;;
    emit (EvMinimize ps ilow ihigh) ;;;
    res <- lift (minimize lm_engine
                   (fun p => di_objective x p x z ilow ihigh) ps) ;;
    valdict <- lift (valuesdict res) ;;
    lift (tabulate di_columns n valdict)
  else
    mfold (fun df i =>
        p0 <- lift (di_p0 z centers widths ilow ihigh i) ;;
        bounds <- lift (di_bounds x0bounds) ;;
        xs <- lift (window x ilow ihigh i) ;;
        zs <- lift (window z ilow ihigh i) ;;
        emit (EvCurveFit xs zs p0 (fst bounds) (snd bounds)) ;;;
        match curve_fit di_model xs zs p0 (fst bounds) (snd bounds) with
        | Some popt => lift (df_set_row df popt)
        | None => raise OptimizerError
        end)
      (range n) [].

Definition di_fit_simultaneous (xr zr : nat) (centers widths x0bounds : list F)
    (constrain fix_ : option (list string)) (span : option F) : M F table :=
  nm <- z_dimensions zr ;;
  let n := fst nm in
  xr' <- x_rows xr n ;;
  x <- get_obj xr' ;;
  z <- get_obj zr ;;
  di_fit_body x z n centers widths x0bounds constrain fix_ span.

End Fit.

(* ================================================================== *)
(** ** [get_subset] (lines 47-67) *)

Section Subset.
Context {F : Type} `{FloatOps F}.

Local Open Scope res_scope.

(** The triple [data]: the two axes and the values. *)
Record dataset : Type := mk_data {
  data0 : list F;
  data1 : list F;
  data2 : ndarray F
}.

(** [b if b else extent[i]]: [None] and zero are false. *)
Definition bound_or_extent (extent : list F) (i : nat) (b : option F) : result F :=
  match b with
  | Some v => if fnonzero v then Ok v else py_index extent (Z.of_nat i)
  | None => py_index extent (Z.of_nat i)
  end.

Fixpoint enumerate_from {A} (i : nat) (l : list A) : list (nat * A) :=
  match l with
  | [] => []
  | a :: l' => (i, a) :: enumerate_from (S i) l'
  end.

(** [np.nanargmin(np.abs(a - t))] for a one-dimensional [a]. *)
Definition nearest1 (a : list F) (t : F) : result Z :=
  j <- nanargmin (map (fun v => fabs (fsub v t)) a) ;; Ok (Z.of_nat j).

(** [a[r0:r1, c0:c1]] of a two-dimensional array. *)
Definition nd_slice2 (a : ndarray F) (r0 r1 c0 c1 : Z) : result (ndarray F) :=
  match shape a with
  | [n; m] =>
      let rows := map (fun r => py_slice r c0 c1) (py_slice (chunks m n (buf a)) r0 r1) in
      Ok (mk_nd [length rows; slice_bound m c1 - slice_bound m c0] (concat rows))
  | _ => Raise IndexError
  end.

(** Calling the constant [NotImplemented], which is what
    [raise NotImplemented('...')] evaluates first, is a type error:
    the constant is not an exception class and not callable. *)
Definition call_NotImplemented {A} (msg : string) : result A :=
  Raise (TypeError "'NotImplementedType' object is not callable").

Definition get_subset (data : dataset) (bounds : list (option F))
  : result (list F * list F * ndarray F) :=
  if negb (length bounds =? 2 * ndim (data2 data)) then
    Raise (ValueError "Dimensions of bounds and w.extent must match")
  else
    e0 <- py_index (data0 data) 0%Z ;;
    e1 <- py_index (data0 data) (-1)%Z ;;
    e2 <- py_index (data1 data) 0%Z ;;
    e3 <- py_index (data1 data) (-1)%Z ;;
    let extent := [e0; e1; e2; e3] in
    bs <- rmap (fun ib => bound_or_extent extent (fst ib) (snd ib))
               (enumerate_from 0 bounds) ;;
    if ndim (data2 data) =? 2 then
      b0 <- py_index bs 0%Z ;;
      ix0 <- nearest1 (data0 data) b0 ;;
      b1 <- py_index bs 1%Z ;;
      ix1 <- nearest1 (data0 data) b1 ;;
      b2 <- py_index bs 2%Z ;;
      iy0 <- nearest1 (data1 data) b2 ;;
      b3 <- py_index bs 3%Z ;;
      iy1 <- nearest1 (data1 data) b3 ;;
      sub <- nd_slice2 (data2 data) iy0 iy1 ix0 ix1 ;;
      Ok (py_slice (data0 data) ix0 ix1, py_slice (data1 data) iy0 iy1, sub)
    else
      call_NotImplemented "1d waves not implemented. Go fix it.".

End Subset.

Arguments dataset F : clear implicits.

(* ================================================================== *)
(** ** An instance: the reals with NaN and the infinities *)

Module XReal.

(** Unrounded floating-point values: a real number, an infinity
    ([XInf true] is the negative one) or NaN. *)
Inductive xreal : Type :=
| XNaN
| XInf (neg : bool)
| XFin (r : R).

Definition Rltb (a b : R) : bool := if Rlt_dec a b then true else false.
Definition Reqb (a b : R) : bool := if Req_dec_T a b then true else false.

Definition xneg (a : xreal) : xreal :=
  match a with
  | XNaN => XNaN
  | XInf s => XInf (negb s)
  | XFin r => XFin (- r)%R
  end.

Definition xadd (a b : xreal) : xreal :=
  match a, b with
  | XNaN, _ | _, XNaN => XNaN
  | XInf s, XInf s' => if Bool.eqb s s' then XInf s else XNaN
  | XInf s, XFin _ | XFin _, XInf s => XInf s
  | XFin x, XFin y => XFin (x + y)%R
  end.

Definition xsub (a b : xreal) : xreal := xadd a (xneg b).

Definition xmul (a b : xreal) : xreal :=
  match a, b with
  | XNaN, _ | _, XNaN => XNaN
  | XInf s, XInf s' => XInf (xorb s s')
  | XInf s, XFin r | XFin r, XInf s =>
      if Reqb r 0 then XNaN else XInf (xorb s (Rltb r 0))
  | XFin x, XFin y => XFin (x * y)%R
  end.

Definition xdiv (a b : xreal) : xreal :=
  match a, b with
  | XNaN, _ | _, XNaN => XNaN
  | XInf _, XInf _ => XNaN
  | XInf s, XFin r => XInf (xorb s (Rltb r 0))
  | XFin _, XInf _ => XFin 0
  | XFin x, XFin y =>
      if Reqb y 0 then (if Reqb x 0 then XNaN else XInf (Rltb x 0))
      else XFin (x / y)%R
  end.

Definition xabs (a : xreal) : xreal :=
  match a with
  | XNaN => XNaN
  | XInf _ => XInf false
  | XFin r => XFin (Rabs r)
  end.

Definition xpow (a : xreal) (k : Z) : xreal :=
  if (k =? 0)%Z then XFin 1
  else match a with
       | XNaN => XNaN
       | XInf s => if (k <? 0)%Z then XFin 0 else XInf (s && Z.odd k)
       | XFin r =>
           if (k <? 0)%Z then
             (if Reqb r 0 then XInf false else XFin (/ (r ^ Z.to_nat (- k)))%R)
           else XFin (r ^ Z.to_nat k)%R
       end.

Definition xtanh (a : xreal) : xreal :=
  match a with
  | XNaN => XNaN
  | XInf s => XFin (if s then -1 else 1)%R
  | XFin r => XFin (tanh r)
  end.

Definition xcosh (a : xreal) : xreal :=
  match a with
  | XNaN => XNaN
  | XInf _ => XInf false
  | XFin r => XFin (cosh r)
  end.

Definition xltb (a b : xreal) : bool :=
  match a, b with
  | XNaN, _ | _, XNaN => false
  | XInf s, XInf s' => s && negb s'
  | XInf s, XFin _ => s
  | XFin _, XInf s => negb s
  | XFin x, XFin y => Rltb x y
  end.

Definition xisnan (a : xreal) : bool :=
  match a with
  | XNaN => true
  | _ => false
  end.

Definition xnonzero (a : xreal) : bool :=
  match a with
  | XFin r => negb (Reqb r 0)
  | _ => true
  end.

#[export] Instance xreal_ops : FloatOps xreal := {
  lit q := XFin (Q2R q);
  fadd := xadd;
  fsub := xsub;
  fmul := xmul;
  fdiv := xdiv;
  fneg := xneg;
  fabs := xabs;
  fpow := xpow;
  ftanh := xtanh;
  fcosh := xcosh;
  fltb := xltb;
  fisnan := xisnan;
  finf := XInf false;
  fnonzero := xnonzero
}.

(** A real literal. *)
Definition fin (z : Z) : xreal := XFin (IZR z).

(** An engine that stops where it starts: every free variable keeps
    its initial value. *)
Definition idle_engine (f : list xreal -> result (list xreal))
    (init : list (xreal * xreal * xreal)) : option (list xreal) :=
  Some (map (fun t => fst (fst t)) init).

(** An engine that moves every free variable to its upper bound. *)
Definition upper_engine (f : list xreal -> result (list xreal))
    (init : list (xreal * xreal * xreal)) : option (list xreal) :=
  Some (map (fun t => snd t) init).

Definition idle_curve_fit (f : list xreal -> list xreal -> result (list xreal))
    (xdata ydata p0 lower upper : list xreal) : option (list xreal) :=
  Some p0.

(** A store holding [x] at handle 0 and [z] at handle 1. *)
Definition store2 (x z : ndarray xreal) : state xreal :=
  mk_state (fun r => match r with 0 => x | _ => z end) 2 [].

(** Three samples at x = 0, 1, 2; one dataset, and two datasets. *)
Definition x3 : ndarray xreal := arr1 [fin 0; fin 1; fin 2].

Definition z13 : ndarray xreal := mk_nd [1; 3] [fin 1; fin 2; fin 3].

Definition z23 : ndarray xreal :=
  mk_nd [2; 3] [fin 1; fin 2; fin 3; fin 4; fin 6; fin 8].

Definition x13 : ndarray xreal := mk_nd [1; 3] [fin 0; fin 1; fin 2].

(** The same three samples as the [x] of two datasets, and the
    parameter set of two sensor-current groups: every value is 1 in
    group 0 and 2 in group 1. *)
Definition x23 : ndarray xreal :=
  mk_nd [2; 3] [fin 0; fin 1; fin 2; fin 0; fin 1; fin 2].

Definition two_groups : lm_params xreal :=
  [("x0_0", mk_param (fin 1) (fin 0) (fin 3) true None);
   ("beta_0", mk_param (fin 1) (fin 0) (fin 3) true None);
   ("i0_0", mk_param (fin 1) (fin 0) (fin 3) true None);
   ("i1_0", mk_param (fin 1) (fin 0) (fin 3) true None);
   ("i2_0", mk_param (fin 1) (fin 0) (fin 3) true None);
   ("x0_1", mk_param (fin 2) (fin 0) (fin 3) true None);
   ("beta_1", mk_param (fin 2) (fin 0) (fin 3) true None);
   ("i0_1", mk_param (fin 2) (fin 0) (fin 3) true None);
   ("i1_1", mk_param (fin 2) (fin 0) (fin 3) true None);
   ("i2_1", mk_param (fin 2) (fin 0) (fin 3) true None)].

(** Six samples at x = 0, ..., 5 and two datasets with a peak at
    x = 2, of height 2 and of height 4. *)
Definition x6 : ndarray xreal := arr1 [fin 0; fin 1; fin 2; fin 3; fin 4; fin 5].

Definition z26 : ndarray xreal :=
  mk_nd [2; 6] [fin 0; fin 1; fin 2; fin 1; fin 0; fin 0;
                fin 0; fin 2; fin 4; fin 2; fin 0; fin 0].

(** An unsorted row of x. *)
Definition x13_unsorted : ndarray xreal := mk_nd [1; 3] [fin 2; fin 0; fin 1].

End XReal.

(* ================================================================== *)
(** ** Vocabulary of the statements *)

Section Vocabulary.
Context {F : Type} `{FloatOps F}.

(** The two model families. *)
Inductive family : Type := Sensor | WeakLoc.

Definition columns (fam : family) : list string :=
  match fam with
  | Sensor => i_sense_columns
  | WeakLoc => di_columns
  end.

(** The line shapes at one point, as the specification writes them. *)
Definition i_sense_point (x0 beta i0 i1 i2 x : F) : F :=
  fadd (fadd (fmul (fneg i0) (ftanh (fdiv (fsub x x0) beta)))
             (fmul i1 (fsub x x0)))
       i2.

Definition di_point (x0 beta di0 di2 delta x : F) : F :=
  let arg := fdiv (fsub x x0) beta in
  fadd (fmul (fmul (fmul (fneg (lit (1#2)%Q)) di0) (fadd arg delta))
             (fpow (fcosh arg) (-2)%Z))
       di2.

(** The model of group [i] at one point, with the parameter values
    [val role i]. *)
Definition point (fam : family) (val : string -> nat -> F) (i : nat) (x : F) : F :=
  match fam with
  | Sensor =>
      i_sense_point (val "x0" i) (val "beta" i) (val "i0" i) (val "i1" i) (val "i2" i) x
  | WeakLoc =>
      di_point (val "x0" i) (val "beta" i) (val "di0" i) (val "di2" i) (val "delta" i) x
  end.

(** The objective of either routine; [x] is the x-array of the
    enclosing call. *)
Definition objective (fam : family) (x : ndarray F) (params : lm_params F)
    (xx zz : ndarray F) (idx0 idx1 : list Z) : result (list F) :=
  match fam with
  | Sensor => i_sense_objective params xx zz idx0 idx1
  | WeakLoc => di_objective x params xx zz idx0 idx1
  end.

(** Row [i] of a buffer of rows of [m] elements. *)
Definition row (m : nat) (b : list F) (i : nat) : list F :=
  firstn m (skipn (i * m) b).

(** Measured minus modelled over the window of dataset [i]. *)
Definition window_residual (fam : family) (val : string -> nat -> F) (m : nat)
    (x z : ndarray F) (ilow ihigh : list Z) (i : nat) : list F :=
  let lo := nth i ilow 0%Z in
  let hi := nth i ihigh 0%Z in
  zip_with fsub (py_slice (row m (buf z) i) lo hi)
                (map (point fam val i) (py_slice (row m (buf x) i) lo hi)).

(** Either routine; the sensor-current routine has no [fix] argument. *)
Definition fit_simultaneous (fam : family)
    (lm_engine : (list F -> result (list F)) -> list (F * F * F) -> option (list F))
    (curve_fit : (list F -> list F -> result (list F)) ->
                 list F -> list F -> list F -> list F -> list F -> option (list F))
    (xr zr : nat) (centers widths x0bounds : list F)
    (constrain fix_ : option (list string)) (span : option F) : M F (list (list F)) :=
  match fam with
  | Sensor =>
      i_sense_fit_simultaneous lm_engine curve_fit xr zr centers widths x0bounds
        constrain span
  | WeakLoc =>
      di_fit_simultaneous lm_engine curve_fit xr zr centers widths x0bounds
        constrain fix_ span
  end.

(** Position of a role among the columns, and the cell of a table. *)
Fixpoint col_index (cols : list string) (p : string) : nat :=
  match cols with
  | [] => 0
  | c :: cols' => if String.eqb c p then 0 else S (col_index cols' p)
  end.

Definition cell (cols : list string) (t : list (list F)) (i : nat) (p : string)
  : option F :=
  match nth_error t i with
  | Some r => nth_error r (col_index cols p)
  | None => None
  end.

End Vocabulary.

(* ================================================================== *)
(** ** Errors, stores and shapes in the statements *)

(** The two validation failures of the shape checks. *)
Definition validation_failure {A} (r : result A) : Prop :=
  r = Raise (ValueError "the shape of zarray is wrong") \/
  r = Raise (ValueError "the shape of xarray is wrong").

Definition passes {A} (r : result A) : Prop := ~ validation_failure r.

Section StatementsState.
Context {F : Type} `{FloatOps F}.

(** A computation is benign when it raises no validation failure and
    leaves the store of array objects as it found it. *)
Definition benign {A} (c : M F A) : Prop :=
  forall s, passes (fst (c s)) /\
            heap (snd (c s)) = heap s /\ next (snd (c s)) = next s.

(** The number of datasets a well-shaped [z] holds. *)
Definition z_rows (zsh : list nat) : nat :=
  match zsh with
  | [_] => 1
  | n :: _ => n
  | [] => 0
  end.

(** The row count of [x]: a one-dimensional [x] is one shared row; an
    array of no dimension has no rows. *)
Definition row_count (xsh : list nat) : option nat :=
  match xsh with
  | [] => None
  | [_] => Some 1
  | s0 :: _ => Some s0
  end.

(** [z] has a number of dimensions other than 1 or 2, or the row count
    of [x] is neither 1 nor that of [z]. *)
Definition shape_mismatch (zsh xsh : list nat) : bool :=
  negb ((length zsh =? 1) || (length zsh =? 2)) ||
  match row_count xsh with
  | Some r => negb (r =? 1) && negb (r =? z_rows zsh)
  | None => false
  end.

(** What the call leaves at the handle of [z]. *)
Definition z_after (z : ndarray F) : ndarray F :=
  match shape z with
  | [m] => mk_nd [1; m] (buf z)
  | _ => z
  end.

(** The array that [x] names after the shape checks: a one-dimensional
    [x] and an [x] of one row are tiled to [n] rows. *)
Definition x_after (x : ndarray F) (n : nat) : ndarray F :=
  match shape x with
  | [] => x
  | [_] => np_tile x n
  | s0 :: _ => if s0 =? 1 then np_tile x n else x
  end.

(** The arrays the body of either routine works on, for [x] at the
    handle [xr] and [z] at the handle [zr] of the store [s]: [z] as the
    reshaping leaves it, and [x] as it is read after that reshaping
    (which it undergoes when it is the object of [z]) and tiled. *)
Definition z_seen (s : state F) (zr : nat) : ndarray F := z_after (heap s zr).

Definition x_seen (s : state F) (xr zr : nat) : ndarray F :=
  x_after (if xr =? zr then z_after (heap s zr) else heap s xr)
          (z_rows (shape (heap s zr))).

(** The shape checks followed by any benign continuation. *)
Definition checked (xr zr : nat) (k : ndarray F -> ndarray F -> nat -> M F (list (list F)))
  : M F (list (list F)) :=
  bind (z_dimensions zr) (fun nm =>
  bind (x_rows xr (fst nm)) (fun xr' =>
  bind (get_obj xr') (fun x =>
  bind (get_obj zr) (fun z => k x z (fst nm))))).

End StatementsState.

Section StatementsRoutines.
Context {F : Type} `{FloatOps F}.
Variable lm_engine :
  (list F -> result (list F)) -> list (F * F * F) -> option (list F).
Variable curve_fit :
  (list F -> list F -> result (list F)) ->
  list F -> list F -> list F -> list F -> list F -> option (list F).

(** The body of either routine. *)
Definition fit_body (fam : family) (centers widths x0bounds : list F)
    (constrain fix_ : option (list string)) (span : option F)
    (x z : ndarray F) (n : nat) : M F (list (list F)) :=
  match fam with
  | Sensor =>
      i_sense_fit_body lm_engine curve_fit x z n centers widths x0bounds
        constrain span
  | WeakLoc =>
      di_fit_body lm_engine curve_fit x z n centers widths x0bounds
        constrain fix_ span
  end.

End StatementsRoutines.

Unset Implicit Arguments.

(* ================================================================== *)
(** ** Parameter sets, phases and windows in the statements *)

Section StatementsParams.
Context {F : Type} `{FloatOps F}.

Definition keys (ps : lm_params F) : list string := map fst ps.

(** What [assign] changes: values, and only those of the names it is
    given. *)
Definition same_but_value (q q' : lm_param F) : Prop :=
  p_min q' = p_min q /\ p_max q' = p_max q /\
  p_vary q' = p_vary q /\ p_expr q' = p_expr q.

(** Every expression of the set ties a group [j >= 1] of a constrained
    role to group 0 of that role. *)
Definition exprs_from (cl : list string) (ps : lm_params F) : Prop :=
  forall k q e, params_lookup ps k = Some q -> p_expr q = Some e ->
                exists p j, In p cl /\ 1 <= j /\ k = pname p j /\ e = pname p 0.

Definition has_expr (ps : lm_params F) (k : string) : Prop :=
  exists q e, params_lookup ps k = Some q /\ p_expr q = Some e.

Definition is_fixed (ps : lm_params F) (k : string) : Prop :=
  exists q, params_lookup ps k = Some q /\ p_vary q = false.

Definition expr_of (ps : lm_params F) (k : string) : option (option string) :=
  option_map (@p_expr F) (params_lookup ps k).

Definition value_of (ps : lm_params F) (k : string) : option F :=
  option_map (@p_value F) (params_lookup ps k).

Definition no_exprs (ps : lm_params F) : Prop :=
  forall k q, params_lookup ps k = Some q -> p_expr q = None.

Definition fresh_set (ps : lm_params F) : Prop :=
  NoDup (keys ps) /\ no_exprs ps.

(** Whether the routine takes the joint path. *)
Definition joint_mode (fam : family) (constrain fix_ : option (list string)) : bool :=
  match fam with
  | Sensor => truthy_seq constrain
  | WeakLoc => truthy_seq constrain || truthy_seq fix_
  end.

(** The fix directives the routine applies. *)
Definition fix_items (fam : family) (fix_ : option (list string)) : list string :=
  match fam with
  | Sensor => []
  | WeakLoc => if truthy_seq fix_ then seq_items fix_ else []
  end.

Definition constrain_items (constrain : option (list string)) : list string :=
  if truthy_seq constrain then seq_items constrain else [].

(** Index [j] holds a value of [row] nearest to [t]: its distance to
    [t] is a number, no entry at a numeric distance is strictly
    nearer, and every earlier such entry is strictly farther. *)
Definition nearest (row : list F) (t : F) (j : nat) : Prop :=
  let d := fun k => fabs (fsub (nth k row (lit 0%Q)) t) in
  j < length row /\ fisnan (d j) = false /\
  (forall k, k < length row -> fisnan (d k) = false -> fltb (d k) (d j) = false) /\
  (forall k, k < j -> fisnan (d k) = false -> fltb (d j) (d k) = true).

(** Some entry of [row] is at a finite distance from [t]. *)
Definition reachable (row : list F) (t : F) : Prop :=
  exists k, k < length row /\
    fisnan (fabs (fsub (nth k row (lit 0%Q)) t)) = false /\
    fltb (fabs (fsub (nth k row (lit 0%Q)) t)) finf = true.

(** Every role of every group [i < n] has its parameter. *)
Definition all_named (fam : family) (n : nat) (ps : lm_params F) : Prop :=
  forall c i, In c (columns fam) -> i < n ->
              exists q, params_lookup ps (pname c i) = Some q.

(** Every expression names a parameter that owns its value. *)
Definition exprs_resolve (ps : lm_params F) : Prop :=
  forall k q e, params_lookup ps k = Some q -> p_expr q = Some e ->
                exists q0, params_lookup ps e = Some q0 /\ p_expr q0 = None.

End StatementsParams.

(* ================================================================== *)
(** ** Polynomial line shapes (lines 91-101) *)

Section Polynomials.
Context {F : Type} `{FloatOps F}.

(** [a*x + b]. *)
Definition line (x : ndarray F) (a b : F) : ndarray F :=
  nd_map (fun v => fadd v b) (nd_map (fun v => fmul a v) x).

(** [a*x**2 + b*x + c]. *)
Definition parabola (x : ndarray F) (a b c : F) : ndarray F :=
  nd_map (fun v => fadd v c)
    (nd_map2 fadd
       (nd_map (fun v => fmul a v) (nd_map (fun v => fpow v 2%Z) x))
       (nd_map (fun v => fmul b v) x)).

(** [a*x**3 + b*x**2 + c*x + d]. *)
Definition cubic (x : ndarray F) (a b c d : F) : ndarray F :=
  nd_map (fun v => fadd v d)
    (nd_map2 fadd
       (nd_map2 fadd
          (nd_map (fun v => fmul a v) (nd_map (fun v => fpow v 3%Z) x))
          (nd_map (fun v => fmul b v) (nd_map (fun v => fpow v 2%Z) x)))
       (nd_map (fun v => fmul c v) x)).

(** [a*x**4 + b*x**3 + c*x**2 + d*x + e]; the source calls the quartic
    [quadratic]. *)
Definition quadratic (x : ndarray F) (a b c d e : F) : ndarray F :=
  nd_map (fun v => fadd v e)
    (nd_map2 fadd
       (nd_map2 fadd
          (nd_map2 fadd
             (nd_map (fun v => fmul a v) (nd_map (fun v => fpow v 4%Z) x))
             (nd_map (fun v => fmul b v) (nd_map (fun v => fpow v 3%Z) x)))
          (nd_map (fun v => fmul c v) (nd_map (fun v => fpow v 2%Z) x)))
       (nd_map (fun v => fmul d v) x)).

(** The four polynomials at one point, with Python's precedence: the
    powers first, then the products, then the sums from the left. *)
Definition line_point (a b v : F) : F := fadd (fmul a v) b.

Definition parabola_point (a b c v : F) : F :=
  fadd (fadd (fmul a (fpow v 2%Z)) (fmul b v)) c.

Definition cubic_point (a b c d v : F) : F :=
  fadd (fadd (fadd (fmul a (fpow v 3%Z)) (fmul b (fpow v 2%Z))) (fmul c v)) d.

Definition quadratic_point (a b c d e v : F) : F :=
  fadd (fadd (fadd (fadd (fmul a (fpow v 4%Z)) (fmul b (fpow v 3%Z)))
                   (fmul c (fpow v 2%Z)))
             (fmul d v))
       e.

End Polynomials.

(* ================================================================== *)
(** ** [moving_avg] (lines 28-45) *)

Section MovingAverage.
Context {F : Type} `{FloatOps F}.

Local Open Scope res_scope.

(** The three statements [c = np.cumsum(l); c[avgs:] = c[avgs:] -
    c[:-avgs]; c[avgs-1:] / avgs] along the first axis of an array
    whose entries along that axis are of type [E]: numbers for a
    one-dimensional array, rows for a two-dimensional one. *)
Section Window.
Context {E : Type}.
Variables (add sub : E -> E -> E) (scale : E -> E).

(** [np.cumsum]: the running sums; the first one is the first entry. *)
Fixpoint cumsum_from (acc : E) (l : list E) : list E :=
  match l with
  | [] => []
  | a :: l' => add acc a :: cumsum_from (add acc a) l'
  end.

Definition cumsum (l : list E) : list E :=
  match l with
  | [] => []
  | a :: l' => a :: cumsum_from a l'
  end.

Fixpoint zip_els (f : E -> E -> E) (l1 l2 : list E) : list E :=
  match l1, l2 with
  | a :: l1', b :: l2' => f a b :: zip_els f l1' l2'
  | _, _ => []
  end.

(** [a - b] for two slices along the first axis: the lengths agree, or
    one of them is 1. *)
Definition sub_slices (a b : list E) : result (list E) :=
  if length a =? length b then Ok (zip_els sub a b)
  else match a, b with
       | [a0], _ => Ok (map (fun v => sub a0 v) b)
       | _, [b0] => Ok (map (fun v => sub v b0) a)
       | _, _ => Raise (ValueError "operands could not be broadcast together")
       end.

(** [c[a:]]. *)
Definition py_slice_from (c : list E) (a : Z) : list E :=
  skipn (slice_bound (length c) a) c.

(** [c[a:] = v]: [v] has the length of the slice, or length 1. *)
Definition assign_from (c : list E) (a : Z) (v : list E) : result (list E) :=
  let s := slice_bound (length c) a in
  if length v =? length c - s then Ok (firstn s c ++ v)
  else match v with
       | [v0] => Ok (firstn s c ++ repeat v0 (length c - s))
       | _ => Raise (ValueError "could not broadcast input array")
       end.

Definition windowed_mean (l : list E) (avgs : Z) : result (list E) :=
  let c := cumsum l in
  d <- sub_slices (py_slice_from c avgs) (py_slice c 0%Z (- avgs)%Z) ;;
  c' <- assign_from c avgs d ;;
  Ok (map scale (py_slice_from c' (avgs - 1)%Z)).

(** What [windowed_mean] computes for a window of [a] entries, [a]
    between 1 and the length: the [a]-th running sum, then the
    differences of the running sums [a] places apart, all scaled. *)
Definition window_means (l : list E) (a : nat) : list E :=
  match skipn (a - 1) (cumsum l) with
  | [] => []
  | c :: _ =>
      map scale (c :: zip_els sub (skipn a (cumsum l))
                                  (firstn (length l - a) (cumsum l)))
  end.

(** The sum over the window of [a] entries that starts at entry [k],
    as the statements form it from the running sums [c]. *)
Definition window_sum (d : E) (c : list E) (a k : nat) : E :=
  match k with
  | 0 => nth (a - 1) c d
  | S k' => sub (nth (k' + a) c d) (nth k' c d)
  end.

End Window.

(** [v / avgs] for an integer [avgs]. *)
Definition div_int (avgs : Z) (v : F) : F := fdiv v (lit (inject_Z avgs)).

(** The moving average of a flattened array. *)
Definition windowed_mean1 (l : list F) (avgs : Z) : result (list F) :=
  windowed_mean fadd fsub (div_int avgs) l avgs.

(** [moving_avg(x, y, avgs, axis)].  [x] is always flattened; [y] is
    averaged along its first axis ([axis == 0]), along the second axis of
    a two-dimensional array ([axis == 1]) or flattened (any other
    [axis], [None] included).  Along the second axis the shapes of the
    slices, which decide whether the statements succeed and how wide
    the result is, are those of one row.  [dtype=np.float] is read as
    the float type, as numpy read it before the alias was removed.  An
    array of no dimension with [axis == 0], and an array that is not
    two-dimensional with [axis == 1], are outside this model. *)
Definition moving_avg (x y : ndarray F) (avgs : Z) (axis : option Z)
  : result (ndarray F * ndarray F) :=
  xx <- windowed_mean1 (buf x) avgs ;;
  match axis with
  | Some 0%Z =>
      match shape y with
      | [] => Raise (TypeError "array of unsupported dimension")
      | n :: rest =>
          let w := fold_right Nat.mul 1 rest in
          ret <- windowed_mean (zip_with fadd) (zip_with fsub) (map (div_int avgs))
                   (chunks w n (buf y)) avgs ;;
          Ok (arr1 xx, mk_nd (length ret :: rest) (concat ret))
      end
  | Some 1%Z =>
      match shape y with
      | [n; m] =>
          width <- windowed_mean (fun _ _ => tt) (fun _ _ => tt) (fun u => u)
                     (repeat tt m) avgs ;;
          ret <- rmap (fun r => windowed_mean1 r avgs) (chunks m n (buf y)) ;;
          Ok (arr1 xx, mk_nd [n; length width] (concat ret))
      | _ => Raise (TypeError "array of unsupported dimension")
      end
  | _ =>
      ret <- windowed_mean1 (buf y) avgs ;;
      Ok (arr1 xx, arr1 ret)
  end.

End MovingAverage.

(* ================================================================== *)
(** ** [xy_to_meshgrid] (lines 69-85) *)

Section Meshgrid.
Context {F : Type} `{FloatOps F}.

Local Open Scope res_scope.

(** [np.meshgrid(xs, ys)]: two arrays of [len(ys)] rows and [len(xs)]
    columns; the first repeats [xs] in every row, the second repeats
    [ys] down every column. *)
Definition np_meshgrid (xs ys : list F) : ndarray F * ndarray F :=
  (mk_nd [length ys; length xs] (concat (repeat xs (length ys))),
   mk_nd [length ys; length xs] (flat_map (fun v => repeat v (length xs)) ys)).

Definition xy_to_meshgrid (x y : list F) : result (ndarray F * ndarray F) :=
  let nx := length x in
  let ny := length y in
  xl <- py_index x (-1)%Z ;;
  xf <- py_index x 0%Z ;;
  let dx := fdiv (fsub xl xf) (lit (inject_Z (Z.of_nat nx - 1))) in
  yl <- py_index y (-1)%Z ;;
  yf <- py_index y 0%Z ;;
  let dy := fdiv (fsub yl yf) (lit (inject_Z (Z.of_nat ny - 1))) in
  let x := map (fun v => fsub v (fdiv dx (lit 2%Q))) x in
  let y := map (fun v => fsub v (fdiv dy (lit 2%Q))) y in
  xe <- py_index x (-1)%Z ;;
  let xn := fadd xe dx in
  ye <- py_index y (-1)%Z ;;
  let yn := fadd ye dy in
  Ok (np_meshgrid (x ++ [xn]) (y ++ [yn])).

(** The step of an axis and its cell edges: every point moved back by
    half a step, and one more edge a whole step after the last. *)
Definition axis_step (l : list F) : F :=
  fdiv (fsub (last l (lit 0%Q)) (hd (lit 0%Q) l))
       (lit (inject_Z (Z.of_nat (length l) - 1))).

Definition cell_edges (l : list F) : list F :=
  map (fun v => fsub v (fdiv (axis_step l) (lit 2%Q))) l ++
  [fadd (fsub (last l (lit 0%Q)) (fdiv (axis_step l) (lit 2%Q))) (axis_step l)].

End Meshgrid.

(* ================================================================== *)
(** ** [dfdx] (lines 23-26) *)

Section Derivative.
Context {F : Type} `{FloatOps F}.

Local Open Scope res_scope.

(** [np.roll(x, 1)] of a one-dimensional array: every entry moves one
    place up and the last one comes first. *)
Definition np_roll1 (x : list F) : list F :=
  match x with
  | [] => []
  | _ :: _ => last x (lit 0%Q) :: removelast x
  end.

(** [np.gradient(f, dx)] of a one-dimensional array with the uniform
    spacing [dx], as numpy computes it since it accepts uneven
    spacings: one-sided differences at the two ends, central
    differences [(f[i+1] - f[i-1]) / (2. * dx)] in between; fewer than
    two points are an error. *)
Definition np_gradient1 (f : list F) (dx : F) : result (list F) :=
  if length f <? 2 then
    Raise (ValueError "Shape of array too small to calculate a numerical gradient, at least (edge_order + 1) elements are required.")
  else
    Ok ([fdiv (fsub (nth 1 f (lit 0%Q)) (nth 0 f (lit 0%Q))) dx]
        ++ zip_with (fun a b => fdiv (fsub a b) (fmul (lit 2%Q) dx))
             (skipn 2 f) (firstn (length f - 2) f)
        ++ [fdiv (fsub (nth (length f - 1) f (lit 0%Q)) (nth (length f - 2) f (lit 0%Q)))
                 dx]).

(** [dfdx(f, x)] for one-dimensional [f] and [x] and the default
    [axis] (or [axis = 0]):
    [dx = (x - np.roll(x,1))[1:].mean(); np.gradient(f, dx)]. *)
Definition dfdx (f x : list F) : result (list F) :=
  d <- np_sub1 x (np_roll1 x) ;;
  np_gradient1 f (np_mean (skipn 1 d)).

(** The steps [x[i+1] - x[i]] of an axis. *)
Definition steps (x : list F) : list F := zip_with fsub (tl x) x.

End Derivative.

(* ================================================================== *)
(** ** [dist_2_line] (lines 117-122) *)

(** The square root of a float. *)
Class FloatSqrt (F : Type) : Type := { fsqrt : F -> F }.

Section Lines.
Context {F : Type} `{FloatOps F} `{FloatSqrt F}.

Local Open Scope res_scope.

(** [np.stack((x, y))] of two one-dimensional arrays: they must have
    one shape. *)
Definition np_stack2 (x y : list F) : result (ndarray F) :=
  if length x =? length y then Ok (mk_nd [2; length x] (x ++ y))
  else Raise (ValueError "all input arrays must have the same shape").

(** [np.linalg.norm(a, axis=1)] of a two-dimensional array: for every
    row the square root of the sum of the squares, the sum taken from
    the left. *)
Definition norm_axis1 (a : ndarray F) : result (list F) :=
  match shape a with
  | [n; m] =>
      Ok (map (fun r => fsqrt (match map (fun v => fmul v v) r with
                               | [] => lit 0%Q
                               | v :: r' => fold_left fadd r' v
                               end))
              (chunks m n (buf a)))
  | _ => Raise (TypeError "array of unsupported dimension")
  end.

(** [dist_2_line(x, y, point, delta)]:
    [test_line = np.stack((x, y)).transpose();
     dist = np.linalg.norm(test_line-point, axis=1);
     np.any(dist<delta)]. *)
Definition dist_2_line (x y point : list F) (delta : F) : result bool :=
  st <- np_stack2 x y ;;
  test_line <- np_transpose st ;;
  d <- np_sub_bcast test_line point ;;
  dist <- norm_axis1 d ;;
  Ok (existsb (fun v => fltb v delta) dist).

(** The Euclidean distance of [(a, b)] to [(px, py)], as the code
    forms it. *)
Definition distance (px py a b : F) : F :=
  fsqrt (fadd (fmul (fsub a px) (fsub a px)) (fmul (fsub b py) (fsub b py))).

End Lines.

(* ================================================================== *)
(** ** Bounds and distances in the statements about [get_subset] *)

(** The law of distances that locating an extent relies on: no number
    is strictly nearer to a finite number than that number itself. *)
Class FloatDistance (F : Type) `{FloatOps F} : Prop := {
  dist_self_least : forall a b,
      fisnan (fabs (fsub a a)) = false ->
      fltb (fabs (fsub b a)) (fabs (fsub a a)) = false
}.

Section SubsetStatements.
Context {F : Type} `{FloatOps F}.

(** A bound as [b if b else extent[i]] reads it: [None] and zero both
    stand for the extent. *)
Definition effective_bound (b : option F) : option F :=
  match b with
  | Some v => if fnonzero v then Some v else None
  | None => None
  end.

(** [a] is a finite number: its distance to itself is a number below
    infinity. *)
Definition finite (a : F) : Prop :=
  fisnan (fabs (fsub a a)) = false /\ fltb (fabs (fsub a a)) finf = true.

(** The last value of [l] is not met before the last place: every
    earlier entry is strictly farther from it than it is from itself,
    or at no numeric distance. *)
Definition last_apart (l : list F) : Prop :=
  forall k, k + 1 < length l ->
    fisnan (fabs (fsub (nth k l (lit 0%Q)) (last l (lit 0%Q)))) = true \/
    fltb (fabs (fsub (last l (lit 0%Q)) (last l (lit 0%Q))))
         (fabs (fsub (nth k l (lit 0%Q)) (last l (lit 0%Q)))) = true.

End SubsetStatements.

(* ================================================================== *)
(** ** The independent fits in the statements *)

Section StatementsFallback.
Context {F : Type} `{FloatOps F}.
Variable curve_fit :
  (list F -> list F -> result (list F)) ->
  list F -> list F -> list F -> list F -> list F -> option (list F).

(** Initial guesses, bounds and model function of either family. *)
Definition p0_of (fam : family) (z : ndarray F) (centers widths : list F)
    (ilow ihigh : list Z) (i : nat) : result (list F) :=
  match fam with
  | Sensor => i_sense_p0 z centers widths ilow ihigh i
  | WeakLoc => di_p0 z centers widths ilow ihigh i
  end.

Definition bounds_of (fam : family) (x0bounds : list F) : result (list F * list F) :=
  match fam with
  | Sensor => i_sense_bounds x0bounds
  | WeakLoc => di_bounds x0bounds
  end.

Definition model_of (fam : family) : list F -> list F -> result (list F) :=
  match fam with
  | Sensor => i_sense_model
  | WeakLoc => di_model
  end.

(** One turn of the loop of independent fits (lines 222-228,
    319-325), for either family. *)
Definition fallback_step (fam : family) (x z : ndarray F)
    (centers widths x0bounds : list F) (ilow ihigh : list Z)
    (df : list (list F)) (i : nat) : M F (list (list F)) :=
  bind (lift (p0_of fam z centers widths ilow ihigh i)) (fun p0 =>
  bind (lift (bounds_of fam x0bounds)) (fun bounds =>
  bind (lift (window x ilow ihigh i)) (fun xs =>
  bind (lift (window z ilow ihigh i)) (fun zs =>
  bind (emit (EvCurveFit xs zs p0 (fst bounds) (snd bounds))) (fun _ =>
  match curve_fit (model_of fam) xs zs p0 (fst bounds) (snd bounds) with
  | Some popt => lift (df_set_row df popt)
  | None => raise OptimizerError
  end))))).

Definition is_curve_fit (e : event F) : bool :=
  match e with
  | EvCurveFit _ _ _ _ _ => true
  | _ => false
  end.

(** The parameter names of [n] groups, group by group, each in the
    order of the columns. *)
Definition group_names (fam : family) (n : nat) : list string :=
  flat_map (fun i => map (fun c => pname c i) (columns fam)) (range n).

(** The five [fit_params.add] of a group, for either family. *)
Definition add_group_of (fam : family) (z : ndarray F)
    (centers widths x0bounds : list F) (ilow ihigh : list Z)
    (ps : lm_params F) (i : nat) : result (lm_params F) :=
  match fam with
  | Sensor => i_sense_add_group z centers widths x0bounds ilow ihigh ps i
  | WeakLoc => di_add_group z centers widths x0bounds ilow ihigh ps i
  end.

(** The [min] and the [max] of the parameters of a group, for either
    family. *)
Definition add_bounds_of (fam : family) (x0bounds : list F) : result (list F * list F) :=
  match fam with
  | Sensor => i_sense_add_bounds x0bounds
  | WeakLoc => di_add_bounds x0bounds
  end.

(** The entry of role [c] in a list that follows the columns. *)
Definition role_entry (fam : family) (c : string) (l : list F) : result F :=
  match nth_error l (col_index (columns fam) c) with
  | Some v => Ok v
  | None => Raise (KeyError c)
  end.

(** The initial guess of role [c] for dataset [i], from [centers],
    [widths] or the window of row [i] of [z]. *)
Definition guess_of (fam : family) (z : ndarray F) (centers widths : list F)
    (ilow ihigh : list Z) (c : string) (i : nat) : result F :=
  rbind (p0_of fam z centers widths ilow ihigh i) (role_entry fam c).

(** The bounds role [c] is added with on the joint path. *)
Definition role_bounds (fam : family) (x0bounds : list F) (c : string) : result (F * F) :=
  rbind (add_bounds_of fam x0bounds) (fun b =>
  rbind (role_entry fam c (fst b)) (fun lo =>
  rbind (role_entry fam c (snd b)) (fun hi => Ok (lo, hi)))).

(** What the build phase leaves of group [i]: for every role a
    parameter with the bounds of the role, whose value is the initial
    guess of the role for dataset [i] clipped into these bounds. *)
Definition built_as (fam : family) (z : ndarray F) (centers widths x0bounds : list F)
    (ilow ihigh : list Z) (ps : lm_params F) (i : nat) : Prop :=
  forall c, In c (columns fam) ->
    exists q g lo hi,
      params_lookup ps (pname c i) = Some q /\
      guess_of fam z centers widths ilow ihigh c i = Ok g /\
      role_bounds fam x0bounds c = Ok (lo, hi) /\
      p_min q = lo /\ p_max q = hi /\ p_value q = clip g lo hi.

(** The error of an extremum over an empty window: the sensor-current
    guess takes the maximum first, the weak-localisation guess the
    minimum. *)
Definition empty_window_error (fam : family) : exn :=
  match fam with
  | Sensor =>
      ValueError "zero-size array to reduction operation maximum which has no identity"
  | WeakLoc =>
      ValueError "zero-size array to reduction operation minimum which has no identity"
  end.

End StatementsFallback.

(** A string without the separator of parameter names. *)
Fixpoint underscore_free (s : string) : bool :=
  match s with
  | EmptyString => true
  | String c s' => negb (Ascii.eqb c "_"%char) && underscore_free s'
  end.

Set Implicit Arguments.

(* ================================================================== *)
(** * Properties *)

(* ------------------------------------------------------------------ *)
(** ** Lists, slices and loops *)

Section ListFacts.
Context {F : Type} `{FloatOps F}.

Lemma zip_with_map (f : F -> F -> F) (g h : F -> F) (l : list F) :
  zip_with f (map g l) (map h l) = map (fun v => f (g v) (h v)) l.
Proof.
  induction l as [|a l IH]; simpl; [reflexivity|].
  now rewrite IH.
Qed.

Lemma zip_with_length (f : F -> F -> F) (l1 l2 : list F) :
  length (zip_with f l1 l2) = Nat.min (length l1) (length l2).
Proof.
  revert l2; induction l1 as [|a l1 IH]; intros [|b l2]; simpl; auto.
Qed.

Lemma row_length (m n i : nat) (b : list F) :
  length b = n * m -> i < n -> length (row m b i) = m.
Proof.
  intros Hb Hi. unfold row.
  rewrite length_firstn, length_skipn.
  assert (i * m + m <= n * m) by nia. lia.
Qed.

Lemma py_slice_length {A} (l : list A) (a b : Z) :
  length (py_slice l a b) = slice_bound (length l) b - slice_bound (length l) a.
Proof.
  unfold py_slice. rewrite length_firstn, length_skipn.
  assert (slice_bound (length l) b <= length l).
  { unfold slice_bound. cbv zeta.
    destruct (b <? 0)%Z eqn:E; [apply Z.ltb_lt in E|]; lia. }
  lia.
Qed.

Lemma py_index_nth {A} (l : list A) (i : nat) (d : A) :
  i < length l -> py_index l (Z.of_nat i) = Ok (nth i l d).
Proof.
  intros Hi. unfold py_index.
  destruct (Z.of_nat i <? 0)%Z eqn:E; [apply Z.ltb_lt in E; lia|].
  replace ((Z.of_nat i <? 0)%Z || (Z.of_nat (length l) <=? Z.of_nat i)%Z) with false.
  2:{ symmetry. apply orb_false_iff. split; [exact E|]. apply Z.leb_gt. lia. }
  rewrite Nat2Z.id.
  destruct (nth_error l i) eqn:En.
  - f_equal. symmetry. now apply nth_error_nth.
  - apply nth_error_None in En. lia.
Qed.

(** A loop that appends one piece per iteration builds the pieces in
    iteration order. *)
Lemma rfold_append {A B} (body : list B -> A -> result (list B)) (g : A -> B)
    (l : list A) :
  (forall a acc, In a l -> body acc a = Ok (acc ++ [g a])) ->
  forall acc, rfold body l acc = Ok (acc ++ map g l).
Proof.
  induction l as [|a l IH]; intros Hs acc; simpl.
  - now rewrite app_nil_r.
  - rewrite (Hs a acc (or_introl eq_refl)). simpl.
    rewrite IH by (intros; apply Hs; now right).
    now rewrite <- app_assoc.
Qed.

End ListFacts.

(* ------------------------------------------------------------------ *)
(** ** The line shapes *)

Section LineShapes.
Context {F : Type} `{FloatOps F}.

Lemma i_sense_buf (x : ndarray F) (x0 beta i0 i1 i2 : F) :
  buf (i_sense x x0 beta i0 i1 i2) = map (i_sense_point x0 beta i0 i1 i2) (buf x).
Proof.
  unfold i_sense, nd_map, nd_map2; simpl.
  rewrite !map_map, zip_with_map, map_map. reflexivity.
Qed.

(** C8.  For every array [x] and scalars [x0], [beta], [i0], [i1],
    [i2], [i_sense] returns, element by element,
    [-i0 * tanh((x - x0)/beta) + i1*(x - x0) + i2], in an array of the
    shape of [x] (hence with as many elements). *)
Theorem i_sense_elementwise (x : ndarray F) (x0 beta i0 i1 i2 : F) :
  shape (i_sense x x0 beta i0 i1 i2) = shape x /\
  buf (i_sense x x0 beta i0 i1 i2) = map (i_sense_point x0 beta i0 i1 i2) (buf x) /\
  length (buf (i_sense x x0 beta i0 i1 i2)) = length (buf x).
Proof.
  split; [reflexivity|]. split; [apply i_sense_buf|].
  now rewrite i_sense_buf, length_map.
Qed.

Lemma di_sense_simple_elementwise (x : ndarray F) (x0 beta di0 di2 delta : F) :
  shape (di_sense_simple x x0 beta di0 di2 delta) = shape x /\
  buf (di_sense_simple x x0 beta di0 di2 delta)
  = map (di_point x0 beta di0 di2 delta) (buf x).
Proof.
  split; [reflexivity|].
  unfold di_sense_simple, nd_map, nd_map2; simpl.
  rewrite !map_map, zip_with_map, map_map. reflexivity.
Qed.

End LineShapes.

(* ------------------------------------------------------------------ *)
(** ** The joint residual *)

Section Objective.
Context {F : Type} `{FloatOps F}.

Lemma row_slice_ok (a : ndarray F) (n m i : nat) (lo hi : Z) :
  shape a = [n; m] -> i < n ->
  row_slice a i lo hi = Ok (py_slice (row m (buf a) i) lo hi).
Proof.
  intros Hs Hi. unfold row_slice, row2. rewrite Hs.
  apply Nat.ltb_lt in Hi. now rewrite Hi.
Qed.

Lemma np_sub1_same_length (a b : list F) :
  length a = length b -> np_sub1 a b = Ok (zip_with fsub a b).
Proof.
  intros E. unfold np_sub1. now rewrite E, Nat.eqb_refl.
Qed.

Lemma dataset_ok (fam : family) (params : lm_params F) (val : string -> nat -> F)
    (i : nat) (xs : list F) :
  (forall c, In c (columns fam) -> param_value params (pname c i) = Ok (val c i)) ->
  match fam with
  | Sensor => i_sense_dataset params i xs
  | WeakLoc => di_dataset params i xs
  end = Ok (map (point fam val i) xs).
Proof.
  intros Hv. destruct fam; simpl in Hv.
  - unfold i_sense_dataset.
    rewrite !Hv by tauto. cbn [rbind].
    now rewrite i_sense_buf.
  - unfold di_dataset.
    rewrite !Hv by tauto. cbn [rbind].
    now destruct (di_sense_simple_elementwise (arr1 xs) (val "x0" i) (val "beta" i)
                    (val "di0" i) (val "di2" i) (val "delta" i)) as (_ & ->).
Qed.

(** C4.  The objective of a joint fit over [n] datasets takes, for
    each dataset [i] in the order [0..n-1], the measured values
    [z[i]] over the window [[ilow[i]:ihigh[i]]] minus the model at
    [x[i]] over the same window, and returns these residual vectors
    concatenated in dataset order.  Both objectives do. *)
Theorem objective_concatenates (fam : family) (params : lm_params F)
    (x z : ndarray F) (ilow ihigh : list Z) (n m : nat)
    (val : string -> nat -> F) :
  0 < n ->
  shape z = [n; m] -> shape x = [n; m] ->
  length (buf z) = n * m -> length (buf x) = n * m ->
  length ilow = n -> length ihigh = n ->
  (forall c i, In c (columns fam) -> i < n ->
               param_value params (pname c i) = Ok (val c i)) ->
  objective fam x params x z ilow ihigh
  = Ok (concat (map (window_residual fam val m x z ilow ihigh) (range n))).
Proof.
  intros Hn Hz Hx Hbz Hbx Hlo Hhi Hv.
  assert (Hstep : forall i, i < n ->
      rbind (py_index ilow (Z.of_nat i)) (fun lo =>
      rbind (py_index ihigh (Z.of_nat i)) (fun hi =>
      rbind (row_slice z i lo hi) (fun zs =>
      rbind (row_slice x i lo hi) (fun xs =>
      rbind (match fam with
             | Sensor => i_sense_dataset params i xs
             | WeakLoc => di_dataset params i xs
             end) (fun f => np_sub1 zs f)))))
      = Ok (window_residual fam val m x z ilow ihigh i)).
  { intros i Hi.
    rewrite (py_index_nth ilow 0%Z) by lia.
    rewrite (py_index_nth ihigh 0%Z) by lia. simpl.
    rewrite (@row_slice_ok z n m i _ _ Hz Hi).
    rewrite (@row_slice_ok x n m i _ _ Hx Hi). simpl.
    rewrite (dataset_ok fam params val) by (intros; now apply Hv). simpl.
    apply np_sub1_same_length.
    rewrite length_map, !py_slice_length.
    now rewrite (@row_length _ m n i (buf z)), (@row_length _ m n i (buf x)). }
  assert (Hcat : forall l : list (list F), l <> [] -> np_concatenate l = Ok (concat l)).
  { now intros [|? ?] ?. }
  assert (Hne : map (window_residual fam val m x z ilow ihigh) (range n) <> []).
  { unfold range. destruct n; [lia|]. discriminate. }
  assert (Hbody : forall i acc, In i (range n) ->
      rbind (py_index ilow (Z.of_nat i)) (fun lo =>
      rbind (py_index ihigh (Z.of_nat i)) (fun hi =>
      rbind (row_slice z i lo hi) (fun zs =>
      rbind (row_slice x i lo hi) (fun xs =>
      rbind (match fam with
             | Sensor => i_sense_dataset params i xs
             | WeakLoc => di_dataset params i xs
             end) (fun f =>
      rbind (np_sub1 zs f) (fun r => Ok (acc ++ [r])))))))
      = Ok (acc ++ [window_residual fam val m x z ilow ihigh i])).
  { intros i acc Hin. apply in_seq in Hin.
    specialize (Hstep i ltac:(lia)).
    destruct (py_index ilow (Z.of_nat i)) as [lo|]; [|discriminate].
    cbn [rbind] in *.
    destruct (py_index ihigh (Z.of_nat i)) as [hi|]; [|discriminate].
    cbn [rbind] in *.
    destruct (row_slice z i lo hi) as [zs|]; [|discriminate]. cbn [rbind] in *.
    destruct (row_slice x i lo hi) as [xs|]; [|discriminate]. cbn [rbind] in *.
    destruct (match fam with
              | Sensor => i_sense_dataset params i xs
              | WeakLoc => di_dataset params i xs
              end) as [f|]; [|discriminate]. cbn [rbind] in *.
    now rewrite Hstep. }
  destruct fam; unfold objective, i_sense_objective, di_objective, shape2;
    rewrite Hz; cbn [fst rbind];
    rewrite (@rfold_append _ _ _ _ (range n) Hbody); cbn [app rbind]; now apply Hcat.
Qed.

End Objective.

(* ------------------------------------------------------------------ *)
(** ** Which errors a computation can raise *)



Lemma passes_ok {A} (a : A) : passes (Ok a).
Proof. intros [E|E]; discriminate E. Qed.

Lemma passes_rbind {A B} (r : result A) (k : A -> result B) :
  passes r -> (forall a, passes (k a)) -> passes (rbind r k).
Proof.
  intros Hr Hk. destruct r as [a|e]; simpl; [apply Hk|].
  intros [E|E]; apply Hr; [left|right]; congruence.
Qed.

Lemma passes_rfold {A B} (f : B -> A -> result B) (l : list A) :
  (forall acc a, passes (f acc a)) -> forall acc, passes (rfold f l acc).
Proof.
  intros Hf. induction l as [|a l IH]; intros acc; simpl.
  - apply passes_ok.
  - apply passes_rbind; auto.
Qed.

Lemma passes_rmap {A B} (f : A -> result B) (l : list A) :
  (forall a, passes (f a)) -> passes (rmap f l).
Proof.
  intros Hf. induction l as [|a l IH]; simpl.
  - apply passes_ok.
  - apply passes_rbind; [apply Hf|]. intros b.
    apply passes_rbind; [exact IH|]. intros; apply passes_ok.
Qed.

Create HintDb fit_defs.

#[export] Hint Unfold
  py_index row2 np_sub1 np_concatenate np_transpose np_sub_bcast nanargmin
  nanargmin_axis0 np_max np_min params_get set_expr set_fixed
  valuesdict dict_get minimize row_slice item2 i_sense_dataset shape2
  i_sense_objective di_dataset di_objective nearest_index fit_window window
  i0_guess i2_guess i_sense_add_group i_sense_p0 i_sense_bounds i_sense_model
  di0_guess di2_guess di_add_group di_p0 di_bounds di_model apply_constrain
  apply_fix tabulate df_set_row : fit_defs.

(** Breaks a pure computation into its steps; what remains are the
    places where it raises. *)
Create HintDb passes_db.

Ltac passes_step :=
  first
    [ apply passes_ok
    | solve [auto with passes_db]
    | apply passes_rbind; [|intros ?]
    | apply passes_rfold; intros ? ?
    | apply passes_rmap; intros ?
    | match goal with
      | |- passes (Raise _) => intros [E|E]; discriminate E
      | |- passes (match ?x with _ => _ end) => destruct x
      | |- passes (if ?b then _ else _) => destruct b
      end ].

Ltac passes_tac :=
  repeat first [ progress autounfold with fit_defs | progress cbv beta zeta | passes_step ].

Section Passes.
Context {F : Type} `{FloatOps F}.

Lemma eval_expr_passes (fuel : nat) (ps : lm_params F) (e : string) :
  passes (eval_expr fuel ps e).
Proof.
  revert e. induction fuel as [|fuel IH]; intros e; simpl.
  - intros [E|E]; discriminate E.
  - destruct (params_lookup ps e) as [p|]; [|intros [E|E]; discriminate E].
    destruct (p_expr p); [apply IH|apply passes_ok].
Qed.

Lemma param_value_passes (ps : lm_params F) (name : string) :
  passes (param_value ps name).
Proof.
  unfold param_value, params_get.
  destruct (params_lookup ps name) as [p|]; simpl.
  - destruct (p_expr p); [apply eval_expr_passes|apply passes_ok].
  - intros [E|E]; discriminate E.
Qed.

Lemma fit_window_passes (x : ndarray F) (centers : list F) (span : option F) (n : nat) :
  passes (fit_window x centers span n).
Proof. passes_tac. Qed.

Lemma window_passes (a : ndarray F) (ilow ihigh : list Z) (i : nat) :
  passes (window a ilow ihigh i).
Proof. passes_tac. Qed.

End Passes.

#[export] Hint Resolve eval_expr_passes param_value_passes
  fit_window_passes window_passes : passes_db.

Section Benign.
Context {F : Type} `{FloatOps F}.

Local Abbreviation benign := (@benign F).



Lemma benign_ret {A} (a : A) : benign (ret a).
Proof. intros s; simpl. split; [apply passes_ok|]. now split. Qed.

Lemma benign_lift {A} (r : result A) : passes r -> benign (lift r).
Proof. intros Hr s; simpl. now repeat split. Qed.

Lemma benign_raise {A} (e : exn) : passes (@Raise A e) -> benign (@raise F A e).
Proof. intros Hr s; simpl. now repeat split. Qed.

Lemma benign_emit (e : event F) : benign (emit e).
Proof. intros s; simpl. split; [apply passes_ok|]. now split. Qed.

Lemma benign_bind {A B} (c : M F A) (k : A -> M F B) :
  benign c -> (forall a, benign (k a)) -> benign (bind c k).
Proof.
  intros Hc Hk s. unfold bind.
  destruct (Hc s) as (Hp & Hh & Hn).
  destruct (c s) as [[a|e] s1]; simpl in *.
  - destruct (Hk a s1) as (Hp' & Hh' & Hn').
    split; [exact Hp'|]. split; congruence.
  - split; [|now split].
    intros [E|E]; apply Hp; [left|right]; congruence.
Qed.

Lemma benign_mfold {A B} (f : B -> A -> M F B) (l : list A) :
  (forall acc a, benign (f acc a)) -> forall acc, benign (mfold f l acc).
Proof.
  intros Hf. induction l as [|a l IH]; intros acc; simpl.
  - apply benign_ret.
  - apply benign_bind; auto.
Qed.

End Benign.

Ltac benign_step :=
  first
    [ apply benign_ret
    | apply benign_emit
    | apply benign_bind; [|intros ?]
    | apply benign_mfold; intros ? ?
    | apply benign_lift; passes_tac
    | apply benign_raise; passes_tac
    | match goal with
      | |- benign (match ?x with _ => _ end) => destruct x
      | |- benign (if ?b then _ else _) => destruct b
      end ].

Ltac benign_tac := repeat first [ progress cbv beta zeta | benign_step ].

Section Bodies.
Context {F : Type} `{FloatOps F}.

Local Abbreviation benign := (@benign F).
Variable lm_engine :
  (list F -> result (list F)) -> list (F * F * F) -> option (list F).
Variable curve_fit :
  (list F -> list F -> result (list F)) ->
  list F -> list F -> list F -> list F -> list F -> option (list F).

Lemma i_sense_fit_body_benign (x z : ndarray F) (n : nat)
    (centers widths x0bounds : list F) (constrain : option (list string))
    (span : option F) :
  benign (i_sense_fit_body lm_engine curve_fit x z n centers widths x0bounds
            constrain span).
Proof. unfold i_sense_fit_body. benign_tac. Qed.

Lemma di_fit_body_benign (x z : ndarray F) (n : nat)
    (centers widths x0bounds : list F) (constrain fix_ : option (list string))
    (span : option F) :
  benign (di_fit_body lm_engine curve_fit x z n centers widths x0bounds
            constrain fix_ span).
Proof. unfold di_fit_body. benign_tac. Qed.

End Bodies.

(* ------------------------------------------------------------------ *)
(** ** Shape validation and the caller's arrays *)

Section Shapes.
Context {F : Type} `{FloatOps F}.

Local Abbreviation benign := (@benign F).
Local Abbreviation z_after := (@z_after F).
Local Abbreviation checked := (@checked F).






Lemma checked_validation (xr zr : nat) k (s : state F) :
  (forall x z n, benign (k x z n)) ->
  if shape_mismatch (shape (heap s zr)) (shape (heap s xr))
  then validation_failure (fst (checked xr zr k s)) /\
       trace (snd (checked xr zr k s)) = trace s
  else passes (fst (checked xr zr k s)).
Proof.
  intros Hk. unfold checked, z_dimensions, x_rows, bind, get_obj, shape_mismatch.
  destruct (shape (heap s zr)) as [|d0 [|d1 [|d2 zsh]]] eqn:Ez; simpl.
  - split; [now left|reflexivity].
  - (* one-dimensional z: reshaped in place, one dataset *)
    destruct (Nat.eqb_spec xr zr) as [->|Hne]; simpl.
    + rewrite Ez. simpl. apply Hk.
    + destruct (shape (heap s xr)) as [|e0 [|e1 xsh]] eqn:Ex; simpl.
      * intros [E|E]; discriminate E.
      * apply Hk.
      * destruct (Nat.eqb_spec e0 1); simpl; [apply Hk|].
        split; [now right|reflexivity].
  - (* two-dimensional z *)
    destruct (shape (heap s xr)) as [|e0 [|e1 xsh]] eqn:Ex; simpl.
    + intros [E|E]; discriminate E.
    + apply Hk.
    + destruct (Nat.eqb_spec e0 1); simpl; [apply Hk|].
      destruct (Nat.eqb_spec e0 d0); simpl; [apply Hk|].
      split; [now right|reflexivity].
  - split; [now left|reflexivity].
Qed.

Lemma checked_store (xr zr : nat) k (s : state F) :
  (forall x z n, benign (k x z n)) ->
  zr < next s ->
  heap (snd (checked xr zr k s)) zr = z_after (heap s zr) /\
  forall r, r < next s -> r <> zr ->
            heap (snd (checked xr zr k s)) r = heap s r.
Proof.
  intros Hk Hz.
  assert (Hfresh : forall r, r < next s -> (r =? next s) = false).
  { intros r Hr. apply Nat.eqb_neq. lia. }
  unfold checked, z_dimensions, x_rows, bind, get_obj, z_after.
  destruct (shape (heap s zr)) as [|d0 [|d1 [|d2 zsh]]] eqn:Ez; simpl.
  - split; [reflexivity|auto].
  - (* one-dimensional z *)
    match goal with
    | |- context [shape (if xr =? zr then ?a else ?b)] =>
        destruct (shape (if xr =? zr then a else b)) as [|e0 [|e1 xsh]] eqn:Ex
    end; simpl.
    + rewrite Nat.eqb_refl. split; [reflexivity|].
      intros r _ Hr. apply Nat.eqb_neq in Hr. now rewrite Hr.
    + match goal with |- context [k ?x ?z ?n ?s1] =>
        destruct (Hk x z n s1) as (_ & -> & _) end; simpl.
      rewrite (Hfresh zr Hz), Nat.eqb_refl. split; [reflexivity|].
      intros r Hr Hne. rewrite (Hfresh r Hr).
      apply Nat.eqb_neq in Hne. now rewrite Hne.
    + destruct (e0 =? 1); simpl.
      * match goal with |- context [k ?x ?z ?n ?s1] =>
          destruct (Hk x z n s1) as (_ & -> & _) end; simpl.
        rewrite (Hfresh zr Hz), Nat.eqb_refl. split; [reflexivity|].
        intros r Hr Hne. rewrite (Hfresh r Hr).
        apply Nat.eqb_neq in Hne. now rewrite Hne.
      * rewrite Nat.eqb_refl. split; [reflexivity|].
        intros r _ Hr. apply Nat.eqb_neq in Hr. now rewrite Hr.
  - (* two-dimensional z *)
    destruct (shape (heap s xr)) as [|e0 [|e1 xsh]] eqn:Ex; simpl.
    + split; [reflexivity|auto].
    + match goal with |- context [k ?x ?z ?n ?s1] =>
        destruct (Hk x z n s1) as (_ & -> & _) end; simpl.
      rewrite (Hfresh zr Hz). split; [reflexivity|].
      intros r Hr _. now rewrite (Hfresh r Hr).
    + destruct (e0 =? 1); simpl.
      * match goal with |- context [k ?x ?z ?n ?s1] =>
          destruct (Hk x z n s1) as (_ & -> & _) end; simpl.
        rewrite (Hfresh zr Hz). split; [reflexivity|].
        intros r Hr _. now rewrite (Hfresh r Hr).
      * destruct (e0 =? d0); simpl.
        -- match goal with |- context [k ?x ?z ?n ?s1] =>
             destruct (Hk x z n s1) as (_ & -> & _) end; simpl.
           split; [reflexivity|auto].
        -- split; [reflexivity|auto].
  - split; [reflexivity|auto].
Qed.

End Shapes.

(* ------------------------------------------------------------------ *)
(** ** The two routines *)

Section Routines.
Context {F : Type} `{FloatOps F}.

Local Abbreviation benign := (@benign F).
Local Abbreviation z_after := (@z_after F).
Local Abbreviation checked := (@checked F).
Variable lm_engine :
  (list F -> result (list F)) -> list (F * F * F) -> option (list F).
Variable curve_fit :
  (list F -> list F -> result (list F)) ->
  list F -> list F -> list F -> list F -> list F -> option (list F).


Lemma fit_simultaneous_checked (fam : family) (xr zr : nat)
    (centers widths x0bounds : list F) (constrain fix_ : option (list string))
    (span : option F) :
  fit_simultaneous fam lm_engine curve_fit xr zr centers widths x0bounds
    constrain fix_ span
  = checked xr zr (fit_body lm_engine curve_fit fam centers widths x0bounds constrain fix_ span).
Proof. destruct fam; reflexivity. Qed.

Lemma fit_body_benign (fam : family) (centers widths x0bounds : list F)
    (constrain fix_ : option (list string)) (span : option F) x z n :
  benign (fit_body lm_engine curve_fit fam centers widths x0bounds constrain fix_ span x z n).
Proof.
  destruct fam; [apply i_sense_fit_body_benign|apply di_fit_body_benign].
Qed.

(** C6.  In both routines: if [z] has a number of dimensions other
    than 1 or 2, or the row count of [x] is neither 1 nor the row count
    of [z], the call fails with one of the two validation errors, and
    it does so before any parameter set is constructed and before any
    optimiser is called (the trace of library calls is as it was); for
    every other pair of shapes neither validation error is raised. *)
Theorem shape_errors_fail_fast (fam : family) (xr zr : nat)
    (centers widths x0bounds : list F) (constrain fix_ : option (list string))
    (span : option F) (s : state F) :
  let out := fit_simultaneous fam lm_engine curve_fit xr zr centers widths
               x0bounds constrain fix_ span s in
  if shape_mismatch (shape (heap s zr)) (shape (heap s xr))
  then validation_failure (fst out) /\ trace (snd out) = trace s
  else passes (fst out).
Proof.
  cbv zeta. rewrite fit_simultaneous_checked.
  apply checked_validation. intros; apply fit_body_benign.
Qed.

(** C10.  In both routines, with [x] and [z] two distinct array
    objects of the caller: a one-dimensional [z] of [m] elements has
    its shape reassigned to [(1, m)] in place, on the same elements,
    and stays so after the call, however the call ends; a
    two-dimensional [z] is left as it was; [x] is left as it was, as
    is every other array the caller holds (the tiled array is a new
    object). *)
Theorem caller_arrays_after_call (fam : family) (xr zr : nat)
    (centers widths x0bounds : list F) (constrain fix_ : option (list string))
    (span : option F) (s : state F) :
  xr <> zr -> xr < next s -> zr < next s ->
  let out := fit_simultaneous fam lm_engine curve_fit xr zr centers widths
               x0bounds constrain fix_ span s in
  (forall m, shape (heap s zr) = [m] ->
             heap (snd out) zr = mk_nd [1; m] (buf (heap s zr))) /\
  (forall n m, shape (heap s zr) = [n; m] -> heap (snd out) zr = heap s zr) /\
  heap (snd out) xr = heap s xr /\
  (forall r, r < next s -> r <> zr -> heap (snd out) r = heap s r).
Proof.
  intros Hne Hx Hz. cbv zeta. rewrite fit_simultaneous_checked.
  destruct (@checked_store _ xr zr
              (fit_body lm_engine curve_fit fam centers widths x0bounds constrain fix_ span) s
              (fit_body_benign fam centers widths x0bounds constrain fix_ span) Hz)
    as [Ez Eo].
  split; [|split; [|split]].
  - intros m Em. rewrite Ez. unfold z_after. now rewrite Em.
  - intros n m Em. rewrite Ez. unfold z_after. now rewrite Em.
  - now apply Eo.
  - exact Eo.
Qed.

(** When one array is passed as both [x] and [z], the reshaping of [z]
    is a reshaping of [x]. *)
Lemma aliased_x_is_reshaped (fam : family) (r : nat)
    (centers widths x0bounds : list F) (constrain fix_ : option (list string))
    (span : option F) (s : state F) (m : nat) :
  r < next s -> shape (heap s r) = [m] ->
  heap (snd (fit_simultaneous fam lm_engine curve_fit r r centers widths
               x0bounds constrain fix_ span s)) r
  = mk_nd [1; m] (buf (heap s r)).
Proof.
  intros Hr Em. rewrite fit_simultaneous_checked.
  destruct (@checked_store _ r r
              (fit_body lm_engine curve_fit fam centers widths x0bounds constrain fix_ span) s
              (fit_body_benign fam centers widths x0bounds constrain fix_ span) Hr)
    as [Ez _].
  rewrite Ez. unfold z_after. now rewrite Em.
Qed.

End Routines.

Unset Implicit Arguments.

(* ------------------------------------------------------------------ *)
(** ** Parameter names *)

Lemma format_d_inj (i j : nat) : format_d i = format_d j -> i = j.
Proof.
  unfold format_d. intros E.
  apply (f_equal NilEmpty.uint_of_string) in E.
  rewrite !NilEmpty.usu in E. injection E as E.
  apply (f_equal Nat.of_uint) in E.
  now rewrite !Unsigned.of_to in E.
Qed.

(** Within a family, a name determines its role and its group. *)
Lemma pname_inj (fam : family) (c c' : string) (i j : nat) :
  In c (columns fam) -> In c' (columns fam) ->
  pname c i = pname c' j -> c = c' /\ i = j.
Proof.
  unfold pname.
  destruct fam; simpl; intros Hc Hc' E;
    repeat (destruct Hc as [<-|Hc]; [|]); try contradiction;
    repeat (destruct Hc' as [<-|Hc']; [|]); try contradiction;
    simpl in E; try discriminate E;
    (split; [reflexivity|]); apply format_d_inj; congruence.
Qed.

(* ------------------------------------------------------------------ *)
(** ** Parameter sets *)

Section ParamFacts.
Context {F : Type} `{FloatOps F}.

Local Abbreviation keys := (@keys F).
Local Abbreviation same_but_value := (@same_but_value F).


Lemma lookup_set (ps : lm_params F) (k : string) (p : lm_param F) (k' : string) :
  params_lookup (params_set ps k p) k'
  = if String.eqb k k' then Some p else params_lookup ps k'.
Proof.
  induction ps as [|[k0 q] ps IH]; simpl.
  - reflexivity.
  - destruct (String.eqb k0 k) eqn:E0; simpl.
    + apply String.eqb_eq in E0. subst k0.
      now destruct (String.eqb k k').
    + rewrite IH. destruct (String.eqb k0 k') eqn:E1; [|reflexivity].
      apply String.eqb_eq in E1. subst k'. now rewrite String.eqb_sym, E0.
Qed.

Lemma keys_set (ps : lm_params F) (k : string) (p : lm_param F) :
  keys (params_set ps k p) = keys ps \/
  (~ In k (keys ps) /\ keys (params_set ps k p) = keys ps ++ [k]).
Proof.
  induction ps as [|[k0 q] ps IH]; simpl.
  - right. split; [tauto|reflexivity].
  - destruct (String.eqb k0 k) eqn:E0; simpl.
    + now left.
    + apply String.eqb_neq in E0.
      destruct IH as [->|[Hn ->]]; [now left|].
      right. split; [|reflexivity]. intros [E|E]; auto.
Qed.

Lemma NoDup_set (ps : lm_params F) (k : string) (p : lm_param F) :
  NoDup (keys ps) -> NoDup (keys (params_set ps k p)).
Proof.
  intros Hn. destruct (keys_set ps k p) as [->|[Hk ->]]; [exact Hn|].
  apply NoDup_app; [exact Hn|repeat constructor; simpl; tauto|].
  intros a Ha [<-|[]]. contradiction.
Qed.

Lemma length_set (ps : lm_params F) (k : string) (p : lm_param F) :
  length ps <= length (params_set ps k p).
Proof.
  induction ps as [|[k0 q] ps IH]; simpl; [lia|].
  destruct (String.eqb k0 k); simpl; lia.
Qed.

Lemma lookup_In (ps : lm_params F) (k : string) (q : lm_param F) :
  NoDup (keys ps) -> In (k, q) ps -> params_lookup ps k = Some q.
Proof.
  induction ps as [|[k0 q0] ps IH]; simpl; intros Hn Hin; [contradiction|].
  inversion Hn as [|? ? Hk0 Hn']; subst.
  destruct Hin as [E|Hin].
  - injection E as -> ->. now rewrite String.eqb_refl.
  - destruct (String.eqb k0 k) eqn:E0.
    + apply String.eqb_eq in E0. subst k0.
      exfalso. apply Hk0. unfold keys. change k with (fst (k, q)). now apply in_map.
    + now apply IH.
Qed.

Lemma lookup_Some_length (ps : lm_params F) (k : string) (q : lm_param F) :
  params_lookup ps k = Some q -> 0 < length ps.
Proof. destruct ps; simpl; [discriminate|lia]. Qed.

(** A name that is tied or fixed is not among the free variables. *)
Lemma not_free_not_var (ps : lm_params F) (k : string) (q : lm_param F) :
  NoDup (keys ps) -> params_lookup ps k = Some q -> is_free q = false ->
  ~ In k (var_names ps).
Proof.
  intros Hn Hl Hf Hin. unfold var_names in Hin.
  apply in_map_iff in Hin. destruct Hin as ([k' q'] & Ek & Hin). simpl in Ek. subst k'.
  apply filter_In in Hin. destruct Hin as [Hin Hfree]. simpl in Hfree.
  rewrite (lookup_In ps k q' Hn Hin) in Hl. congruence.
Qed.


Lemma assign_lookup (names : list string) (vals : list F) (ps : lm_params F)
    (k : string) :
  match params_lookup ps k with
  | None => params_lookup (assign names vals ps) k = None
  | Some q => exists q', params_lookup (assign names vals ps) k = Some q' /\
                         same_but_value q q' /\
                         (~ In k names -> p_value q' = p_value q)
  end.
Proof.
  revert vals ps. induction names as [|a names IH]; intros vals ps; simpl.
  - destruct (params_lookup ps k) as [q|]; [|reflexivity].
    exists q. unfold same_but_value. tauto.
  - destruct vals as [|v vals].
    + destruct (params_lookup ps k) as [q|]; [|reflexivity].
      exists q. unfold same_but_value. tauto.
    + specialize (IH vals (set_value ps a v)).
      unfold set_value in *.
      destruct (params_lookup ps a) as [qa|] eqn:Ea.
      * rewrite lookup_set in IH.
        destruct (String.eqb a k) eqn:Eak.
        -- apply String.eqb_eq in Eak. subst a. rewrite Ea.
           destruct IH as (q' & Hl & (Hmin & Hmax & Hv & He) & Hval).
           exists q'. split; [exact Hl|]. split; [now repeat split|].
           intros Hn. exfalso. apply Hn. now left.
        -- destruct (params_lookup ps k) as [q|]; [|exact IH].
           destruct IH as (q' & Hl & Hs & Hval).
           exists q'. split; [exact Hl|]. split; [exact Hs|].
           intros Hn. apply Hval. tauto.
      * destruct (params_lookup ps k) as [q|]; [|exact IH].
        destruct IH as (q' & Hl & Hs & Hval).
        exists q'. split; [exact Hl|]. split; [exact Hs|].
        intros Hn. apply Hval. tauto.
Qed.

Lemma assign_length (names : list string) (vals : list F) (ps : lm_params F) :
  length ps <= length (assign names vals ps).
Proof.
  revert vals ps. induction names as [|a names IH]; intros vals ps; simpl; [lia|].
  destruct vals as [|v vals]; [lia|].
  etransitivity; [|apply IH]. unfold set_value.
  destruct (params_lookup ps a); [apply length_set|lia].
Qed.

(** The value of a parameter without an expression is its own; the
    value of one tied to such a parameter is that parameter's. *)
Lemma param_value_own (ps : lm_params F) (k : string) (q : lm_param F) :
  params_lookup ps k = Some q -> p_expr q = None ->
  param_value ps k = Ok (p_value q).
Proof.
  intros Hl He. unfold param_value, params_get. rewrite Hl. simpl. now rewrite He.
Qed.

Lemma param_value_tied (ps : lm_params F) (k k0 : string) (q q0 : lm_param F) :
  params_lookup ps k = Some q -> p_expr q = Some k0 ->
  params_lookup ps k0 = Some q0 -> p_expr q0 = None ->
  param_value ps k = Ok (p_value q0).
Proof.
  intros Hl He Hl0 He0. unfold param_value, params_get. rewrite Hl. simpl.
  rewrite He. pose proof (lookup_Some_length ps k q Hl) as Hlen.
  destruct (length ps) as [|fuel]; [lia|]. simpl. now rewrite Hl0, He0.
Qed.

End ParamFacts.

(* ------------------------------------------------------------------ *)
(** ** Loop invariants *)

Lemma rfold_inv {A B} (I : B -> Prop) (f : B -> A -> result B) (l : list A) :
  (forall acc a acc', In a l -> f acc a = Ok acc' -> I acc -> I acc') ->
  forall acc r, rfold f l acc = Ok r -> I acc -> I r.
Proof.
  induction l as [|a l IH]; intros Hf acc r; simpl.
  - intros E; injection E as <-. auto.
  - destruct (f acc a) as [acc'|e] eqn:Ef; simpl; [|discriminate].
    intros Hr Hi. apply (IH (fun acc0 a0 acc1 Hin => Hf acc0 a0 acc1 (or_intror Hin)) acc' r Hr).
    apply (Hf acc a acc' (or_introl eq_refl) Ef Hi).
Qed.

(** What an iteration establishes for its own element, and no later
    iteration undoes, holds of every element at the end. *)
Lemma rfold_each {A B} (Q : A -> B -> Prop) (f : B -> A -> result B) (l : list A) :
  (forall acc a acc', In a l -> f acc a = Ok acc' -> Q a acc') ->
  (forall acc a acc' b, In a l -> f acc a = Ok acc' -> Q b acc -> Q b acc') ->
  forall acc r, rfold f l acc = Ok r -> forall a, In a l -> Q a r.
Proof.
  induction l as [|a l IH]; intros Hown Hkeep acc r; simpl.
  - intros _ b [].
  - destruct (f acc a) as [acc'|e] eqn:Ef; simpl; [|discriminate].
    intros Hr b [<-|Hb].
    + refine (@rfold_inv A B (Q a) f l _ acc' r Hr _).
      * intros acc0 a0 acc1 Hin E0 Hq.
        apply (Hkeep acc0 a0 acc1 a (or_intror Hin) E0 Hq).
      * apply (Hown acc a acc' (or_introl eq_refl) Ef).
    + refine (IH _ _ acc' r Hr b Hb).
      * intros acc0 a0 acc1 Hin. apply Hown. now right.
      * intros acc0 a0 acc1 b0 Hin. apply Hkeep. now right.
Qed.

Section Phases.
Context {F : Type} `{FloatOps F}.

Local Abbreviation keys := (@keys F).
Local Abbreviation exprs_from := (@exprs_from F).
Local Abbreviation has_expr := (@has_expr F).
Local Abbreviation is_fixed := (@is_fixed F).
Local Abbreviation expr_of := (@expr_of F).
Local Abbreviation value_of := (@value_of F).

Lemma set_expr_inv (ps : lm_params F) (k e : string) (ps' : lm_params F) :
  set_expr ps k e = Ok ps' ->
  exists q, params_lookup ps k = Some q /\
            ps' = params_set ps k
                    (mk_param (p_value q) (p_min q) (p_max q) false (Some e)).
Proof.
  unfold set_expr, params_get.
  destruct (params_lookup ps k) as [q|]; simpl; [|discriminate].
  intros E; injection E as <-. now exists q.
Qed.

Lemma set_fixed_inv (ps : lm_params F) (k : string) (ps' : lm_params F) :
  set_fixed ps k = Ok ps' ->
  exists q, params_lookup ps k = Some q /\
            ps' = params_set ps k
                    (mk_param (p_value q) (p_min q) (p_max q) false (p_expr q)).
Proof.
  unfold set_fixed, params_get.
  destruct (params_lookup ps k) as [q|]; simpl; [|discriminate].
  intros E; injection E as <-. now exists q.
Qed.






Lemma constrain_facts (cl : list string) (n : nat) (ps ps' : lm_params F) :
  apply_constrain cl n ps = Ok ps' ->
  NoDup (keys ps) -> exprs_from cl ps ->
  NoDup (keys ps') /\ exprs_from cl ps' /\
  (forall k, value_of ps' k = value_of ps k) /\
  (forall p j, In p cl -> 1 <= j < n -> has_expr ps' (pname p j)).
Proof.
  intros Hrun Hnd Hex. unfold apply_constrain in Hrun.
  assert (Hstep : forall p j acc acc', In p cl -> 1 <= j ->
            set_expr acc (pname p j) (pname p 0) = Ok acc' ->
            (NoDup (keys acc) -> NoDup (keys acc')) /\
            (exprs_from cl acc -> exprs_from cl acc') /\
            (forall k, value_of acc' k = value_of acc k) /\
            has_expr acc' (pname p j) /\
            (forall k, has_expr acc k -> has_expr acc' k)).
  { intros p j acc acc' Hp Hj E.
    apply set_expr_inv in E. destruct E as (q & Hq & ->).
    split; [apply NoDup_set|]. split; [|split; [|split]].
    - intros Hf k q' e Hl He. rewrite lookup_set in Hl.
      destruct (String.eqb (pname p j) k) eqn:Ek.
      + apply String.eqb_eq in Ek. injection Hl as <-. simpl in He.
        injection He as <-. now exists p, j.
      + now apply (Hf k q' e).
    - intros k. unfold value_of. rewrite lookup_set.
      destruct (String.eqb (pname p j) k) eqn:Ek; [|reflexivity].
      apply String.eqb_eq in Ek. subst k. now rewrite Hq.
    - unfold has_expr. rewrite lookup_set, String.eqb_refl.
      do 2 eexists; split; reflexivity.
    - intros k (q' & e & Hl & He). unfold has_expr. rewrite lookup_set.
      destruct (String.eqb (pname p j) k).
      + do 2 eexists; split; reflexivity.
      + now exists q', e. }
  assert (Hinner : forall p acc acc', In p cl ->
            rfold (fun ps0 i => set_expr ps0 (pname p i) (pname p 0))
                  (seq 1 (n - 1)) acc = Ok acc' ->
            (NoDup (keys acc) -> NoDup (keys acc')) /\
            (exprs_from cl acc -> exprs_from cl acc') /\
            (forall k, value_of acc' k = value_of acc k) /\
            (forall j, 1 <= j < n -> has_expr acc' (pname p j)) /\
            (forall k, has_expr acc k -> has_expr acc' k)).
  { intros p acc acc' Hp E.
    assert (Hj : forall a, In a (seq 1 (n - 1)) -> 1 <= a) by (intros a Ha; apply in_seq in Ha; lia).
    split; [|split; [|split; [|split]]].
    - intros Hn0. revert Hn0.
      refine (@rfold_inv _ _ (fun a => NoDup (keys a)) _ _ _ acc acc' E).
      intros a0 j a1 Hin E0. destruct (Hstep p j a0 a1 Hp (Hj j Hin) E0) as (? & ? & ? & ? & ?); auto.
    - intros Hx0. revert Hx0.
      refine (@rfold_inv _ _ (exprs_from cl) _ _ _ acc acc' E).
      intros a0 j a1 Hin E0. destruct (Hstep p j a0 a1 Hp (Hj j Hin) E0) as (? & ? & ? & ? & ?); auto.
    - intros k.
      refine (@rfold_inv _ _ (fun a => value_of a k = value_of acc k) _ _ _ acc acc' E _);
        [|reflexivity].
      intros a0 j a1 Hin E0 Hv.
      destruct (Hstep p j a0 a1 Hp (Hj j Hin) E0) as (_ & _ & Hval & _).
      now rewrite Hval.
    - intros j Hjn.
      refine (@rfold_each _ _ (fun i a => has_expr a (pname p i)) _ _ _ _ acc acc' E j _).
      + intros a0 i a1 Hin E0. destruct (Hstep p i a0 a1 Hp (Hj i Hin) E0) as (? & ? & ? & ? & ?); auto.
      + intros a0 i a1 b Hin E0. destruct (Hstep p i a0 a1 Hp (Hj i Hin) E0) as (? & ? & ? & ? & ?); auto.
      + apply in_seq. lia.
    - intros k. revert acc acc' E.
      refine (@rfold_inv _ _ (fun a => has_expr a k) _ _ _).
      intros a0 i a1 Hin E0. destruct (Hstep p i a0 a1 Hp (Hj i Hin) E0) as (? & ? & ? & ? & ?); auto. }
  split; [|split; [|split]].
  - revert Hnd. refine (@rfold_inv _ _ (fun a => NoDup (keys a)) _ _ _ ps ps' Hrun).
    intros a0 p a1 Hin E0. destruct (Hinner p a0 a1 Hin E0) as (? & ? & ? & ? & ?); auto.
  - revert Hex. refine (@rfold_inv _ _ (exprs_from cl) _ _ _ ps ps' Hrun).
    intros a0 p a1 Hin E0. destruct (Hinner p a0 a1 Hin E0) as (? & ? & ? & ? & ?); auto.
  - intros k.
    refine (@rfold_inv _ _ (fun a => value_of a k = value_of ps k) _ _ _ ps ps' Hrun _);
      [|reflexivity].
    intros a0 p a1 Hin E0 Hv.
    destruct (Hinner p a0 a1 Hin E0) as (_ & _ & Hval & _). now rewrite Hval.
  - intros p j Hp Hj.
    refine (@rfold_each _ _ (fun p0 a => forall i, 1 <= i < n -> has_expr a (pname p0 i))
              _ _ _ _ ps ps' Hrun p Hp j Hj).
    + intros a0 p0 a1 Hin E0. destruct (Hinner p0 a0 a1 Hin E0) as (? & ? & ? & ? & ?); auto.
    + intros a0 p0 a1 b Hin E0 Hb i Hi.
      destruct (Hinner p0 a0 a1 Hin E0) as (_ & _ & _ & _ & Hk). apply Hk. now apply Hb.
Qed.

Lemma fix_facts (fl : list string) (n : nat) (ps ps' : lm_params F) :
  apply_fix fl n ps = Ok ps' ->
  NoDup (keys ps) ->
  NoDup (keys ps') /\
  (forall k, expr_of ps' k = expr_of ps k) /\
  (forall k, value_of ps' k = value_of ps k) /\
  (forall p i, In p fl -> i < n -> is_fixed ps' (pname p i)).
Proof.
  intros Hrun Hnd. unfold apply_fix in Hrun.
  assert (Hstep : forall k acc acc',
            set_fixed acc k = Ok acc' ->
            (NoDup (keys acc) -> NoDup (keys acc')) /\
            (forall k', expr_of acc' k' = expr_of acc k') /\
            (forall k', value_of acc' k' = value_of acc k') /\
            is_fixed acc' k /\
            (forall k', is_fixed acc k' -> is_fixed acc' k')).
  { intros k acc acc' E.
    apply set_fixed_inv in E. destruct E as (q & Hq & ->).
    split; [apply NoDup_set|]. split; [|split; [|split]].
    - intros k'. unfold expr_of. rewrite lookup_set.
      destruct (String.eqb k k') eqn:Ek; [|reflexivity].
      apply String.eqb_eq in Ek. subst k'. now rewrite Hq.
    - intros k'. unfold value_of. rewrite lookup_set.
      destruct (String.eqb k k') eqn:Ek; [|reflexivity].
      apply String.eqb_eq in Ek. subst k'. now rewrite Hq.
    - unfold is_fixed. rewrite lookup_set, String.eqb_refl.
      eexists; split; reflexivity.
    - intros k' (q' & Hl & Hv). unfold is_fixed. rewrite lookup_set.
      destruct (String.eqb k k').
      + eexists; split; reflexivity.
      + now exists q'. }
  assert (Hinner : forall p acc acc',
            rfold (fun ps0 i => set_fixed ps0 (pname p i)) (range n) acc = Ok acc' ->
            (NoDup (keys acc) -> NoDup (keys acc')) /\
            (forall k, expr_of acc' k = expr_of acc k) /\
            (forall k, value_of acc' k = value_of acc k) /\
            (forall i, i < n -> is_fixed acc' (pname p i)) /\
            (forall k, is_fixed acc k -> is_fixed acc' k)).
  { intros p acc acc' E.
    split; [|split; [|split; [|split]]].
    - intros Hn0. revert Hn0.
      refine (@rfold_inv _ _ (fun a => NoDup (keys a)) _ _ _ acc acc' E).
      intros a0 i a1 Hin E0. destruct (Hstep _ a0 a1 E0) as (? & ? & ? & ? & ?); auto.
    - intros k.
      refine (@rfold_inv _ _ (fun a => expr_of a k = expr_of acc k) _ _ _ acc acc' E _);
        [|reflexivity].
      intros a0 i a1 Hin E0 Hv.
      destruct (Hstep _ a0 a1 E0) as (_ & He & _). now rewrite He.
    - intros k.
      refine (@rfold_inv _ _ (fun a => value_of a k = value_of acc k) _ _ _ acc acc' E _);
        [|reflexivity].
      intros a0 i a1 Hin E0 Hv.
      destruct (Hstep _ a0 a1 E0) as (_ & _ & He & _). now rewrite He.
    - intros i Hi.
      refine (@rfold_each _ _ (fun j a => is_fixed a (pname p j)) _ _ _ _ acc acc' E i _).
      + intros a0 j a1 Hin E0. destruct (Hstep _ a0 a1 E0) as (? & ? & ? & ? & ?); auto.
      + intros a0 j a1 b Hin E0. destruct (Hstep _ a0 a1 E0) as (? & ? & ? & ? & ?); auto.
      + apply in_seq. lia.
    - intros k. revert acc acc' E.
      refine (@rfold_inv _ _ (fun a => is_fixed a k) _ _ _).
      intros a0 i a1 Hin E0. destruct (Hstep _ a0 a1 E0) as (? & ? & ? & ? & ?); auto. }
  split; [|split; [|split]].
  - revert Hnd. refine (@rfold_inv _ _ (fun a => NoDup (keys a)) _ _ _ ps ps' Hrun).
    intros a0 p a1 Hin E0. destruct (Hinner p a0 a1 E0) as (? & ? & ? & ? & ?); auto.
  - intros k.
    refine (@rfold_inv _ _ (fun a => expr_of a k = expr_of ps k) _ _ _ ps ps' Hrun _);
      [|reflexivity].
    intros a0 p a1 Hin E0 Hv.
    destruct (Hinner p a0 a1 E0) as (_ & He & _). now rewrite He.
  - intros k.
    refine (@rfold_inv _ _ (fun a => value_of a k = value_of ps k) _ _ _ ps ps' Hrun _);
      [|reflexivity].
    intros a0 p a1 Hin E0 Hv.
    destruct (Hinner p a0 a1 E0) as (_ & _ & He & _). now rewrite He.
  - intros p i Hp Hi.
    refine (@rfold_each _ _ (fun p0 a => forall j, j < n -> is_fixed a (pname p0 j))
              _ _ _ _ ps ps' Hrun p Hp i Hi).
    + intros a0 p0 a1 Hin E0. destruct (Hinner p0 a0 a1 E0) as (? & ? & ? & ? & ?); auto.
    + intros a0 p0 a1 b Hin E0 Hb j Hj.
      destruct (Hinner p0 a0 a1 E0) as (_ & _ & _ & _ & Hk). apply Hk. now apply Hb.
Qed.

End Phases.

(* ------------------------------------------------------------------ *)
(** ** Build phase, value dictionary and tabulation *)

(** Splits a successful sequence of steps into its steps. *)
Ltac rinv H :=
  cbv zeta in H;
  repeat match type of H with
         | rbind ?r _ = Ok _ =>
             let E := fresh "E" in
             destruct r eqn:E; cbn [rbind] in H; [|discriminate H];
             cbv zeta in H
         end.

Section Build.
Context {F : Type} `{FloatOps F}.

Local Abbreviation exprs_from := (@exprs_from F).
Local Abbreviation no_exprs := (@no_exprs F).
Local Abbreviation fresh_set := (@fresh_set F).



Lemma fresh_set_add (ps : lm_params F) (k : string) (v lo hi : F) :
  fresh_set ps -> fresh_set (params_add ps k v lo hi).
Proof.
  intros [Hn He]. split; [now apply NoDup_set|].
  intros k' q Hl. unfold params_add in Hl. rewrite lookup_set in Hl.
  destruct (String.eqb k k'); [now injection Hl as <-|now apply (He k')].
Qed.

Lemma i_sense_add_group_fresh z centers widths x0bounds ilow ihigh
    (ps : lm_params F) (i : nat) (ps' : lm_params F) :
  i_sense_add_group z centers widths x0bounds ilow ihigh ps i = Ok ps' ->
  fresh_set ps -> fresh_set ps'.
Proof.
  unfold i_sense_add_group. intros E Hf. rinv E.
  injection E as <-. now repeat apply fresh_set_add.
Qed.

Lemma di_add_group_fresh z centers widths x0bounds ilow ihigh
    (ps : lm_params F) (i : nat) (ps' : lm_params F) :
  di_add_group z centers widths x0bounds ilow ihigh ps i = Ok ps' ->
  fresh_set ps -> fresh_set ps'.
Proof.
  unfold di_add_group. intros E Hf. rinv E.
  injection E as <-. now repeat apply fresh_set_add.
Qed.

Lemma fresh_set_nil : fresh_set (@nil (string * lm_param F)).
Proof. split; [constructor|]. intros k q Hl. discriminate Hl. Qed.

Lemma no_exprs_from (cl : list string) (ps : lm_params F) :
  no_exprs ps -> exprs_from cl ps.
Proof. intros Hn k q e Hl He. rewrite (Hn k q Hl) in He. discriminate He. Qed.

(** The dictionary of values holds, under each name, the value of that
    parameter. *)
Lemma valuesdict_get (ps : lm_params F) (vd : list (string * F)) (k : string) (v : F) :
  valuesdict ps = Ok vd -> dict_get vd k = Ok v -> param_value ps k = Ok v.
Proof.
  unfold valuesdict. generalize ps at 2. intros l. revert vd.
  induction l as [|[k0 q0] l IH]; intros vd; simpl.
  - intros E; injection E as <-. discriminate.
  - destruct (param_value ps k0) as [v0|] eqn:E0; cbn [rbind]; [|discriminate].
    destruct (rmap _ l) as [vd'|] eqn:E1; cbn [rbind]; [|discriminate].
    intros E; injection E as <-. unfold dict_get. simpl.
    destruct (String.eqb k0 k) eqn:Ek.
    + apply String.eqb_eq in Ek. subst k0. intros E; injection E as <-. exact E0.
    + intros Hg. now apply (IH vd').
Qed.

Lemma rmap_col {A} (f : string -> result A) (cols : list string) (r : list A) (c : string) :
  rmap f cols = Ok r -> In c cols ->
  exists v, f c = Ok v /\ nth_error r (col_index cols c) = Some v.
Proof.
  revert r. induction cols as [|c0 cols IH]; intros r; simpl; [intros _ []|].
  destruct (f c0) as [v0|] eqn:E0; cbn [rbind]; [|discriminate].
  destruct (rmap f cols) as [r'|] eqn:E1; cbn [rbind]; [|discriminate].
  intros E; injection E as <-. intros Hin.
  destruct (String.eqb c0 c) eqn:Ec.
  - apply String.eqb_eq in Ec. subst c0. now exists v0.
  - destruct Hin as [->|Hin]; [now rewrite String.eqb_refl in Ec|].
    now apply IH.
Qed.

Lemma tabulate_rows (cols : list string) (vd : list (string * F)) (l : list nat)
    (acc t : list (list F)) :
  rfold (fun df i =>
           rbind (rmap (fun c => dict_get vd (pname c i)) cols)
                 (fun row => Ok (df ++ [row]))) l acc = Ok t ->
  exists rows, t = acc ++ rows /\ length rows = length l /\
    forall k, k < length l ->
      exists row, nth_error rows k = Some row /\
        rmap (fun c => dict_get vd (pname c (nth k l 0))) cols = Ok row.
Proof.
  revert acc t. induction l as [|i l IH]; intros acc t; simpl.
  - intros E; injection E as <-. exists []. rewrite app_nil_r.
    repeat split. intros k Hk. lia.
  - destruct (rmap _ cols) as [row|] eqn:Er; cbn [rbind]; [|discriminate].
    intros E. destruct (IH _ _ E) as (rows & -> & Hlen & Hrows).
    exists (row :: rows). rewrite <- app_assoc. simpl.
    split; [reflexivity|]. split; [now rewrite Hlen|].
    intros [|k] Hk; simpl; [now exists row|]. apply Hrows. lia.
Qed.

(** After tabulation, row [i] holds under column [c] the dictionary's
    value of [c_i]. *)
Lemma tabulate_cell (cols : list string) (n : nat) (vd : list (string * F))
    (t : list (list F)) :
  tabulate cols n vd = Ok t ->
  length t = n /\
  forall i c, i < n -> In c cols ->
    exists v, dict_get vd (pname c i) = Ok v /\ cell cols t i c = Some v.
Proof.
  unfold tabulate. intros E.
  destruct (tabulate_rows cols vd (range n) [] t E) as (rows & -> & Hlen & Hrows).
  unfold range in *. rewrite length_seq in *. simpl.
  split; [exact Hlen|]. intros i c Hi Hc.
  destruct (Hrows i Hi) as (row & Hrow & Hmap).
  rewrite seq_nth in Hmap by exact Hi. simpl in Hmap.
  destruct (rmap_col _ cols row c Hmap Hc) as (v & Hv & Hnth).
  exists v. split; [exact Hv|]. unfold cell. now rewrite Hrow.
Qed.

End Build.

(* ------------------------------------------------------------------ *)
(** ** The joint path, step by step *)

Section Joint.
Context {F : Type} `{FloatOps F}.

Local Abbreviation fresh_set := (@fresh_set F).
Variable lm_engine :
  (list F -> result (list F)) -> list (F * F * F) -> option (list F).
Variable curve_fit :
  (list F -> list F -> result (list F)) ->
  list F -> list F -> list F -> list F -> list F -> option (list F).




Lemma apply_constrain_nil (n : nat) (ps : lm_params F) : apply_constrain [] n ps = Ok ps.
Proof. reflexivity. Qed.

Lemma apply_fix_nil (n : nat) (ps : lm_params F) : apply_fix [] n ps = Ok ps.
Proof. reflexivity. Qed.

(** A successful joint run went through every phase. *)
Lemma joint_inversion (fam : family) (centers widths x0bounds : list F)
    (constrain fix_ : option (list string)) (span : option F)
    (x z : ndarray F) (n : nat) (s s' : state F) (t : list (list F)) :
  joint_mode fam constrain fix_ = true ->
  fit_body lm_engine curve_fit fam centers widths x0bounds constrain fix_ span x z n s
  = (Ok t, s') ->
  exists ilow ihigh ps0 ps1 ps2 v vd,
    fresh_set ps0 /\
    apply_constrain (constrain_items constrain) n ps0 = Ok ps1 /\
    apply_fix (fix_items fam fix_) n ps1 = Ok ps2 /\
    valuesdict (assign (var_names ps2) v ps2) = Ok vd /\
    tabulate (columns fam) n vd = Ok t /\
    trace s' = trace s ++ [EvParameters; EvMinimize ps2 ilow ihigh].
Proof.
  intros Hj Hrun.
  destruct fam; simpl in Hj;
    unfold fit_body, i_sense_fit_body, di_fit_body, bind, lift, emit in Hrun;
    rewrite Hj in Hrun;
    (destruct (fit_window x centers span n) as [[ilow ihigh]|];
       [|discriminate Hrun]);
    cbv beta iota zeta delta [fst snd trace heap next] in Hrun;
    match type of Hrun with
    | context [rfold ?g (range n) []] =>
        destruct (rfold g (range n) []) as [ps0|] eqn:Eb; [|discriminate Hrun];
        assert (Hfresh : fresh_set ps0)
    end.
  - refine (@rfold_inv _ _ fresh_set _ _ _ _ _ Eb fresh_set_nil).
    intros acc i acc' _. apply i_sense_add_group_fresh.
  - cbv beta iota zeta in Hrun.
    destruct (apply_constrain (seq_items constrain) n ps0) as [ps1|] eqn:Ec;
      [|discriminate Hrun].
    cbv beta iota zeta delta [fst snd trace heap next] in Hrun.
    unfold minimize in Hrun.
    match type of Hrun with
    | context [lm_engine ?f ?i] => destruct (lm_engine f i) as [v|]; [|discriminate Hrun]
    end.
    cbv beta iota zeta in Hrun.
    destruct (valuesdict (assign (var_names ps1) v ps1)) as [vd|] eqn:Ev;
      [|discriminate Hrun].
    cbv beta iota zeta in Hrun.
    destruct (tabulate i_sense_columns n vd) as [t'|] eqn:Et; [|discriminate Hrun].
    injection Hrun as <- <-.
    exists ilow, ihigh, ps0, ps1, ps1, v, vd.
    unfold constrain_items. rewrite Hj. simpl.
    repeat split; try assumption; try apply Hfresh.
    now rewrite <- app_assoc.
  - refine (@rfold_inv _ _ fresh_set _ _ _ _ _ Eb fresh_set_nil).
    intros acc i acc' _. apply di_add_group_fresh.
  - cbv beta iota zeta in Hrun.
    assert (Ec : exists ps1, apply_constrain (constrain_items constrain) n ps0 = Ok ps1 /\
                  (if truthy_seq constrain
                   then apply_constrain (seq_items constrain) n ps0 else Ok ps0) = Ok ps1).
    { unfold constrain_items.
      destruct (truthy_seq constrain).
      - destruct (apply_constrain (seq_items constrain) n ps0) as [ps1|];
          [now exists ps1|discriminate Hrun].
      - now exists ps0. }
    destruct Ec as (ps1 & Ec & Ec'). rewrite Ec' in Hrun.
    cbv beta iota zeta in Hrun.
    assert (Ef : exists ps2, apply_fix (fix_items WeakLoc fix_) n ps1 = Ok ps2 /\
                  (if truthy_seq fix_
                   then apply_fix (seq_items fix_) n ps1 else Ok ps1) = Ok ps2).
    { simpl. destruct (truthy_seq fix_).
      - destruct (apply_fix (seq_items fix_) n ps1) as [ps2|];
          [now exists ps2|discriminate Hrun].
      - now exists ps1. }
    destruct Ef as (ps2 & Ef & Ef'). rewrite Ef' in Hrun.
    cbv beta iota zeta delta [fst snd trace heap next] in Hrun.
    unfold minimize in Hrun.
    match type of Hrun with
    | context [lm_engine ?f ?i] => destruct (lm_engine f i) as [v|]; [|discriminate Hrun]
    end.
    cbv beta iota zeta in Hrun.
    destruct (valuesdict (assign (var_names ps2) v ps2)) as [vd|] eqn:Ev;
      [|discriminate Hrun].
    cbv beta iota zeta in Hrun.
    destruct (tabulate di_columns n vd) as [t'|] eqn:Et; [|discriminate Hrun].
    injection Hrun as <- <-.
    exists ilow, ihigh, ps0, ps1, ps2, v, vd.
    repeat split; try assumption; try apply Hfresh.
    now rewrite <- app_assoc.
Qed.

End Joint.

(* ------------------------------------------------------------------ *)
(** ** Tied and fixed parameters in the table *)

Section Table.
Context {F : Type} `{FloatOps F}.

Local Abbreviation checked := (@checked F).
Local Abbreviation keys := (@keys F).
Local Abbreviation is_fixed := (@is_fixed F).
Local Abbreviation expr_of := (@expr_of F).
Local Abbreviation fresh_set := (@fresh_set F).
Variable lm_engine :
  (list F -> result (list F)) -> list (F * F * F) -> option (list F).
Variable curve_fit :
  (list F -> list F -> result (list F)) ->
  list F -> list F -> list F -> list F -> list F -> option (list F).

(** A successful call passed the shape checks, which call no library,
    and then ran the body on [n] datasets, [n] being the number of
    rows of the table. *)
Lemma checked_inversion (xr zr : nat) k (s s' : state F) (t : list (list F)) :
  checked xr zr k s = (Ok t, s') ->
  exists x z n s1, k x z n s1 = (Ok t, s') /\ trace s1 = trace s /\
                   n = z_rows (shape (heap s zr)).
Proof.
  unfold checked, z_dimensions, x_rows, bind, get_obj.
  destruct (shape (heap s zr)) as [|d0 [|d1 [|d2 zsh]]]; simpl;
    try discriminate.
  - match goal with
    | |- context [shape ?a] => destruct (shape a) as [|e0 [|e1 xsh]]
    end; simpl; try discriminate.
    + intros E. eexists _, _, _, _. split; [exact E|split; reflexivity].
    + destruct (e0 =? 1); simpl; try discriminate.
      intros E. eexists _, _, _, _. split; [exact E|split; reflexivity].
  - destruct (shape (heap s xr)) as [|e0 [|e1 xsh]]; simpl; try discriminate.
    + intros E. eexists _, _, _, _. split; [exact E|split; reflexivity].
    + destruct (e0 =? 1); simpl.
      * intros E. eexists _, _, _, _. split; [exact E|split; reflexivity].
      * destruct (e0 =? d0); simpl; try discriminate.
        intros E. eexists _, _, _, _. split; [exact E|split; reflexivity].
Qed.

(** A successful call ran the body on the arrays the shape checks
    leave, the store being otherwise what the caller handed over. *)
Lemma checked_inversion_arrays (xr zr : nat) k (s s' : state F) (t : list (list F)) :
  zr < next s ->
  checked xr zr k s = (Ok t, s') ->
  exists s1,
    k (x_seen s xr zr) (z_seen s zr) (z_rows (shape (heap s zr))) s1 = (Ok t, s') /\
    trace s1 = trace s.
Proof.
  intros Hz.
  assert (Hfresh : (zr =? next s) = false) by (apply Nat.eqb_neq; lia).
  assert (Hclose : forall (x z x' z' : ndarray F) n s1,
            x = x' -> z = z' ->
            k x z n s1 = (Ok t, s') -> trace s1 = trace s ->
            exists s2, k x' z' n s2 = (Ok t, s') /\ trace s2 = trace s).
  { intros x z x' z' n s1 -> -> E Et. now exists s1. }
  unfold checked, z_dimensions, x_rows, bind, get_obj, x_seen, z_seen, x_after, z_after.
  destruct (shape (heap s zr)) as [|d0 [|d1 [|d2 zsh]]] eqn:Ez; simpl;
    try discriminate.
  - (* one-dimensional z *)
    destruct (Nat.eqb_spec xr zr) as [->|Hne]; simpl.
    + intros E. refine (Hclose _ _ _ _ _ _ _ _ E eq_refl);
        simpl; now rewrite ?Hfresh, ?Nat.eqb_refl.
    + destruct (shape (heap s xr)) as [|e0 [|e1 xsh]] eqn:Ex; simpl; try discriminate.
      * intros E. refine (Hclose _ _ _ _ _ _ _ _ E eq_refl);
          simpl; now rewrite ?Hfresh, ?Nat.eqb_refl.
      * destruct (e0 =? 1) eqn:E1; simpl; try discriminate.
        intros E. refine (Hclose _ _ _ _ _ _ _ _ E eq_refl);
          simpl; now rewrite ?Hfresh, ?Nat.eqb_refl.
  - (* two-dimensional z *)
    assert (Ex' : (if xr =? zr then heap s zr else heap s xr) = heap s xr).
    { destruct (Nat.eqb_spec xr zr) as [->|Hne]; reflexivity. }
    rewrite Ex'.
    destruct (shape (heap s xr)) as [|e0 [|e1 xsh]] eqn:Ex; simpl; try discriminate.
    + intros E. refine (Hclose _ _ _ _ _ _ _ _ E eq_refl);
        simpl; now rewrite ?Hfresh, ?Nat.eqb_refl.
    + destruct (e0 =? 1) eqn:E1; simpl.
      * intros E. refine (Hclose _ _ _ _ _ _ _ _ E eq_refl);
          simpl; now rewrite ?Hfresh, ?Nat.eqb_refl.
      * destruct (e0 =? d0); simpl; try discriminate.
        intros E. refine (Hclose _ _ _ _ _ _ _ _ E eq_refl);
          simpl; now rewrite ?Hfresh, ?Nat.eqb_refl.
Qed.

Lemma param_value_inv (ps : lm_params F) (k : string) (v : F) :
  param_value ps k = Ok v ->
  exists q, params_lookup ps k = Some q /\
            match p_expr q with
            | None => v = p_value q
            | Some e => eval_expr (length ps) ps e = Ok v
            end.
Proof.
  unfold param_value, params_get.
  destruct (params_lookup ps k) as [q|]; simpl; [|discriminate].
  intros E. exists q. split; [reflexivity|].
  destruct (p_expr q); [exact E|]. now injection E as <-.
Qed.

Lemma assign_expr_of (names : list string) (vals : list F) (ps : lm_params F)
    (k : string) :
  expr_of (assign names vals ps) k = expr_of ps k.
Proof.
  unfold expr_of. pose proof (assign_lookup names vals ps k) as Ha.
  destruct (params_lookup ps k) as [q|].
  - destruct Ha as (q' & -> & (_ & _ & _ & He) & _). simpl. now rewrite He.
  - now rewrite Ha.
Qed.

(** The expressions of the set handed to the optimiser. *)
Lemma tied_exprs (fam : family) (cl fl : list string) (n : nat)
    (ps0 ps1 ps2 : lm_params F) :
  (forall q, In q cl -> In q (columns fam)) ->
  fresh_set ps0 ->
  apply_constrain cl n ps0 = Ok ps1 ->
  apply_fix fl n ps1 = Ok ps2 ->
  NoDup (keys ps2) /\
  (forall p i, In p cl -> 1 <= i < n ->
               expr_of ps2 (pname p i) = Some (Some (pname p 0))) /\
  (forall p, In p (columns fam) -> forall q, params_lookup ps2 (pname p 0) = Some q ->
             p_expr q = None) /\
  (forall p i, In p (columns fam) -> ~ In p cl ->
               forall q, params_lookup ps2 (pname p i) = Some q -> p_expr q = None) /\
  (forall p i, In p fl -> i < n -> is_fixed ps2 (pname p i)).
Proof.
  intros Hcl [Hnd Hne] Hc Hf.
  destruct (constrain_facts cl n ps0 ps1 Hc Hnd (no_exprs_from cl ps0 Hne))
    as (Hnd1 & Hfrom & _ & Hhas).
  destruct (fix_facts fl n ps1 ps2 Hf Hnd1) as (Hnd2 & Hex & _ & Hfix).
  assert (Horigin : forall k q e, params_lookup ps2 k = Some q -> p_expr q = Some e ->
            exists p j, In p cl /\ 1 <= j /\ k = pname p j /\ e = pname p 0).
  { intros k q e Hl He. specialize (Hex k). unfold expr_of in Hex. rewrite Hl in Hex.
    simpl in Hex. destruct (params_lookup ps1 k) as [q1|] eqn:E1; [|discriminate].
    simpl in Hex. apply (Hfrom k q1 e E1). congruence. }
  repeat split.
  - exact Hnd2.
  - intros p i Hp Hi. rewrite Hex.
    destruct (Hhas p i Hp Hi) as (q & e & Hl & He).
    unfold expr_of. rewrite Hl. simpl. rewrite He.
    destruct (Hfrom _ q e Hl He) as (p' & j & Hp' & Hj & Ek & ->).
    destruct (pname_inj fam p p' i j (Hcl p Hp) (Hcl p' Hp') Ek) as [<- _].
    reflexivity.
  - intros p Hp q Hl. destruct (p_expr q) as [e|] eqn:He; [|reflexivity].
    destruct (Horigin _ q e Hl He) as (p' & j & Hp' & Hj & Ek & _).
    destruct (pname_inj fam p p' 0 j Hp (Hcl p' Hp') Ek) as [_ <-]. lia.
  - intros p i Hp Hn q Hl. destruct (p_expr q) as [e|] eqn:He; [|reflexivity].
    destruct (Horigin _ q e Hl He) as (p' & j & Hp' & Hj & Ek & _).
    destruct (pname_inj fam p p' i j Hp (Hcl p' Hp') Ek) as [-> _]. contradiction.
  - exact Hfix.
Qed.

End Table.

Section TableRows.
Context {F : Type} `{FloatOps F}.

Local Abbreviation expr_of := (@expr_of F).
Variable lm_engine :
  (list F -> result (list F)) -> list (F * F * F) -> option (list F).
Variable curve_fit :
  (list F -> list F -> result (list F)) ->
  list F -> list F -> list F -> list F -> list F -> option (list F).

Lemma expr_of_lookup (ps : lm_params F) (k : string) (q : lm_param F) :
  params_lookup ps k = Some q -> expr_of ps k = Some (p_expr q).
Proof. intros Hl. unfold expr_of. now rewrite Hl. Qed.

Lemma eval_own (ps : lm_params F) (k : string) (q : lm_param F) :
  params_lookup ps k = Some q -> p_expr q = None ->
  eval_expr (length ps) ps k = Ok (p_value q).
Proof.
  intros Hl He. pose proof (lookup_Some_length ps k q Hl) as Hlen.
  destruct (length ps) as [|fuel]; [lia|]. simpl. now rewrite Hl, He.
Qed.

(** When [constrain] is a set of role names containing the role [p],
    every row of a table the joint fit returns holds, in the column of
    [p], the value row 0 holds there. *)
Lemma tied_rows (fam : family) (xr zr : nat)
    (centers widths x0bounds : list F) (cl : list string)
    (fix_ : option (list string)) (span : option F)
    (s s' : state F) (t : list (list F)) (p : string) :
  (forall q, In q cl -> In q (columns fam)) ->
  In p cl ->
  fit_simultaneous fam lm_engine curve_fit xr zr centers widths x0bounds
    (Some cl) fix_ span s = (Ok t, s') ->
  length t = z_rows (shape (heap s zr)) /\
  forall i, i < length t ->
    exists v, cell (columns fam) t i p = Some v /\ cell (columns fam) t 0 p = Some v.
Proof.
  intros Hcl Hp Hrun.
  rewrite fit_simultaneous_checked in Hrun.
  destruct (checked_inversion _ _ _ _ _ _ Hrun) as (x & z & n & s1 & Hbody & _ & Hrows).
  assert (Htr : truthy_seq (Some cl) = true) by (destruct cl; [contradiction|reflexivity]).
  assert (Hj : joint_mode fam (Some cl) fix_ = true)
    by (destruct fam; cbn [joint_mode]; rewrite Htr; reflexivity).
  destruct (joint_inversion _ _ _ _ _ _ _ _ _ _ _ _ _ _ _ Hj Hbody)
    as (ilow & ihigh & ps0 & ps1 & ps2 & v & vd & Hfresh & Hc & Hf & Hvd & Htab & _).
  unfold constrain_items in Hc. rewrite Htr in Hc. cbn [seq_items] in Hc.
  destruct (tied_exprs fam cl _ n ps0 ps1 ps2 Hcl Hfresh Hc Hf)
    as (Hnd & Htied & Hzero & _ & _).
  destruct (tabulate_cell _ _ _ _ Htab) as (Hlen & Hcell).
  split; [congruence|]. intros i Hi.
  rewrite Hlen in Hi.
  destruct (Hcell i p Hi (Hcl p Hp)) as (vi & Hgi & Hci).
  destruct (Hcell 0 p ltac:(lia) (Hcl p Hp)) as (v0 & Hg0 & Hc0).
  set (res := assign (var_names ps2) v ps2) in *.
  pose proof (valuesdict_get res vd _ _ Hvd Hgi) as Hvi.
  pose proof (valuesdict_get res vd _ _ Hvd Hg0) as Hv0.
  destruct (Nat.eq_dec i 0) as [->|Hne].
  { exists vi. split; [exact Hci|]. congruence. }
  exists vi. split; [exact Hci|]. rewrite Hc0. f_equal.
  destruct (param_value_inv _ _ _ Hvi) as (q & Hl & Hq).
  destruct (param_value_inv _ _ _ Hv0) as (q0 & Hl0 & Hq0).
  (* group 0 owns its value *)
  assert (He0 : p_expr q0 = None).
  { pose proof (assign_expr_of (var_names ps2) v ps2 (pname p 0)) as Ee.
    fold res in Ee. rewrite (expr_of_lookup _ _ _ Hl0) in Ee.
    unfold expr_of in Ee.
    destruct (params_lookup ps2 (pname p 0)) as [q2|] eqn:E2; [|discriminate].
    simpl in Ee. injection Ee as ->. apply (Hzero p (Hcl p Hp) q2 E2). }
  rewrite He0 in Hq0. subst v0.
  (* group i follows group 0 *)
  assert (He : p_expr q = Some (pname p 0)).
  { pose proof (assign_expr_of (var_names ps2) v ps2 (pname p i)) as Ee.
    fold res in Ee. rewrite (expr_of_lookup _ _ _ Hl) in Ee.
    rewrite (Htied p i Hp ltac:(lia)) in Ee. now injection Ee. }
  rewrite He in Hq. rewrite (eval_own _ _ _ Hl0 He0) in Hq. now injection Hq.
Qed.

End TableRows.

(* ------------------------------------------------------------------ *)
(** ** Nearest-index lookup *)

Section Nearest.
Context {F : Type} `{FloatOrder F}.



Lemma replace_nan_not_nan (v : F) : fisnan (replace_nan v) = false.
Proof.
  unfold replace_nan. destruct (fisnan v) eqn:E; [apply finf_not_nan|exact E].
Qed.

Lemma argmin_from_spec (d : F) (l pre : list F) (bi : nat) (b : F) :
  (forall k, fisnan (nth k (pre ++ l) b) = false) ->
  bi < length pre -> nth bi pre b = b ->
  (forall k, k < length pre -> fltb (nth k pre b) b = false) ->
  (forall k, k < bi -> fltb b (nth k pre b) = true) ->
  let j := argmin_from bi b (length pre) l in
  j < length (pre ++ l) /\
  (forall k, k < length (pre ++ l) ->
             fltb (nth k (pre ++ l) d) (nth j (pre ++ l) d) = false) /\
  (forall k, k < j -> fltb (nth j (pre ++ l) d) (nth k (pre ++ l) d) = true).
Proof.
  revert pre bi b. induction l as [|v l IH]; intros pre bi b Hnan Hbi Hb Hmin Hfirst; simpl.
  - rewrite app_nil_r. split; [exact Hbi|]. split.
    + intros k Hk. rewrite (nth_indep pre d b Hk), (nth_indep pre d b Hbi), Hb.
      now apply Hmin.
    + intros k Hk. rewrite (nth_indep pre d b Hbi), Hb.
      rewrite (nth_indep pre d b) by lia. now apply Hfirst.
  - assert (Hv : nth (length pre) (pre ++ v :: l) b = v)
      by (rewrite app_nth2, Nat.sub_diag by lia; reflexivity).
    assert (Hpre : forall k, k < length pre -> nth k (pre ++ v :: l) b = nth k pre b)
      by (intros k Hk; now rewrite app_nth1).
    assert (Hnv : fisnan v = false) by (rewrite <- Hv; apply Hnan).
    assert (Hnb : fisnan b = false) by (rewrite <- Hb, <- (Hpre bi Hbi); apply Hnan).
    assert (Hnk : forall k, k < length pre -> fisnan (nth k pre b) = false)
      by (intros k Hk; rewrite <- (Hpre k Hk); apply Hnan).
    assert (Happ : pre ++ v :: l = (pre ++ [v]) ++ l) by now rewrite <- app_assoc.
    assert (Hlen : length (pre ++ [v]) = S (length pre)) by (rewrite length_app; simpl; lia).
    destruct (fltb v b) eqn:Evb.
    + (* a new least value *)
      specialize (IH (pre ++ [v]) (length pre) v).
      rewrite Hlen in IH. rewrite Happ. apply IH.
      * intros k. rewrite <- Happ.
        destruct (Nat.lt_ge_cases k (length (pre ++ v :: l))) as [Hk|Hk].
        -- rewrite (nth_indep _ v b Hk). apply Hnan.
        -- now rewrite nth_overflow.
      * lia.
      * now rewrite app_nth2, Nat.sub_diag by lia.
      * intros k Hk. destruct (Nat.eq_dec k (length pre)) as [->|Hne].
        -- rewrite app_nth2, Nat.sub_diag by lia. apply fltb_irrefl.
        -- rewrite app_nth1 by lia. rewrite (nth_indep pre v b) by lia.
           destruct (fltb (nth k pre b) v) eqn:E; [|reflexivity].
           pose proof (Hmin k ltac:(lia)) as Hm.
           rewrite (fltb_trans _ _ _ E Evb) in Hm. discriminate Hm.
      * intros k Hk. rewrite app_nth1 by lia. rewrite (nth_indep pre v b) by lia.
        destruct (fltb v (nth k pre b)) eqn:E; [reflexivity|].
        rewrite (fltb_negtrans v (nth k pre b) b Hnv (Hnk k Hk) Hnb E (Hmin k Hk)) in Evb.
        discriminate Evb.
    + (* the least value stays *)
      specialize (IH (pre ++ [v]) bi b).
      rewrite Hlen in IH. rewrite Happ. apply IH.
      * intros k. rewrite <- Happ. apply Hnan.
      * lia.
      * now rewrite app_nth1.
      * intros k Hk. destruct (Nat.eq_dec k (length pre)) as [->|Hne].
        -- now rewrite app_nth2, Nat.sub_diag by lia.
        -- rewrite app_nth1 by lia. apply Hmin. lia.
      * intros k Hk. rewrite app_nth1 by lia. now apply Hfirst.
Qed.

(** [nanargmin] returns the first index of the least value among the
    entries that are numbers. *)
Lemma nanargmin_spec (d : F) (l : list F) :
  (exists k, k < length l /\ fisnan (nth k l d) = false /\ fltb (nth k l d) finf = true) ->
  exists j, nanargmin l = Ok j /\ j < length l /\ fisnan (nth j l d) = false /\
    (forall k, k < length l -> fisnan (nth k l d) = false ->
               fltb (nth k l d) (nth j l d) = false) /\
    (forall k, k < j -> fisnan (nth k l d) = false ->
               fltb (nth j l d) (nth k l d) = true).
Proof.
  intros (k0 & Hk0 & Hn0 & Hf0).
  destruct l as [|v l']; [simpl in Hk0; lia|].
  set (l := v :: l') in *.
  assert (Hall : forallb fisnan l = false).
  { destruct (forallb fisnan l) eqn:E; [|reflexivity].
    rewrite forallb_forall in E. rewrite (E (nth k0 l d)) in Hn0; [discriminate|].
    now apply nth_In. }
  unfold nanargmin. fold l. rewrite Hall.
  set (r := replace_nan v). set (l2 := map replace_nan l').
  assert (Hr : forall k, k < length l -> nth k ([r] ++ l2) d = replace_nan (nth k l d)).
  { intros [|k] Hk; [reflexivity|]. simpl. unfold l2.
    rewrite (nth_indep _ d (replace_nan d)) by (rewrite length_map; simpl in Hk; lia).
    apply map_nth. }
  assert (Hlen : length ([r] ++ l2) = length l) by (simpl; unfold l2; now rewrite length_map).
  destruct (argmin_from_spec d l2 [r] 0 r) as (Hj & Hmin & Hfirst).
  - intros k. destruct (Nat.lt_ge_cases k (length ([r] ++ l2))) as [Hk|Hk].
    + rewrite (nth_indep _ r d Hk). rewrite Hr by lia. apply replace_nan_not_nan.
    + rewrite nth_overflow by exact Hk. apply replace_nan_not_nan.
  - simpl; lia.
  - reflexivity.
  - intros [|k] Hk; [apply fltb_irrefl|simpl in Hk; lia].
  - intros k Hk. lia.
  - change (length [r]) with 1 in Hj, Hmin, Hfirst.
    set (j := argmin_from 0 r 1 l2) in *.
    rewrite Hlen in Hj, Hmin.
    assert (Hjn : fisnan (nth j l d) = false).
    { destruct (fisnan (nth j l d)) eqn:E; [|reflexivity].
      specialize (Hmin k0 Hk0). rewrite !Hr in Hmin by assumption.
      unfold replace_nan in Hmin. rewrite E, Hn0, Hf0 in Hmin. discriminate Hmin. }
    exists j. split; [reflexivity|]. split; [exact Hj|]. split; [exact Hjn|]. split.
    + intros k Hk Hnk. specialize (Hmin k Hk). rewrite !Hr in Hmin by assumption.
      unfold replace_nan in Hmin. now rewrite Hnk, Hjn in Hmin.
    + intros k Hk Hnk. specialize (Hfirst k Hk). rewrite !Hr in Hfirst by lia.
      unfold replace_nan in Hfirst. now rewrite Hnk, Hjn in Hfirst.
Qed.

End Nearest.

(* ------------------------------------------------------------------ *)
(** ** Transposition, broadcasting and reduction along axis 0 *)

Section Axis0.
Context {F : Type} `{FloatOps F}.

Lemma nth_zip_with (f : F -> F -> F) (l1 l2 : list F) (i : nat) (d : F) :
  i < length l1 -> i < length l2 ->
  nth i (zip_with f l1 l2) d = f (nth i l1 d) (nth i l2 d).
Proof.
  revert l2 i. induction l1 as [|a l1 IH]; intros [|b l2] [|i]; simpl; intros H1 H2;
    try lia; [reflexivity|]. apply IH; lia.
Qed.

(** The elements of a concatenation of rows of [n] elements. *)
Lemma nth_flat_rows (G : nat -> list F) (n : nat) (d : F) :
  (forall j, length (G j) = n) ->
  forall m a j i, j < m -> i < n ->
    nth (j * n + i) (flat_map G (seq a m)) d = nth i (G (a + j)) d.
Proof.
  intros HG. induction m as [|m IH]; intros a j i Hj Hi; [lia|].
  simpl. destruct j as [|j].
  - simpl. rewrite app_nth1 by (rewrite HG; lia). now rewrite Nat.add_0_r.
  - rewrite app_nth2 by (rewrite HG; simpl; lia).
    rewrite HG. replace (S j * n + i - n) with (j * n + i) by (simpl; lia).
    rewrite IH by lia. f_equal. f_equal. lia.
Qed.

Lemma chunks_flat_rows (G : nat -> list F) (n m : nat) :
  (forall j, length (G j) = n) ->
  chunks n m (flat_map G (seq 0 m)) = map G (seq 0 m).
Proof.
  intros HG. unfold chunks. apply map_ext_in. intros j Hj. apply in_seq in Hj.
  assert (Hlen : forall k a, length (flat_map G (seq a k)) = k * n).
  { induction k as [|k IHk]; intros a; simpl; [reflexivity|].
    now rewrite length_app, HG, IHk. }
  apply (nth_ext _ _ (lit 0%Q) (lit 0%Q)).
  - rewrite length_firstn, length_skipn, Hlen, HG.
    assert (j * n + n <= m * n) by nia. lia.
  - intros i Hi. rewrite length_firstn in Hi.
    assert (Hin : i < n) by lia.
    rewrite nth_firstn. apply Nat.ltb_lt in Hin. rewrite Hin.
    apply Nat.ltb_lt in Hin. rewrite nth_skipn.
    now rewrite (nth_flat_rows G n (lit 0%Q) HG m 0 j i) by lia.
Qed.

Lemma flat_map_map {A B C} (f : B -> list C) (g : A -> B) (l : list A) :
  flat_map f (map g l) = flat_map (fun a => f (g a)) l.
Proof. induction l as [|a l IH]; simpl; [reflexivity|]. now rewrite IH. Qed.

Lemma map_flat_map {A B C} (f : B -> C) (g : A -> list B) (l : list A) :
  map f (flat_map g l) = flat_map (fun a => map f (g a)) l.
Proof.
  induction l as [|a l IH]; simpl; [reflexivity|]. now rewrite map_app, IH.
Qed.

Lemma rmap_ext_in {A B} (f g : A -> result B) (l : list A) :
  (forall a, In a l -> f a = g a) -> rmap f l = rmap g l.
Proof.
  induction l as [|a l IH]; intros Hfg; simpl; [reflexivity|].
  rewrite (Hfg a (or_introl eq_refl)), IH; [reflexivity|].
  intros b Hb. apply Hfg. now right.
Qed.

Lemma rmap_ok {A B} (f : A -> result B) (g : A -> B) (l : list A) :
  (forall a, In a l -> f a = Ok (g a)) -> rmap f l = Ok (map g l).
Proof.
  induction l as [|a l IH]; intros Hfg; simpl; [reflexivity|].
  rewrite (Hfg a (or_introl eq_refl)). simpl. rewrite IH; [reflexivity|].
  intros b Hb. apply Hfg. now right.
Qed.

(** Reducing [|x.T - t|] along axis 0 is reducing, for each dataset
    [i], the distances of row [i] of [x] to [t[i]]. *)
Lemma nearest_index_rows (x : ndarray F) (t : list F) (n m : nat) :
  shape x = [n; m] -> length (buf x) = n * m -> length t = n ->
  nearest_index x t
  = rmap (fun i => rbind (nanargmin (map (fun v => fabs (fsub v (nth i t (lit 0%Q))))
                                         (row m (buf x) i)))
                         (fun j => Ok (Z.of_nat j)))
         (seq 0 n).
Proof.
  intros Hs Hb Ht.
  unfold nearest_index, np_transpose. rewrite Hs. cbn [rbind].
  unfold np_sub_bcast. cbn [shape buf]. rewrite <- Ht, Nat.eqb_refl, Ht. cbn [rbind].
  unfold nanargmin_axis0, nd_map. cbn [shape buf].
  apply rmap_ext_in. intros i Hi. apply in_seq in Hi. f_equal. f_equal.
  unfold column. set (d := lit 0%Q).
  set (G := fun j => map (fun i0 => nth (i0 * m + j) (buf x) d) (seq 0 n)).
  assert (HG : forall j, length (G j) = n)
    by (intros j; unfold G; now rewrite length_map, length_seq).
  rewrite (chunks_flat_rows G n m HG), flat_map_map, map_flat_map.
  set (G2 := fun j => map fabs (zip_with fsub (G j) t)).
  assert (HG2 : forall j, length (G2 j) = n).
  { intros j. unfold G2. rewrite length_map, zip_with_length, HG, Ht. lia. }
  unfold column.
  apply (nth_ext _ _ d d).
  - rewrite !length_map, length_seq. unfold row.
    rewrite length_firstn, length_skipn.
    assert (i * m + m <= n * m) by nia. lia.
  - intros j Hj. rewrite length_map, length_seq in Hj.
    rewrite (nth_indep _ d ((fun j0 => nth (j0 * n + i) (flat_map G2 (seq 0 m)) d) 0))
      by (rewrite length_map, length_seq; exact Hj).
    rewrite (map_nth (fun j0 => nth (j0 * n + i) (flat_map G2 (seq 0 m)) d)).
    rewrite seq_nth by exact Hj. cbn [Nat.add].
    rewrite (nth_flat_rows G2 n d HG2 m 0 j i) by lia. cbn [Nat.add].
    unfold G2.
    rewrite (nth_indep _ d (fabs d))
      by (rewrite length_map, zip_with_length, HG, Ht; lia).
    rewrite map_nth.
    rewrite nth_zip_with by (rewrite ?HG, ?Ht; lia).
    unfold G.
    rewrite (nth_indep (map _ (seq 0 n)) d ((fun i0 => nth (i0 * m + j) (buf x) d) 0))
      by (rewrite length_map, length_seq; lia).
    rewrite (map_nth (fun i0 => nth (i0 * m + j) (buf x) d)).
    rewrite seq_nth by lia. cbn [Nat.add].
    assert (Hrow : j < length (row m (buf x) i)).
    { unfold row. rewrite length_firstn, length_skipn.
      assert (i * m + m <= n * m) by nia. lia. }
    rewrite (nth_indep (map (fun v => fabs (fsub v (nth i t d))) (row m (buf x) i))
               d ((fun v => fabs (fsub v (nth i t d))) d))
      by (rewrite length_map; exact Hrow).
    rewrite (map_nth (fun v => fabs (fsub v (nth i t d)))).
    unfold row. rewrite nth_firstn.
    assert (Hjm : (j <? m) = true) by (apply Nat.ltb_lt; lia).
    rewrite Hjm, nth_skipn. reflexivity.
Qed.

End Axis0.

Section WindowSelection.
Context {F : Type} `{FloatOrder F}.

Local Abbreviation nearest := (@nearest F _).
Local Abbreviation reachable := (@reachable F _).

Lemma nearest_index_ok (x : ndarray F) (t : list F) (n m : nat) :
  shape x = [n; m] -> length (buf x) = n * m -> length t = n ->
  (forall i, i < n -> reachable (row m (buf x) i) (nth i t (lit 0%Q))) ->
  exists idx, nearest_index x t = Ok idx /\ length idx = n /\
    forall i, i < n ->
      exists j, nth i idx 0%Z = Z.of_nat j /\
                nearest (row m (buf x) i) (nth i t (lit 0%Q)) j.
Proof.
  intros Hs Hb Ht Hreach.
  rewrite (nearest_index_rows x t n m Hs Hb Ht).
  set (dist := fun i v => fabs (fsub v (nth i t (lit 0%Q)))).
  set (g := fun i => match nanargmin (map (dist i) (row m (buf x) i)) with
                     | Ok j => Z.of_nat j
                     | Raise _ => 0%Z
                     end).
  assert (Hspec : forall i, i < n ->
            exists j, nanargmin (map (dist i) (row m (buf x) i)) = Ok j /\
                      nearest (row m (buf x) i) (nth i t (lit 0%Q)) j).
  { intros i Hi. destruct (Hreach i Hi) as (k & Hk & Hnk & Hfk).
    destruct (nanargmin_spec (dist i (lit 0%Q)) (map (dist i) (row m (buf x) i)))
      as (j & Hj & Hlt & Hnj & Hmin & Hfirst).
    - exists k. rewrite length_map, map_nth. repeat split; assumption.
    - exists j. split; [exact Hj|]. rewrite length_map in Hlt, Hmin.
      unfold nearest. cbv zeta. repeat split.
      + exact Hlt.
      + now rewrite map_nth in Hnj.
      + intros k' Hk' Hn'. specialize (Hmin k' Hk'). rewrite !map_nth in Hmin.
        now apply Hmin.
      + intros k' Hk' Hn'. specialize (Hfirst k' Hk'). rewrite !map_nth in Hfirst.
        now apply Hfirst. }
  exists (map g (seq 0 n)). split; [|split].
  - apply rmap_ok. intros i Hi. apply in_seq in Hi.
    destruct (Hspec i ltac:(lia)) as (j & Hj & _).
    unfold g. fold (dist i). now rewrite Hj.
  - now rewrite length_map, length_seq.
  - intros i Hi. destruct (Hspec i Hi) as (j & Hj & Hn).
    exists j. split; [|exact Hn].
    rewrite (nth_indep _ 0%Z (g 0)) by (now rewrite length_map, length_seq).
    rewrite map_nth, seq_nth by exact Hi. cbn [Nat.add]. unfold g. now rewrite Hj.
Qed.

(** C5.  When [span] is provided (and not zero), the window bounds are
    found per dataset by nearest-neighbour lookup: [ilow[i]] is the
    index [j] at which [|x[i][j] - (centers[i] - span)|] is least, and
    [ihigh[i]] the one at which [|x[i][j] - (centers[i] + span)|] is
    least, entries whose distance is not a number being ignored.
    Nothing is assumed of the order or spacing of [x]; it is enough
    that each row has an entry at a finite distance from the three
    targets the code looks up.  [fit_window] is the window selection
    of both routines. *)
Theorem window_by_nearest_neighbour (x : ndarray F) (centers : list F) (sp : F)
    (n m : nat) :
  shape x = [n; m] -> length (buf x) = n * m -> length centers = n ->
  fnonzero sp = true ->
  (forall i, i < n ->
     let c := nth i centers (lit 0%Q) in
     reachable (row m (buf x) i) c /\
     reachable (row m (buf x) i) (fsub c sp) /\
     reachable (row m (buf x) i) (fadd c sp)) ->
  exists ilow ihigh,
    fit_window x centers (Some sp) n = Ok (ilow, ihigh) /\
    length ilow = n /\ length ihigh = n /\
    forall i, i < n ->
      exists jl jh,
        nth i ilow 0%Z = Z.of_nat jl /\ nth i ihigh 0%Z = Z.of_nat jh /\
        nearest (row m (buf x) i) (fsub (nth i centers (lit 0%Q)) sp) jl /\
        nearest (row m (buf x) i) (fadd (nth i centers (lit 0%Q)) sp) jh.
Proof.
  intros Hs Hb Hc Hsp Hreach.
  assert (Hnth : forall (f : F -> F) i, i < n ->
            nth i (map f centers) (lit 0%Q) = f (nth i centers (lit 0%Q))).
  { intros f i Hi. rewrite (nth_indep _ (lit 0%Q) (f (lit 0%Q))) by (rewrite length_map; lia).
    apply map_nth. }
  destruct (nearest_index_ok x centers n m Hs Hb Hc) as (ic & Hic & _).
  { intros i Hi. apply (Hreach i Hi). }
  destruct (nearest_index_ok x (map (fun c => fsub c sp) centers) n m Hs Hb)
    as (ilow & Hlow & Hllen & Hlspec).
  { now rewrite length_map. }
  { intros i Hi. rewrite Hnth by exact Hi. apply (Hreach i Hi). }
  destruct (nearest_index_ok x (map (fun c => fadd c sp) centers) n m Hs Hb)
    as (ihigh & Hhigh & Hhlen & Hhspec).
  { now rewrite length_map. }
  { intros i Hi. rewrite Hnth by exact Hi. apply (Hreach i Hi). }
  exists ilow, ihigh. split; [|split; [exact Hllen|split; [exact Hhlen|]]].
  - unfold fit_window. rewrite Hsp, Hic, Hlow, Hhigh. reflexivity.
  - intros i Hi.
    destruct (Hlspec i Hi) as (jl & Ejl & Hjl).
    destruct (Hhspec i Hi) as (jh & Ejh & Hjh).
    rewrite Hnth in Hjl, Hjh by exact Hi.
    now exists jl, jh.
Qed.

End WindowSelection.

(* ------------------------------------------------------------------ *)
(** ** The default window *)

Section DefaultWindow.
Context {F : Type} `{FloatOps F}.

Lemma py_slice_all_but_last {A} (l : list A) :
  py_slice l 0%Z (-1)%Z = firstn (length l - 1) l.
Proof.
  unfold py_slice, slice_bound. cbv zeta.
  change (-1 <? 0)%Z with true. change (0 <? 0)%Z with false. cbv iota.
  replace (Z.to_nat (Z.min 0 (Z.of_nat (length l)))) with 0 by lia.
  replace (Z.to_nat (Z.max (-1 + Z.of_nat (length l)) 0)) with (length l - 1) by lia.
  simpl skipn. f_equal. lia.
Qed.

(** Without [span] the bounds are [0] and [-1], and the slice
    [lo:hi] they delimit holds the first [m-1] of the [m] samples of a
    row: the last sample is outside the window. *)
Lemma default_window (x z : ndarray F) (centers : list F) (n m i : nat) :
  shape z = [n; m] -> length (buf z) = n * m -> i < n ->
  fit_window x centers None n = Ok (repeat 0%Z n, repeat (-1)%Z n) /\
  window z (repeat 0%Z n) (repeat (-1)%Z n) i = Ok (firstn (m - 1) (row m (buf z) i)) /\
  length (firstn (m - 1) (row m (buf z) i)) = m - 1.
Proof.
  intros Hs Hb Hi. split; [reflexivity|].
  pose proof (@row_length F m n i (buf z) Hb Hi) as Hr.
  split.
  - unfold window.
    rewrite (@py_index_nth Z (repeat 0%Z n) i 0%Z) by (now rewrite repeat_length).
    rewrite (@py_index_nth Z (repeat (-1)%Z n) i 0%Z) by (now rewrite repeat_length).
    cbn [rbind]. rewrite !nth_repeat_lt by exact Hi.
    erewrite row_slice_ok; [|exact Hs|exact Hi].
    now rewrite py_slice_all_but_last, Hr.
  - rewrite length_firstn, Hr. lia.
Qed.

End DefaultWindow.

(* ------------------------------------------------------------------ *)
(** ** [get_subset] on one-dimensional data *)

Section SubsetFacts.
Context {F : Type} `{FloatOps F}.

Lemma py_index_raises {A} (l : list A) (k : Z) (e : exn) :
  py_index l k = Raise e -> e = IndexError.
Proof.
  unfold py_index. cbv zeta.
  destruct (_ || _); [now intros E; injection E|].
  destruct (nth_error _ _); [discriminate|]. now intros E; injection E.
Qed.

Lemma rmap_raises {A B} (f : A -> result B) (l : list A) (e : exn) :
  rmap f l = Raise e -> exists a, In a l /\ f a = Raise e.
Proof.
  induction l as [|a l IH]; simpl; [discriminate|].
  destruct (f a) as [b|e'] eqn:Ef; cbn [rbind].
  - destruct (rmap f l) as [bs|e'']; cbn [rbind]; [discriminate|].
    intros E. destruct (IH E) as (a' & Hin & Ha'). exists a'. split; [now right|exact Ha'].
  - intros E. exists a. split; [now left|]. congruence.
Qed.

(** On one-dimensional data [get_subset] returns nothing and raises no
    [NotImplementedError]: once the axes are read it fails on calling
    [NotImplemented], with a [TypeError]. *)
Lemma get_subset_1d (data : dataset F) (bounds : list (option F)) :
  ndim (data2 data) = 1 ->
  (forall r, get_subset data bounds <> Ok r) /\
  (forall msg, get_subset data bounds <> Raise (NotImplementedError msg)).
Proof.
  intros Hd.
  assert (Hall : exists e, get_subset data bounds = Raise e /\
                           forall msg, e <> NotImplementedError msg).
  { unfold get_subset. rewrite Hd. cbn [Nat.eqb].
    destruct (negb _); [eexists; split; [reflexivity|discriminate]|].
    repeat match goal with
           | |- context [rbind (py_index ?l ?k) _] =>
               let E := fresh "E" in
               destruct (py_index l k) eqn:E; cbn [rbind];
               [|apply py_index_raises in E; subst;
                 eexists; split; [reflexivity|discriminate]]
           end.
    match goal with
    | |- context [rbind (rmap ?f ?l) _] => destruct (rmap f l) as [bs|e] eqn:Em
    end; cbn [rbind].
    - unfold call_NotImplemented. eexists; split; [reflexivity|discriminate].
    - apply rmap_raises in Em. destruct Em as ([i b] & _ & Ef).
      unfold bound_or_extent in Ef. cbn [fst snd] in Ef.
      assert (e = IndexError) as ->.
      { destruct b as [v|]; [destruct (fnonzero v); [discriminate|]|];
          now apply py_index_raises in Ef. }
      eexists; split; [reflexivity|discriminate]. }
  destruct Hall as (e & -> & He). split; [discriminate|].
  intros msg E. injection E as E. now apply (He msg).
Qed.

End SubsetFacts.

(* ------------------------------------------------------------------ *)
(** ** Initial guesses and bounds of the two paths *)

Section Guesses.
Context {F : Type} `{FloatOps F}.

Local Abbreviation built_as := (@built_as F _).

(** Looks a name of group [i] up in the set built by the five [add]
    of that group. *)
Ltac lookup_group :=
  unfold params_add, pname; rewrite !lookup_set; cbn [String.append];
  cbn [String.eqb Ascii.eqb Bool.eqb andb];
  rewrite ?String.eqb_refl; reflexivity.

(** Sensor current: the parameter that the joint build phase adds for
    a role of group [i] carries the two bounds that the independent fit
    of dataset [i] uses for that role, and its value is the initial
    value of that fit clipped into them. *)
Lemma i_sense_group_values z centers widths x0bounds ilow ihigh
    (ps : lm_params F) (i : nat) (ps' : lm_params F) :
  i_sense_add_group z centers widths x0bounds ilow ihigh ps i = Ok ps' ->
  exists p0 lo hi,
    i_sense_p0 z centers widths ilow ihigh i = Ok p0 /\
    i_sense_bounds x0bounds = Ok (lo, hi) /\
    forall c, In c i_sense_columns ->
      exists q g, params_lookup ps' (pname c i) = Some q /\
        nth_error p0 (col_index i_sense_columns c) = Some g /\
        nth_error lo (col_index i_sense_columns c) = Some (p_min q) /\
        nth_error hi (col_index i_sense_columns c) = Some (p_max q) /\
        p_value q = clip g (p_min q) (p_max q).
Proof.
  unfold i_sense_add_group, i_sense_p0, i_sense_bounds. intros E. rinv E.
  injection E as <-. cbn [rbind].
  eexists _, _, _. split; [reflexivity|]. split; [reflexivity|].
  intros c Hc. simpl in Hc.
  destruct Hc as [<-|[<-|[<-|[<-|[<-|[]]]]]];
    (eexists _, _; split; [lookup_group|]); repeat split.
Qed.

(** Weak localisation: the same for the values, and for the bounds of
    every role but [di2]. *)
Lemma di_group_values z centers widths x0bounds ilow ihigh
    (ps : lm_params F) (i : nat) (ps' : lm_params F) :
  di_add_group z centers widths x0bounds ilow ihigh ps i = Ok ps' ->
  exists p0 lo hi,
    di_p0 z centers widths ilow ihigh i = Ok p0 /\
    di_bounds x0bounds = Ok (lo, hi) /\
    forall c, In c di_columns ->
      exists q g, params_lookup ps' (pname c i) = Some q /\
        nth_error p0 (col_index di_columns c) = Some g /\
        p_value q = clip g (p_min q) (p_max q) /\
        (c <> "di2" ->
         nth_error lo (col_index di_columns c) = Some (p_min q) /\
         nth_error hi (col_index di_columns c) = Some (p_max q)) /\
        (c = "di2" ->
         p_min q = lit (-1#100)%Q /\ p_max q = lit (1#100)%Q /\
         nth_error lo (col_index di_columns c) = Some (lit (-5#100)%Q) /\
         nth_error hi (col_index di_columns c) = Some (lit (5#100)%Q)).
Proof.
  unfold di_add_group, di_p0, di_bounds. intros E. rinv E.
  injection E as <-. cbn [rbind].
  eexists _, _, _. split; [reflexivity|]. split; [reflexivity|].
  intros c Hc. simpl in Hc.
  destruct Hc as [<-|[<-|[<-|[<-|[<-|[]]]]]];
    (eexists _, _; split; [lookup_group|]);
    (split; [reflexivity|]); (split; [reflexivity|]); split; intros Hne;
    try discriminate Hne; try (now contradiction Hne); repeat split.
Qed.

(** Either family: the five [add] of group [i] leave the group built,
    every value being the guess clipped into the bounds of its role. *)
Lemma add_group_built (fam : family) z centers widths x0bounds ilow ihigh
    (ps : lm_params F) (i : nat) (ps' : lm_params F) :
  add_group_of fam z centers widths x0bounds ilow ihigh ps i = Ok ps' ->
  built_as fam z centers widths x0bounds ilow ihigh ps' i.
Proof.
  unfold built_as, guess_of, role_bounds.
  destruct fam;
    unfold add_group_of, p0_of, add_bounds_of, i_sense_add_group, di_add_group,
      i_sense_p0, di_p0, i_sense_add_bounds, di_add_bounds;
    intros E; rinv E; injection E as <-; cbn [rbind];
    intros c Hc; simpl in Hc;
    destruct Hc as [<-|[<-|[<-|[<-|[<-|[]]]]]];
    (eexists _, _, _, _; split; [lookup_group|]); repeat split.
Qed.

End Guesses.

Section BuildPhase.
Context {F : Type} `{FloatOps F}.

Local Abbreviation built_as := (@built_as F _).

Lemma pname_eqb_other (fam : family) (c c' : string) (i j : nat) :
  In c (columns fam) -> In c' (columns fam) -> i <> j ->
  String.eqb (pname c' j) (pname c i) = false.
Proof.
  intros Hc Hc' Hne. apply String.eqb_neq. intros E.
  destruct (pname_inj fam c' c j i Hc' Hc E) as [_ Ej]. congruence.
Qed.

(** Adding group [j] leaves the parameters of the other groups
    alone. *)
Lemma add_group_other (fam : family) z centers widths x0bounds ilow ihigh
    (ps : lm_params F) (j : nat) (ps' : lm_params F) (c : string) (i : nat) :
  add_group_of fam z centers widths x0bounds ilow ihigh ps j = Ok ps' ->
  In c (columns fam) -> i <> j ->
  params_lookup ps' (pname c i) = params_lookup ps (pname c i).
Proof.
  intros E Hc Hne.
  destruct fam; unfold add_group_of, i_sense_add_group, di_add_group in E; rinv E;
    injection E as <-; unfold params_add; rewrite !lookup_set;
    rewrite !(pname_eqb_other _ c _ i j Hc) by (simpl; tauto || exact Hne);
    reflexivity.
Qed.

(** After the build phase every group [i < n] stands as its own five
    [add] left it. *)
Lemma build_phase_values (fam : family) z centers widths x0bounds ilow ihigh
    (n : nat) (ps : lm_params F) :
  rfold (add_group_of fam z centers widths x0bounds ilow ihigh) (range n) [] = Ok ps ->
  forall i, i < n -> built_as fam z centers widths x0bounds ilow ihigh ps i.
Proof.
  intros Hrun i Hi.
  refine (@rfold_each _ _
            (fun i0 acc => built_as fam z centers widths x0bounds ilow ihigh acc i0)
            _ _ _ _ [] ps Hrun i _).
  - intros acc a acc' _ E. now apply (add_group_built fam _ _ _ _ _ _ acc a acc').
  - intros acc a acc' b _ E Hb.
    destruct (Nat.eq_dec b a) as [->|Hne].
    + now apply (add_group_built fam _ _ _ _ _ _ acc a acc').
    + intros c Hc. destruct (Hb c Hc) as (q & g & lo & hi & Hl & Hrest).
      exists q, g, lo, hi. split; [|exact Hrest].
      rewrite <- Hl.
      now apply (add_group_other fam z centers widths x0bounds ilow ihigh acc a acc' c b).
  - apply in_seq. lia.
Qed.

End BuildPhase.

(* ------------------------------------------------------------------ *)
(** ** The joint fit returns *)

Lemma rfold_ok {A B} (I : B -> Prop) (f : B -> A -> result B) (l : list A) :
  (forall acc a, In a l -> I acc -> exists acc', f acc a = Ok acc' /\ I acc') ->
  forall acc, I acc -> exists r, rfold f l acc = Ok r /\ I r.
Proof.
  induction l as [|a l IH]; intros Hf acc Hi; simpl.
  - now exists acc.
  - destruct (Hf acc a (or_introl eq_refl) Hi) as (acc' & -> & Hi'). simpl.
    apply IH; [|exact Hi']. intros acc0 a0 Hin. apply Hf. now right.
Qed.

Lemma rmap_total {A B} (f : A -> result B) (l : list A) :
  (forall a, In a l -> exists b, f a = Ok b) -> exists r, rmap f l = Ok r.
Proof.
  induction l as [|a l IH]; intros Hf; simpl.
  - now exists [].
  - destruct (Hf a (or_introl eq_refl)) as (b & ->). simpl.
    destruct IH as (r & ->); [intros a0 Hin; apply Hf; now right|].
    simpl. now exists (b :: r).
Qed.

Section Returns.
Context {F : Type} `{FloatOps F}.

Local Abbreviation keys := (@keys F).
Local Abbreviation all_named := (@all_named F).
Local Abbreviation exprs_resolve := (@exprs_resolve F).
Local Abbreviation exprs_from := (@exprs_from F).
Local Abbreviation fresh_set := (@fresh_set F).
Local Abbreviation expr_of := (@expr_of F).
Local Abbreviation built_as := (@built_as F _).

Lemma np_max_ok (l : list F) : 0 < length l -> exists v, np_max l = Ok v.
Proof. destruct l; simpl; [lia|]. intros _. eexists; reflexivity. Qed.

Lemma np_min_ok (l : list F) : 0 < length l -> exists v, np_min l = Ok v.
Proof. destruct l; simpl; [lia|]. intros _. eexists; reflexivity. Qed.

Lemma py_index_last {A} (l : list A) :
  0 < length l -> exists a, py_index l (-1)%Z = Ok a.
Proof.
  intros Hl. unfold py_index. cbv zeta. change (-1 <? 0)%Z with true. cbv iota.
  replace ((-1 + Z.of_nat (length l) <? 0)%Z ||
           (Z.of_nat (length l) <=? -1 + Z.of_nat (length l))%Z) with false.
  2:{ symmetry. apply orb_false_iff. split; [apply Z.ltb_ge|apply Z.leb_gt]; lia. }
  destruct (nth_error l (Z.to_nat (-1 + Z.of_nat (length l)))) eqn:E.
  - eexists; reflexivity.
  - apply nth_error_None in E. lia.
Qed.

(** On a row of at least two samples the default window is not empty,
    and every initial guess can be computed. *)
Lemma add_group_returns (fam : family) (z : ndarray F)
    (centers widths x0bounds : list F) (n m : nat) (ps : lm_params F) (i : nat) :
  shape z = [n; m] -> length (buf z) = n * m -> 2 <= m -> i < n ->
  n <= length centers -> n <= length widths -> 2 <= length x0bounds ->
  exists ps',
    match fam with
    | Sensor => i_sense_add_group z centers widths x0bounds
                  (repeat 0%Z n) (repeat (-1)%Z n) ps i
    | WeakLoc => di_add_group z centers widths x0bounds
                  (repeat 0%Z n) (repeat (-1)%Z n) ps i
    end = Ok ps'.
Proof.
  intros Hs Hb Hm Hi Hc Hw Hx.
  set (d := lit 0%Q).
  destruct (default_window z z centers n m i Hs Hb Hi) as (_ & Hwin & Hlen).
  assert (Hmax : exists v, np_max (firstn (m - 1) (row m (buf z) i)) = Ok v)
    by (apply np_max_ok; lia).
  assert (Hmin : exists v, np_min (firstn (m - 1) (row m (buf z) i)) = Ok v)
    by (apply np_min_ok; lia).
  destruct Hmax as (mx & Hmax). destruct Hmin as (mn & Hmin).
  assert (Ec : py_index centers (Z.of_nat i) = Ok (nth i centers d))
    by (apply py_index_nth; lia).
  assert (Ew : py_index widths (Z.of_nat i) = Ok (nth i widths d))
    by (apply py_index_nth; lia).
  assert (E0 : py_index x0bounds 0%Z = Ok (nth 0 x0bounds d))
    by (apply (@py_index_nth F x0bounds 0 d); lia).
  assert (E1 : py_index x0bounds 1%Z = Ok (nth 1 x0bounds d))
    by (apply (@py_index_nth F x0bounds 1 d); lia).
  assert (El : py_index (repeat 0%Z n) (Z.of_nat i) = Ok 0%Z).
  { rewrite (@py_index_nth Z (repeat 0%Z n) i 0%Z) by (now rewrite repeat_length).
    now rewrite nth_repeat_lt. }
  assert (Eh : py_index (repeat (-1)%Z n) (Z.of_nat i) = Ok (-1)%Z).
  { rewrite (@py_index_nth Z (repeat (-1)%Z n) i 0%Z) by (now rewrite repeat_length).
    now rewrite nth_repeat_lt. }
  pose proof (@row_length F m n i (buf z) Hb Hi) as Hrow.
  destruct fam.
  - unfold i_sense_add_group, i0_guess, i2_guess.
    rewrite Ec, E0, E1, Ew, !Hwin. cbn [rbind]. rewrite Hmax, Hmin. cbn [rbind].
    eexists; reflexivity.
  - assert (Ea : exists a, item2 z i 0%Z = Ok a).
    { unfold item2, row2. rewrite Hs. apply Nat.ltb_lt in Hi. rewrite Hi. cbn [rbind].
      exists (nth 0 (row m (buf z) i) d).
      apply (@py_index_nth F (row m (buf z) i) 0 d). rewrite Hrow. lia. }
    assert (Eb : exists b, item2 z i (-1)%Z = Ok b).
    { unfold item2, row2. rewrite Hs. apply Nat.ltb_lt in Hi. rewrite Hi. cbn [rbind].
      apply py_index_last. fold (row m (buf z) i). rewrite Hrow. lia. }
    destruct Ea as (a & Ea). destruct Eb as (b & Eb).
    unfold di_add_group, di0_guess, di2_guess.
    rewrite Ec, E0, E1, Ew, !Hwin, El, Eh. cbn [rbind].
    rewrite Hmin, Hmax, Ea, Eb. cbn [rbind].
    eexists; reflexivity.
Qed.

Lemma lookup_keys (ps : lm_params F) (k : string) :
  In k (keys ps) -> exists q, params_lookup ps k = Some q.
Proof.
  induction ps as [|[k0 q0] ps IH]; simpl; [intros []|].
  destruct (String.eqb k0 k) eqn:E; [intros _; now exists q0|].
  intros [E0|Hin]; [subst; now rewrite String.eqb_refl in E|]. now apply IH.
Qed.

Lemma all_named_set (fam : family) (n : nat) (ps : lm_params F) (k : string)
    (q : lm_param F) :
  all_named fam n ps -> all_named fam n (params_set ps k q).
Proof.
  intros Ha c i Hc Hi. rewrite lookup_set.
  destruct (String.eqb k (pname c i)); [now exists q|now apply Ha].
Qed.

Lemma apply_constrain_returns (fam : family) (cl : list string) (n : nat)
    (ps : lm_params F) :
  (forall q, In q cl -> In q (columns fam)) -> all_named fam n ps ->
  exists ps', apply_constrain cl n ps = Ok ps' /\ all_named fam n ps'.
Proof.
  intros Hcl Ha. unfold apply_constrain.
  apply (@rfold_ok _ _ (all_named fam n)); [|exact Ha].
  intros acc p Hp Hacc.
  apply (@rfold_ok _ _ (all_named fam n)); [|exact Hacc].
  intros acc' j Hj Hacc'. apply in_seq in Hj.
  destruct (Hacc' p j (Hcl p Hp) ltac:(lia)) as (q & Hq).
  unfold set_expr, params_get. rewrite Hq. cbn [rbind].
  eexists; split; [reflexivity|]. now apply all_named_set.
Qed.

Lemma apply_fix_returns (fam : family) (fl : list string) (n : nat)
    (ps : lm_params F) :
  (forall q, In q fl -> In q (columns fam)) -> all_named fam n ps ->
  exists ps', apply_fix fl n ps = Ok ps' /\ all_named fam n ps'.
Proof.
  intros Hfl Ha. unfold apply_fix.
  apply (@rfold_ok _ _ (all_named fam n)); [|exact Ha].
  intros acc p Hp Hacc.
  apply (@rfold_ok _ _ (all_named fam n)); [|exact Hacc].
  intros acc' j Hj Hacc'. apply in_seq in Hj.
  destruct (Hacc' p j (Hfl p Hp) ltac:(lia)) as (q & Hq).
  unfold set_fixed, params_get. rewrite Hq. cbn [rbind].
  eexists; split; [reflexivity|]. now apply all_named_set.
Qed.

Lemma valuesdict_keys (ps : lm_params F) (vd : list (string * F)) :
  valuesdict ps = Ok vd -> map fst vd = keys ps.
Proof.
  unfold valuesdict, keys. generalize ps at 2 3. intros l. revert vd.
  induction l as [|[k0 q0] l IH]; intros vd; simpl.
  - now intros E; injection E as <-.
  - destruct (param_value ps k0) as [v0|]; cbn [rbind]; [|discriminate].
    destruct (rmap _ l) as [vd'|] eqn:E1; cbn [rbind]; [|discriminate].
    intros E; injection E as <-. simpl. f_equal. now apply IH.
Qed.

Lemma dict_get_keys (vd : list (string * F)) (k : string) :
  In k (map fst vd) -> exists v, dict_get vd k = Ok v.
Proof.
  unfold dict_get. induction vd as [|[k0 v0] vd IH]; simpl; [intros []|].
  destruct (String.eqb k0 k) eqn:E; [intros _; now exists v0|].
  intros [E0|Hin]; [subst; now rewrite String.eqb_refl in E|]. now apply IH.
Qed.

Lemma lookup_in_keys (ps : lm_params F) (k : string) (q : lm_param F) :
  params_lookup ps k = Some q -> In k (keys ps).
Proof.
  induction ps as [|[k0 q0] ps IH]; simpl; [discriminate|].
  destruct (String.eqb k0 k) eqn:E.
  - apply String.eqb_eq in E. now left.
  - intros Hl. right. now apply IH.
Qed.

(** When every expression resolves, every parameter has a value. *)
Lemma valuesdict_returns (ps : lm_params F) :
  exprs_resolve ps ->
  exists vd, valuesdict ps = Ok vd /\
             forall k q, params_lookup ps k = Some q -> exists v, dict_get vd k = Ok v.
Proof.
  intros Hres.
  assert (Hval : forall k, In k (keys ps) -> exists v, param_value ps k = Ok v).
  { intros k Hk. destruct (lookup_keys ps k Hk) as (q & Hq).
    destruct (p_expr q) as [e|] eqn:He.
    - destruct (Hres k q e Hq He) as (q0 & Hq0 & He0).
      exists (p_value q0). now apply (param_value_tied ps k e q q0).
    - exists (p_value q). now apply param_value_own. }
  destruct (rmap_total
              (fun kp : string * lm_param F =>
                 rbind (param_value ps (fst kp)) (fun v => Ok (fst kp, v))) ps)
    as (vd & Hvd).
  { intros [k q] Hin. cbn [fst].
    destruct (Hval k) as (v & ->);
      [unfold keys; change k with (fst (k, q)); now apply in_map|].
    cbn [rbind]. eexists; reflexivity. }
  exists vd. split; [exact Hvd|].
  intros k q Hq. apply dict_get_keys.
  rewrite (valuesdict_keys ps vd Hvd). now apply (lookup_in_keys ps k q).
Qed.

Lemma tabulate_returns (cols : list string) (n : nat) (vd : list (string * F)) :
  (forall c i, In c cols -> i < n -> exists v, dict_get vd (pname c i) = Ok v) ->
  exists t, tabulate cols n vd = Ok t.
Proof.
  intros Hd. unfold tabulate.
  destruct (@rfold_ok nat (list (list F)) (fun _ => True)
              (fun df i => rbind (rmap (fun c => dict_get vd (pname c i)) cols)
                                 (fun row0 => Ok (df ++ [row0])))
              (range n)) with (acc := @nil (list F)) as (t & Ht & _).
  - intros acc i Hi _. apply in_seq in Hi.
    destruct (rmap_total (fun c => dict_get vd (pname c i)) cols) as (r & ->).
    + intros c Hc. apply Hd; [exact Hc|lia].
    + cbn [rbind]. eexists; split; [reflexivity|exact I].
  - exact I.
  - now exists t.
Qed.

End Returns.

Section JointReturns.
Context {F : Type} `{FloatOps F}.
Variable lm_engine :
  (list F -> result (list F)) -> list (F * F * F) -> option (list F).
Variable curve_fit :
  (list F -> list F -> result (list F)) ->
  list F -> list F -> list F -> list F -> list F -> option (list F).

(** The optimiser returns. *)
Hypothesis lm_engine_returns : forall f init, exists v, lm_engine f init = Some v.

Local Abbreviation checked := (@checked F).

Local Abbreviation keys := (@keys F).
Local Abbreviation all_named := (@all_named F).
Local Abbreviation exprs_resolve := (@exprs_resolve F).
Local Abbreviation exprs_from := (@exprs_from F).
Local Abbreviation fresh_set := (@fresh_set F).
Local Abbreviation expr_of := (@expr_of F).
Local Abbreviation built_as := (@built_as F _).

(** The parameter set handed to the optimiser, and what the optimiser
    makes of it, has a value for every parameter. *)
Lemma joint_params_resolve (fam : family) (cl fl : list string) (n : nat)
    (ps0 ps1 ps2 : lm_params F) (v : list F) :
  0 < n ->
  (forall q, In q cl -> In q (columns fam)) ->
  fresh_set ps0 -> all_named fam n ps2 ->
  apply_constrain cl n ps0 = Ok ps1 ->
  apply_fix fl n ps1 = Ok ps2 ->
  exprs_resolve (assign (var_names ps2) v ps2) /\
  all_named fam n (assign (var_names ps2) v ps2).
Proof.
  intros Hn Hcl Hfresh Hnamed Hc Hf.
  destruct (tied_exprs fam cl fl n ps0 ps1 ps2 Hcl Hfresh Hc Hf)
    as (_ & _ & Hzero & _ & _).
  destruct Hfresh as [Hnd Hne].
  destruct (constrain_facts cl n ps0 ps1 Hc Hnd (no_exprs_from cl ps0 Hne))
    as (Hnd1 & Hfrom & _ & _).
  destruct (fix_facts fl n ps1 ps2 Hf Hnd1) as (_ & Hex & _ & _).
  set (res := assign (var_names ps2) v ps2).
  assert (Hkeep : forall k q2, params_lookup ps2 k = Some q2 ->
            exists q, params_lookup res k = Some q /\ p_expr q = p_expr q2).
  { intros k q2 Hq2. pose proof (assign_lookup (var_names ps2) v ps2 k) as Ha.
    rewrite Hq2 in Ha. destruct Ha as (q & Hq & (_ & _ & _ & He) & _). now exists q. }
  split.
  - intros k q e Hq He.
    pose proof (assign_lookup (var_names ps2) v ps2 k) as Ha. fold res in Ha.
    destruct (params_lookup ps2 k) as [q2|] eqn:Hq2; [|congruence].
    destruct Ha as (q' & Hq' & (_ & _ & _ & He') & _).
    assert (q' = q) by congruence. subst q'.
    pose proof (Hex k) as Hx. unfold expr_of in Hx.
    rewrite Hq2 in Hx. cbn [option_map] in Hx.
    destruct (params_lookup ps1 k) as [q1|] eqn:Hq1; [|discriminate Hx].
    cbn [option_map] in Hx.
    destruct (Hfrom k q1 e Hq1 ltac:(congruence)) as (p & j & Hp & _ & _ & ->).
    destruct (Hnamed p 0 (Hcl p Hp) Hn) as (q0 & Hq0).
    destruct (Hkeep _ q0 Hq0) as (qr & Hqr & Her).
    exists qr. split; [exact Hqr|]. rewrite Her. apply (Hzero p (Hcl p Hp) q0 Hq0).
  - intros c i Hc' Hi. destruct (Hnamed c i Hc' Hi) as (q2 & Hq2).
    destruct (Hkeep _ q2 Hq2) as (q & Hq & _). now exists q.
Qed.

(** On [n > 0] datasets of at least two samples each, without [span],
    with a center and a width per dataset and two [x0] bounds, and
    with role names in [constrain] and [fix], the joint path returns a
    table. *)
Lemma joint_fit_returns (fam : family) (centers widths x0bounds : list F)
    (constrain fix_ : option (list string)) (x z : ndarray F) (n m : nat)
    (s : state F) :
  shape z = [n; m] -> length (buf z) = n * m -> 2 <= m -> 0 < n ->
  n <= length centers -> n <= length widths -> 2 <= length x0bounds ->
  joint_mode fam constrain fix_ = true ->
  (forall q, In q (constrain_items constrain) -> In q (columns fam)) ->
  (forall q, In q (fix_items fam fix_) -> In q (columns fam)) ->
  exists t s',
    fit_body lm_engine curve_fit fam centers widths x0bounds constrain fix_ None x z n s
    = (Ok t, s').
Proof.
  intros Hs Hb Hm Hn Hc Hw Hx Hj Hcl Hfl.
  set (add := match fam with
              | Sensor => i_sense_add_group z centers widths x0bounds
                            (repeat 0%Z n) (repeat (-1)%Z n)
              | WeakLoc => di_add_group z centers widths x0bounds
                            (repeat 0%Z n) (repeat (-1)%Z n)
              end).
  destruct (@rfold_ok _ _ fresh_set add (range n)) with (acc := @nil (string * lm_param F))
    as (ps0 & Hbuild & Hfresh).
  { intros acc i Hi Hacc. apply in_seq in Hi.
    destruct (add_group_returns fam z centers widths x0bounds n m acc i Hs Hb Hm)
      as (ps' & Hps'); try lia.
    exists ps'. unfold add. split; [destruct fam; exact Hps'|].
    destruct fam;
      [apply (i_sense_add_group_fresh _ _ _ _ _ _ _ _ _ Hps' Hacc)
      |apply (di_add_group_fresh _ _ _ _ _ _ _ _ _ Hps' Hacc)]. }
  { apply fresh_set_nil. }
  assert (Hnamed0 : all_named fam n ps0).
  { intros c i Hc' Hi.
    assert (Hbuild' : rfold (add_group_of fam z centers widths x0bounds
                               (repeat 0%Z n) (repeat (-1)%Z n)) (range n) [] = Ok ps0)
      by (destruct fam; exact Hbuild).
    destruct (build_phase_values fam z centers widths x0bounds _ _ n ps0 Hbuild' i Hi c Hc')
      as (q & _ & _ & _ & Hl & _).
    now exists q. }
  destruct (apply_constrain_returns fam (constrain_items constrain) n ps0 Hcl Hnamed0)
    as (ps1 & Hcon & Hnamed1).
  destruct (apply_fix_returns fam (fix_items fam fix_) n ps1 Hfl Hnamed1)
    as (ps2 & Hfix & Hnamed2).
  assert (Hfinish : forall v, exists t,
            rbind (valuesdict (assign (var_names ps2) v ps2))
                  (tabulate (columns fam) n) = Ok t).
  { intros v.
    destruct (joint_params_resolve fam _ _ n ps0 ps1 ps2 v Hn Hcl Hfresh Hnamed2 Hcon Hfix)
      as (Hres & Hnamed).
    destruct (valuesdict_returns _ Hres) as (vd & -> & Hget). cbn [rbind].
    apply tabulate_returns. intros c i Hc' Hi.
    destruct (Hnamed c i Hc' Hi) as (q & Hq). apply (Hget _ q Hq). }
  unfold add in Hbuild. clear add.
  destruct fam; cbn [joint_mode fix_items columns] in *;
    unfold fit_body, i_sense_fit_body, di_fit_body, bind, lift, emit, fit_window;
    rewrite Hj; cbv beta iota zeta delta [fst snd trace heap next];
    rewrite Hbuild; cbv beta iota zeta.
  - rewrite apply_fix_nil in Hfix. injection Hfix as <-.
    unfold constrain_items in Hcon. rewrite Hj in Hcon. rewrite Hcon.
    cbv beta iota zeta delta [fst snd trace heap next]. unfold minimize.
    match goal with
    | |- context [lm_engine ?f ?i] => destruct (lm_engine_returns f i) as (v & ->)
    end.
    cbv beta iota zeta. destruct (Hfinish v) as (t & Ht).
    destruct (valuesdict (assign (var_names ps1) v ps1)) as [vd|]; [|discriminate Ht].
    cbn [rbind] in Ht. cbv beta iota zeta. rewrite Ht.
    eexists _, _. reflexivity.
  - assert (Ec : (if truthy_seq constrain
                  then apply_constrain (seq_items constrain) n ps0 else Ok ps0) = Ok ps1).
    { unfold constrain_items in Hcon. destruct (truthy_seq constrain); [exact Hcon|].
      now rewrite apply_constrain_nil in Hcon. }
    rewrite Ec. cbv beta iota zeta.
    assert (Ef : (if truthy_seq fix_
                  then apply_fix (seq_items fix_) n ps1 else Ok ps1) = Ok ps2).
    { destruct (truthy_seq fix_); [exact Hfix|]. now rewrite apply_fix_nil in Hfix. }
    rewrite Ef. cbv beta iota zeta delta [fst snd trace heap next]. unfold minimize.
    match goal with
    | |- context [lm_engine ?f ?i] => destruct (lm_engine_returns f i) as (v & ->)
    end.
    cbv beta iota zeta. destruct (Hfinish v) as (t & Ht).
    destruct (valuesdict (assign (var_names ps2) v ps2)) as [vd|]; [|discriminate Ht].
    cbn [rbind] in Ht. cbv beta iota zeta. rewrite Ht.
    eexists _, _. reflexivity.
Qed.

(** On a two-dimensional [z] and an [x] of matching shape the checks
    pass control to the body, with [z] as the caller holds it. *)
Lemma checked_runs (xr zr : nat) k (s : state F) (n m : nat) :
  shape (heap s zr) = [n; m] ->
  shape_mismatch [n; m] (shape (heap s xr)) = false ->
  shape (heap s xr) <> [] -> zr < next s ->
  exists x' s1, checked xr zr k s = k x' (heap s zr) n s1.
Proof.
  intros Hs Hok Hx Hz.
  assert (Hfresh : (zr =? next s) = false) by (apply Nat.eqb_neq; lia).
  unfold checked, z_dimensions, x_rows, bind, get_obj. rewrite Hs. simpl.
  unfold shape_mismatch in Hok. simpl in Hok.
  destruct (shape (heap s xr)) as [|e0 [|e1 xsh]]; [congruence| |]; simpl in *.
  - rewrite Hfresh. eexists _, _. reflexivity.
  - destruct (e0 =? 1); simpl in *.
    + rewrite Hfresh. eexists _, _. reflexivity.
    + destruct (e0 =? n); simpl in *; [|discriminate Hok].
      eexists _, _. reflexivity.
Qed.

(** Either routine returns a table on such an input: [n > 0] datasets
    of [m >= 2] samples in a two-dimensional [z], an [x] of one row or
    of [n] rows, no [span], a center and a width per dataset, two [x0]
    bounds, and role names in [constrain] and [fix], one of them not
    empty. *)
Lemma joint_fit_simultaneous_returns (fam : family) (xr zr : nat)
    (centers widths x0bounds : list F) (constrain fix_ : option (list string))
    (s : state F) (n m : nat) :
  shape (heap s zr) = [n; m] -> length (buf (heap s zr)) = n * m ->
  2 <= m -> 0 < n ->
  shape_mismatch [n; m] (shape (heap s xr)) = false ->
  shape (heap s xr) <> [] -> zr < next s ->
  n <= length centers -> n <= length widths -> 2 <= length x0bounds ->
  joint_mode fam constrain fix_ = true ->
  (forall q, In q (constrain_items constrain) -> In q (columns fam)) ->
  (forall q, In q (fix_items fam fix_) -> In q (columns fam)) ->
  exists t s',
    fit_simultaneous fam lm_engine curve_fit xr zr centers widths x0bounds
      constrain fix_ None s = (Ok t, s').
Proof.
  intros Hs Hb Hm Hn Hok Hx Hz Hc Hw Hx0 Hj Hcl Hfl.
  rewrite fit_simultaneous_checked.
  destruct (checked_runs xr zr
              (fit_body lm_engine curve_fit fam centers widths x0bounds
                 constrain fix_ None) s n m Hs Hok Hx Hz) as (x' & s1 & ->).
  now apply (joint_fit_returns fam centers widths x0bounds constrain fix_
               x' (heap s zr) n m s1).
Qed.

End JointReturns.

(* ------------------------------------------------------------------ *)
(** ** Tied roles: the claim *)

Section TableClaims.
Context {F : Type} `{FloatOps F}.
Variable lm_engine :
  (list F -> result (list F)) -> list (F * F * F) -> option (list F).
Variable curve_fit :
  (list F -> list F -> result (list F)) ->
  list F -> list F -> list F -> list F -> list F -> option (list F).

(** C2.  In both routines, when [constrain] is a set of role names
    containing the role [p]: every table the joint fit returns has one
    row per dataset, and every row holds, in the column of [p], the
    value row 0 holds there, since group [i > 0]'s parameter is tied by
    an expression to group 0's, whatever the optimiser does; and the
    joint fit does return a table when the optimiser returns, on [n > 0]
    datasets of at least two samples in a two-dimensional [z], with an
    [x] of matching shape, no [span], a center and a width per dataset,
    two [x0] bounds and role names in [fix]. *)
Theorem tied_role_equal_across_rows (fam : family) (xr zr : nat)
    (centers widths x0bounds : list F) (cl : list string)
    (fix_ : option (list string)) (s : state F) (p : string) :
  (forall q, In q cl -> In q (columns fam)) ->
  In p cl ->
  (forall span t s',
     fit_simultaneous fam lm_engine curve_fit xr zr centers widths x0bounds
       (Some cl) fix_ span s = (Ok t, s') ->
     length t = z_rows (shape (heap s zr)) /\
     forall i, i < length t ->
       exists v, cell (columns fam) t i p = Some v /\
                 cell (columns fam) t 0 p = Some v) /\
  (forall n m,
     shape (heap s zr) = [n; m] -> length (buf (heap s zr)) = n * m ->
     2 <= m -> 0 < n ->
     shape_mismatch [n; m] (shape (heap s xr)) = false ->
     shape (heap s xr) <> [] -> zr < next s ->
     n <= length centers -> n <= length widths -> 2 <= length x0bounds ->
     (forall q, In q (fix_items fam fix_) -> In q (columns fam)) ->
     (forall f init, exists v, lm_engine f init = Some v) ->
     exists t s',
       fit_simultaneous fam lm_engine curve_fit xr zr centers widths x0bounds
         (Some cl) fix_ None s = (Ok t, s')).
Proof.
  intros Hcl Hp. split.
  - intros span t s' Hrun.
    apply (tied_rows lm_engine curve_fit fam xr zr centers widths x0bounds cl fix_
             span s s' t p Hcl Hp Hrun).
  - intros n m Hs Hb Hm Hn Hok Hx Hz Hc Hw Hx0 Hfl Hret.
    assert (Htr : truthy_seq (Some cl) = true)
      by (destruct cl; [contradiction|reflexivity]).
    apply (joint_fit_simultaneous_returns lm_engine curve_fit Hret fam xr zr
             centers widths x0bounds (Some cl) fix_ s n m); try assumption.
    + destruct fam; cbn [joint_mode]; rewrite Htr; reflexivity.
    + unfold constrain_items. rewrite Htr. exact Hcl.
Qed.

End TableClaims.

(* ------------------------------------------------------------------ *)
(** ** Worked inputs on the extended reals *)

Import XReal.

Lemma xreal_order : @FloatOrder xreal xreal_ops.
Proof.
  constructor.
  - intros [| [|] | x]; simpl; try reflexivity.
    unfold Rltb. destruct (Rlt_dec x x); [lra|reflexivity].
  - intros [| [|] | x] [| [|] | y] [| [|] | z]; simpl;
      try discriminate; try reflexivity.
    unfold Rltb.
    destruct (Rlt_dec x y), (Rlt_dec y z), (Rlt_dec x z);
      try discriminate; try reflexivity; lra.
  - intros [| [|] | x] [| [|] | y] [| [|] | z]; simpl;
      try discriminate; try reflexivity.
    unfold Rltb.
    destruct (Rlt_dec x y), (Rlt_dec y z), (Rlt_dec x z);
      try discriminate; try reflexivity; lra.
  - reflexivity.
  - intros [| [|] | x]; reflexivity.
Qed.


(** C1, at a failing input.  One dataset of three samples, no [span]:
    both routines hand two samples to the optimiser, [x = 0, 1] and
    [z = 1, 2]; the sample at the last index is left out of the fit
    and of the initial-guess statistics.  On the joint path the bounds
    are [ilow = [0]], [ihigh = [-1]] and the residual has two
    entries. *)
Theorem default_window_drops_last_sample :
  let s := store2 x3 z13 in
  (exists p0 lo hi,
     trace (snd (i_sense_fit_simultaneous idle_engine idle_curve_fit 0 1
                   [fin 1] [fin 1] [fin 0; fin 2] None None s))
     = [EvCurveFit [fin 0; fin 1] [fin 1; fin 2] p0 lo hi]) /\
  (exists p0 lo hi,
     trace (snd (di_fit_simultaneous idle_engine idle_curve_fit 0 1
                   [fin 1] [fin 1] [fin 0; fin 2] None None None s))
     = [EvCurveFit [fin 0; fin 1] [fin 1; fin 2] p0 lo hi]) /\
  (exists ps r,
     trace (snd (i_sense_fit_simultaneous idle_engine idle_curve_fit 0 1
                   [fin 1] [fin 1] [fin 0; fin 2] (Some ["beta"]) None s))
     = [EvParameters; EvMinimize ps [0%Z] [(-1)%Z]] /\
     i_sense_objective ps (np_tile x3 1) z13 [0%Z] [(-1)%Z] = Ok r /\
     length r = 2).
Proof.
  cbv zeta. split; [|split].
  - eexists _, _, _. lazy. reflexivity.
  - eexists _, _, _. lazy. reflexivity.
  - eexists _, _. split; [lazy; reflexivity|]. split; [lazy; reflexivity|reflexivity].
Qed.

(** C7, at a failing input.  For the role [di2] the joint build phase
    of [di_fit_simultaneous] bounds the parameter by [-0.01] and
    [0.01], while the independent fit of the same data bounds it by
    [-0.05] and [0.05]. *)
Theorem di2_bounds_differ :
  let s := store2 x3 z13 in
  exists ps ilow ihigh q xdata ydata p0 lower upper,
    trace (snd (di_fit_simultaneous idle_engine idle_curve_fit 0 1
                  [fin 1] [fin 1] [fin 0; fin 2] (Some ["x0"]) None None s))
    = [EvParameters; EvMinimize ps ilow ihigh] /\
    params_lookup ps "di2_0" = Some q /\
    p_min q = lit (-1#100)%Q /\ p_max q = lit (1#100)%Q /\
    trace (snd (di_fit_simultaneous idle_engine idle_curve_fit 0 1
                  [fin 1] [fin 1] [fin 0; fin 2] None None None s))
    = [EvCurveFit xdata ydata p0 lower upper] /\
    nth_error lower 3 = Some (lit (-5#100)%Q) /\
    nth_error upper 3 = Some (lit (5#100)%Q) /\
    lit (-1#100)%Q <> (lit (-5#100)%Q : xreal) /\
    lit (1#100)%Q <> (lit (5#100)%Q : xreal).
Proof.
  cbv zeta. eexists _, _, _, _, _, _, _, _, _.
  split; [lazy; reflexivity|].
  split; [lazy; reflexivity|].
  split; [reflexivity|]. split; [reflexivity|].
  split; [lazy; reflexivity|].
  split; [reflexivity|]. split; [reflexivity|].
  split; simpl; unfold Q2R; simpl; intros E; injection E as E; lra.
Qed.

(** C9, at a failing input.  On one-dimensional data, with two bounds,
    [get_subset] fails with a [TypeError] on calling the constant
    [NotImplemented]; no "not implemented" error is raised. *)
Theorem get_subset_1d_type_error :
  let data := mk_data [fin 0; fin 1; fin 2] [fin 0] (arr1 [fin 1; fin 2; fin 3]) in
  ndim (data2 data) = 1 /\
  get_subset data [None; None]
  = Raise (TypeError "'NotImplementedType' object is not callable") /\
  get_subset data [Some (fin 0); Some (fin 2)]
  = Raise (TypeError "'NotImplementedType' object is not callable") /\
  forall msg, get_subset data [None; None] <> Raise (NotImplementedError msg).
Proof.
  cbv zeta. split; [reflexivity|]. split; [reflexivity|]. split.
  - unfold get_subset. cbn -[fnonzero].
    assert (E0 : fnonzero (fin 0) = false).
    { simpl. unfold Reqb. destruct (Req_dec_T (IZR 0) 0); [reflexivity|lra]. }
    assert (E2 : fnonzero (fin 2) = true).
    { simpl. unfold Reqb. destruct (Req_dec_T (IZR 2) 0); [lra|reflexivity]. }
    rewrite E0, E2. reflexivity.
  - intros msg. discriminate.
Qed.

Lemma objective_concatenates_witness :
  objective Sensor x23 two_groups x23 z23 [0%Z; 0%Z] [(-1)%Z; (-1)%Z]
  = Ok (concat (map (window_residual Sensor (fun _ i => fin (Z.of_nat (S i))) 3 x23 z23
                       [0%Z; 0%Z] [(-1)%Z; (-1)%Z]) (range 2))).
Proof.
  apply (@objective_concatenates xreal xreal_ops Sensor two_groups x23 z23
           [0%Z; 0%Z] [(-1)%Z; (-1)%Z] 2 3 (fun _ i => fin (Z.of_nat (S i)))).
  - lia.
  - reflexivity.
  - reflexivity.
  - reflexivity.
  - reflexivity.
  - reflexivity.
  - reflexivity.
  - intros c i Hc Hi.
    assert (Hi' : i = 0 \/ i = 1) by lia.
    simpl in Hc.
    destruct Hi' as [-> | ->];
      destruct Hc as [<-|[<-|[<-|[<-|[<-|[]]]]]]; reflexivity.
Defined.

Lemma upper_engine_returns :
  forall f init, exists v, upper_engine f init = Some v.
Proof. intros f init. eexists. reflexivity. Defined.

Lemma tied_role_equal_across_rows_witness :
  exists t s',
    fit_simultaneous Sensor upper_engine idle_curve_fit 0 1
      [fin 1; fin 2] [fin 1; fin 1] [fin 0; fin 3] (Some ["beta"]) None None
      (store2 x3 z23) = (Ok t, s') /\
    length t = 2 /\
    forall i, i < length t ->
      exists v, cell (columns Sensor) t i "beta" = Some v /\
                cell (columns Sensor) t 0 "beta" = Some v.
Proof.
  destruct (@tied_role_equal_across_rows xreal xreal_ops upper_engine idle_curve_fit
              Sensor 0 1 [fin 1; fin 2] [fin 1; fin 1] [fin 0; fin 3] ["beta"] None
              (store2 x3 z23) "beta") as [Hrows Hreturns].
  - intros q [<-|[]]. simpl. tauto.
  - simpl. tauto.
  - destruct (Hreturns 2 3) as (t & s' & Hrun).
    + reflexivity.
    + reflexivity.
    + lia.
    + lia.
    + reflexivity.
    + discriminate.
    + simpl. lia.
    + simpl. lia.
    + simpl. lia.
    + simpl. lia.
    + intros q [].
    + apply upper_engine_returns.
    + exists t, s'. split; [exact Hrun|]. apply (Hrows None t s' Hrun).
Defined.

Lemma window_by_nearest_neighbour_witness :
  exists ilow ihigh,
    fit_window x13_unsorted [fin 1] (Some (fin 1)) 1 = Ok (ilow, ihigh) /\
    length ilow = 1 /\ length ihigh = 1 /\
    forall i, i < 1 ->
      exists jl jh,
        nth i ilow 0%Z = Z.of_nat jl /\ nth i ihigh 0%Z = Z.of_nat jh /\
        nearest (row 3 (buf x13_unsorted) i) (fsub (nth i [fin 1] (lit 0%Q)) (fin 1)) jl /\
        nearest (row 3 (buf x13_unsorted) i) (fadd (nth i [fin 1] (lit 0%Q)) (fin 1)) jh.
Proof.
  apply (@window_by_nearest_neighbour xreal xreal_ops xreal_order
           x13_unsorted [fin 1] (fin 1) 1 3).
  - reflexivity.
  - reflexivity.
  - reflexivity.
  - simpl. unfold Reqb. destruct (Req_dec_T (IZR 1) 0); [lra|reflexivity].
  - intros i Hi. assert (i = 0) as -> by lia. cbv zeta.
    repeat split; exists 0; (split; [simpl; lia|]); split; reflexivity.
Defined.

Lemma caller_arrays_after_call_witness :
  let s := store2 x3 (arr1 [fin 1; fin 2; fin 3]) in
  let out := fit_simultaneous Sensor idle_engine idle_curve_fit 0 1
               [fin 1] [fin 1] [fin 0; fin 2] None None None s in
  (forall m, shape (heap s 1) = [m] ->
             heap (snd out) 1 = mk_nd [1; m] (buf (heap s 1))) /\
  (forall n m, shape (heap s 1) = [n; m] -> heap (snd out) 1 = heap s 1) /\
  heap (snd out) 0 = heap s 0 /\
  (forall r, r < next s -> r <> 1 -> heap (snd out) r = heap s r).
Proof.
  apply (@caller_arrays_after_call xreal xreal_ops idle_engine idle_curve_fit
           Sensor 0 1 [fin 1] [fin 1] [fin 0; fin 2] None None None
           (store2 x3 (arr1 [fin 1; fin 2; fin 3]))).
  - lia.
  - simpl. lia.
  - simpl. lia.
Defined.

(* ================================================================== *)
(** * Further properties of the code *)
(* ------------------------------------------------------------------ *)
(** ** Moving averages *)

Lemma slice_bound_nat (n a : nat) : slice_bound n (Z.of_nat a) = Nat.min a n.
Proof.
  unfold slice_bound. cbv zeta. destruct (Z.of_nat a <? 0)%Z eqn:E0; lia.
Qed.

Lemma slice_bound_neg (n a : nat) :
  1 <= a -> slice_bound n (- Z.of_nat a) = n - a.
Proof.
  intros Ha. unfold slice_bound. cbv zeta. destruct (- Z.of_nat a <? 0)%Z eqn:E0; lia.
Qed.

Lemma slice_bound_pred (n a : nat) :
  1 <= a -> slice_bound n (Z.of_nat a - 1) = Nat.min (a - 1) n.
Proof.
  intros Ha. replace (Z.of_nat a - 1)%Z with (Z.of_nat (a - 1)) by lia.
  apply slice_bound_nat.
Qed.

Section WindowFacts.
Context {E : Type}.
Variables (add sub : E -> E -> E) (scale : E -> E).

Lemma cumsum_from_length (acc : E) (l : list E) :
  length (cumsum_from add acc l) = length l.
Proof. revert acc. induction l as [|a l IH]; intros acc; simpl; [reflexivity|]. now rewrite IH. Qed.

Lemma cumsum_length (l : list E) : length (cumsum add l) = length l.
Proof. destruct l; simpl; [reflexivity|]. now rewrite cumsum_from_length. Qed.

Lemma zip_els_length (f : E -> E -> E) (l1 l2 : list E) :
  length (zip_els f l1 l2) = Nat.min (length l1) (length l2).
Proof.
  revert l2. induction l1 as [|a l1 IH]; intros [|b l2]; simpl; try reflexivity.
  now rewrite IH.
Qed.

Lemma nth_zip_els (f : E -> E -> E) (l1 l2 : list E) (i : nat) (d : E) :
  i < length l1 -> i < length l2 ->
  nth i (zip_els f l1 l2) d = f (nth i l1 d) (nth i l2 d).
Proof.
  revert l2 i. induction l1 as [|a l1 IH]; intros [|b l2] [|i]; simpl; try lia; auto.
  intros. apply IH; lia.
Qed.

Lemma skipn_pred_firstn (a : nat) (c : list E) (v : E) (rest : list E) :
  1 <= a -> skipn (a - 1) c = v :: rest -> skipn (a - 1) (firstn a c) = [v].
Proof.
  intros Ha Hs.
  replace a with ((a - 1) + 1) at 2 by lia.
  rewrite <- firstn_skipn_comm, Hs. reflexivity.
Qed.

(** For a window of at least one entry the three statements succeed
    and compute [window_means]. *)
Lemma windowed_mean_closed (l : list E) (a : nat) :
  1 <= a ->
  windowed_mean add sub scale l (Z.of_nat a) = Ok (window_means add sub scale l a).
Proof.
  intros Ha. unfold windowed_mean, window_means.
  set (c := cumsum add l).
  assert (Hc : length c = length l) by apply cumsum_length.
  unfold py_slice_from at 1. unfold py_slice.
  rewrite slice_bound_nat, slice_bound_neg, Hc by assumption.
  change (slice_bound (length l) 0) with (slice_bound (length l) (Z.of_nat 0)).
  rewrite slice_bound_nat. cbn [Nat.min skipn]. rewrite Nat.sub_0_r.
  unfold sub_slices.
  assert (Hl : length (skipn (Nat.min a (length l)) c) = length (firstn (length l - a) c)).
  { rewrite length_skipn, length_firstn. lia. }
  rewrite Hl, Nat.eqb_refl. cbn [rbind].
  unfold assign_from. rewrite slice_bound_nat, Hc.
  rewrite zip_els_length, Hl, Nat.min_id, length_firstn, Hc.
  replace (Nat.min (length l - a) (length l) =? length l - Nat.min a (length l)) with true
    by (symmetry; apply Nat.eqb_eq; lia).
  cbn [rbind]. unfold py_slice_from.
  rewrite slice_bound_pred by assumption.
  rewrite length_app, length_firstn, zip_els_length, Hl, Nat.min_id, length_firstn, Hc.
  destruct (le_lt_dec a (length l)) as [Hle|Hgt].
  - replace (Nat.min a (length l)) with a by lia.
    replace (Nat.min (a - 1) (Nat.min a (length l) + Nat.min (length l - a) (length l)))
      with (a - 1) by lia.
    destruct (skipn (a - 1) c) as [|v rest] eqn:Hs.
    + apply (f_equal (@length E)) in Hs. rewrite length_skipn in Hs. simpl in Hs. lia.
    + rewrite skipn_app, length_firstn.
      rewrite (skipn_pred_firstn a c v rest Ha Hs).
      replace (a - 1 - Nat.min a (length c)) with 0 by lia. reflexivity.
  - replace (Nat.min a (length l)) with (length l) by lia.
    replace (length l - a) with 0 by lia.
    replace (skipn (a - 1) c) with (@nil E)
      by (symmetry; apply skipn_all2; lia).
    rewrite skipn_all2; [reflexivity|].
    rewrite length_app, length_firstn, zip_els_length. simpl. lia.
Qed.

Lemma window_means_length (l : list E) (a : nat) :
  1 <= a -> length (window_means add sub scale l a) = length l + 1 - a.
Proof.
  intros Ha. unfold window_means.
  pose proof (cumsum_length l) as Hc.
  destruct (skipn (a - 1) (cumsum add l)) as [|v rest] eqn:Hs.
  - apply (f_equal (@length E)) in Hs. rewrite length_skipn in Hs. simpl in *. lia.
  - apply (f_equal (@length E)) in Hs. rewrite length_skipn in Hs. simpl in Hs.
    rewrite length_map. simpl. rewrite zip_els_length, length_skipn, length_firstn. lia.
Qed.

Lemma window_means_nth (l : list E) (a k : nat) (d : E) :
  1 <= a -> k + a <= length l ->
  nth k (window_means add sub scale l a) d =
  scale (window_sum sub d (cumsum add l) a k).
Proof.
  intros Ha Hk.
  rewrite (nth_indep _ d (scale d))
    by (rewrite window_means_length by assumption; lia).
  unfold window_means, window_sum.
  pose proof (cumsum_length l) as Hc.
  destruct (skipn (a - 1) (cumsum add l)) as [|v rest] eqn:Hs.
  - apply (f_equal (@length E)) in Hs. rewrite length_skipn in Hs. simpl in *. lia.
  - rewrite map_nth. f_equal. destruct k as [|k'].
    + simpl. rewrite <- (firstn_skipn (a - 1) (cumsum add l)) at 1.
      rewrite app_nth2; rewrite length_firstn; [|lia].
      replace (a - 1 - Nat.min (a - 1) (length (cumsum add l))) with 0 by lia.
      now rewrite Hs.
    + cbn [nth]. rewrite nth_zip_els.
      * f_equal.
        -- rewrite nth_skipn. f_equal. lia.
        -- rewrite nth_firstn. replace (k' <? length l - a) with true; [reflexivity|].
           symmetry. apply Nat.ltb_lt. lia.
      * rewrite length_skipn. lia.
      * rewrite length_firstn. lia.
Qed.

(** A window of no entry: the two slices of the subtraction have
    lengths [len] and 0. *)
Lemma windowed_mean_zero (l : list E) :
  l <> [] -> exists msg, windowed_mean add sub scale l 0%Z = Raise (ValueError msg).
Proof.
  intros Hl. unfold windowed_mean.
  set (c := cumsum add l).
  assert (Hc : length c = length l) by apply cumsum_length.
  unfold py_slice_from at 1. unfold py_slice.
  change (- 0)%Z with 0%Z.
  change (slice_bound (length c) 0) with (slice_bound (length c) (Z.of_nat 0)).
  rewrite slice_bound_nat. cbn [Nat.min skipn firstn Nat.sub].
  unfold sub_slices. cbn [length].
  destruct c as [|c0 [|c1 c]]; simpl in Hc.
  - destruct l; [congruence|discriminate].
  - cbn. eexists; reflexivity.
  - cbn. eexists; reflexivity.
Qed.

End WindowFacts.

Section MovingAverageFacts.
Context {F : Type} `{FloatOps F}.

Lemma windowed_mean1_closed (l : list F) (a : nat) :
  1 <= a ->
  windowed_mean1 l (Z.of_nat a)
  = Ok (window_means fadd fsub (div_int (Z.of_nat a)) l a).
Proof. intros Ha. unfold windowed_mean1. now apply windowed_mean_closed. Qed.

(** X1. [moving_avg] with the default axis (or any axis other than 0
    and 1) and a window of [a] entries, [1 <= a <= len]: each of the
    two results is one-dimensional with [len - a + 1] entries; entry 0
    is the [a]-th running sum divided by [a], and entry [k > 0] is the
    difference of the running sums at [k+a-1] and [k-1] divided by
    [a]. *)
Theorem moving_avg_window_means (x y : ndarray F) (a : nat) (axis : option Z) :
  axis <> Some 0%Z -> axis <> Some 1%Z ->
  1 <= a -> a <= length (buf x) -> a <= length (buf y) ->
  exists xs ys,
    moving_avg x y (Z.of_nat a) axis = Ok (arr1 xs, arr1 ys) /\
    length xs = length (buf x) - a + 1 /\
    length ys = length (buf y) - a + 1 /\
    (forall k, k + a <= length (buf x) ->
       nth k xs (lit 0%Q)
       = div_int (Z.of_nat a) (window_sum fsub (lit 0%Q) (cumsum fadd (buf x)) a k)) /\
    (forall k, k + a <= length (buf y) ->
       nth k ys (lit 0%Q)
       = div_int (Z.of_nat a) (window_sum fsub (lit 0%Q) (cumsum fadd (buf y)) a k)).
Proof.
  intros H0 H1 Ha Hx Hy.
  exists (window_means fadd fsub (div_int (Z.of_nat a)) (buf x) a),
         (window_means fadd fsub (div_int (Z.of_nat a)) (buf y) a).
  split; [|split; [|split; [|split]]].
  - unfold moving_avg. rewrite !windowed_mean1_closed by assumption. cbn [rbind].
    destruct axis as [[|[p|p|]|p]|]; try reflexivity; congruence.
  - rewrite window_means_length by assumption. lia.
  - rewrite window_means_length by assumption. lia.
  - intros k Hk. now apply window_means_nth.
  - intros k Hk. now apply window_means_nth.
Qed.

(** X2. A window of no entry is an error as soon as [x] holds one
    value: the two slices of the subtraction have different lengths. *)
Theorem moving_avg_zero_window (x y : ndarray F) (axis : option Z) :
  buf x <> [] ->
  exists msg, moving_avg x y 0%Z axis = Raise (ValueError msg).
Proof.
  intros Hx. unfold moving_avg, windowed_mean1.
  destruct (windowed_mean_zero fadd fsub (div_int 0) (buf x) Hx) as [msg ->].
  exists msg. reflexivity.
Qed.

(** X3. A window longer than the data is no error: both results are
    empty. *)
Theorem moving_avg_long_window (x y : ndarray F) (a : nat) (axis : option Z) :
  axis <> Some 0%Z -> axis <> Some 1%Z ->
  length (buf x) < a -> length (buf y) < a ->
  moving_avg x y (Z.of_nat a) axis = Ok (arr1 [], arr1 []).
Proof.
  intros H0 H1 Hx Hy.
  assert (Hnil : forall l : list F, length l < a ->
            window_means fadd fsub (div_int (Z.of_nat a)) l a = []).
  { intros l Hl. apply length_zero_iff_nil.
    rewrite window_means_length by lia. lia. }
  unfold moving_avg. rewrite !windowed_mean1_closed by lia. cbn [rbind].
  rewrite !Hnil by assumption.
  destruct axis as [[|[p|p|]|p]|]; try reflexivity; congruence.
Qed.

Lemma nth_map_in {A B} (f : A -> B) (l : list A) (i : nat) (d : A) (d' : B) :
  i < length l -> nth i (map f l) d' = f (nth i l d).
Proof.
  revert i. induction l as [|a l IH]; intros [|i]; simpl; intros Hi; try lia; auto.
  apply IH. lia.
Qed.

Lemma chunks_nth (m n i : nat) (b : list F) :
  i < n -> nth i (chunks m n b) [] = row m b i.
Proof.
  intros Hi. unfold chunks, row.
  rewrite (nth_map_in _ _ _ 0) by (now rewrite length_seq).
  now rewrite seq_nth.
Qed.

Lemma chunks_length (m n : nat) (b : list F) : length (chunks m n b) = n.
Proof. unfold chunks. now rewrite length_map, length_seq. Qed.

Lemma chunks_rows (m n : nat) (b : list F) :
  length b = n * m -> Forall (fun r => length r = m) (chunks m n b).
Proof.
  intros Hb. apply Forall_forall. intros r Hr. unfold chunks in Hr.
  apply in_map_iff in Hr. destruct Hr as [i [<- Hi]]. apply in_seq in Hi.
  apply (row_length m b Hb). lia.
Qed.

(** X4. Along axis 1 of a two-dimensional [y] every row is averaged
    on its own: the result has the rows of [y] in order, each the
    one-dimensional moving average of that row, [m - a + 1] wide. *)
Theorem moving_avg_axis1_rows (x y : ndarray F) (n m a : nat) :
  shape y = [n; m] -> length (buf y) = n * m -> 1 <= a -> a <= m ->
  exists xs rows,
    moving_avg x y (Z.of_nat a) (Some 1%Z)
    = Ok (arr1 xs, mk_nd [n; m - a + 1] (concat rows)) /\
    length rows = n /\
    forall i, i < n ->
      windowed_mean1 (row m (buf y) i) (Z.of_nat a) = Ok (nth i rows []) /\
      length (nth i rows []) = m - a + 1.
Proof.
  intros Hs Hb Ha Hm.
  set (g := fun r : list F => window_means fadd fsub (div_int (Z.of_nat a)) r a).
  exists (window_means fadd fsub (div_int (Z.of_nat a)) (buf x) a),
         (map g (chunks m n (buf y))).
  split; [|split].
  - unfold moving_avg. rewrite windowed_mean1_closed by assumption. cbn [rbind].
    rewrite Hs. rewrite windowed_mean_closed by assumption. cbn [rbind].
    rewrite (rmap_ok (fun r => windowed_mean1 r (Z.of_nat a)) g)
      by (intros r _; now apply windowed_mean1_closed).
    cbn [rbind]. rewrite window_means_length, repeat_length by assumption.
    replace (m + 1 - a) with (m - a + 1) by lia. reflexivity.
  - now rewrite length_map, chunks_length.
  - intros i Hi.
    assert (Hnth : nth i (map g (chunks m n (buf y))) [] = g (row m (buf y) i)).
    { rewrite (nth_map_in _ _ _ []) by (now rewrite chunks_length).
      now rewrite chunks_nth. }
    rewrite Hnth. split.
    + now apply windowed_mean1_closed.
    + unfold g. rewrite window_means_length by assumption.
      rewrite (row_length m (buf y) Hb Hi). lia.
Qed.

Lemma cumsum_from_rows_length (m : nat) (rows : list (list F)) :
  Forall (fun r => length r = m) rows ->
  forall acc i, length acc = m -> i < length rows ->
    length (nth i (cumsum_from (zip_with fadd) acc rows) []) = m.
Proof.
  intros Hrows. induction Hrows as [|r rows Hr Hrows IH]; intros acc i Hacc Hi.
  - simpl in Hi. lia.
  - assert (Hz : length (zip_with fadd acc r) = m).
    { rewrite zip_with_length. lia. }
    destruct i as [|i]; cbn [cumsum_from nth]; [exact Hz|].
    apply IH; [exact Hz | simpl in Hi; lia].
Qed.

Lemma cumsum_from_rows (m j : nat) (d : F) (rows : list (list F)) :
  j < m -> Forall (fun r => length r = m) rows ->
  forall acc i, length acc = m -> i < length rows ->
    nth j (nth i (cumsum_from (zip_with fadd) acc rows) []) d
    = nth i (cumsum_from fadd (nth j acc d) (map (fun r => nth j r d) rows)) d.
Proof.
  intros Hj Hrows. induction Hrows as [|r rows Hr Hrows IH]; intros acc i Hacc Hi.
  - simpl in Hi. lia.
  - assert (Hz : length (zip_with fadd acc r) = m).
    { rewrite zip_with_length. lia. }
    assert (Hn : nth j (zip_with fadd acc r) d = fadd (nth j acc d) (nth j r d)).
    { apply nth_zip_with; lia. }
    destruct i as [|i]; cbn [cumsum_from map nth]; [exact Hn|].
    rewrite <- Hn. apply IH; [exact Hz | simpl in Hi; lia].
Qed.

Lemma cumsum_rows_length (m : nat) (rows : list (list F)) (i : nat) :
  Forall (fun r => length r = m) rows -> i < length rows ->
  length (nth i (cumsum (zip_with fadd) rows) []) = m.
Proof.
  intros Hrows Hi. destruct rows as [|r rows]; [simpl in Hi; lia|].
  pose proof (Forall_inv Hrows) as Hr. pose proof (Forall_inv_tail Hrows) as Hrows'.
  cbv beta in Hr.
  destruct i as [|i]; cbn [cumsum nth]; [exact Hr|].
  apply (cumsum_from_rows_length m); [exact Hrows' | exact Hr | simpl in Hi; lia].
Qed.

Lemma cumsum_rows (m j : nat) (d : F) (rows : list (list F)) (i : nat) :
  j < m -> Forall (fun r => length r = m) rows -> i < length rows ->
  nth j (nth i (cumsum (zip_with fadd) rows) []) d
  = nth i (cumsum fadd (map (fun r => nth j r d) rows)) d.
Proof.
  intros Hj Hrows Hi. destruct rows as [|r rows]; [simpl in Hi; lia|].
  pose proof (Forall_inv Hrows) as Hr. pose proof (Forall_inv_tail Hrows) as Hrows'.
  cbv beta in Hr.
  destruct i as [|i]; cbn [cumsum map nth]; [reflexivity|].
  apply (cumsum_from_rows m); [exact Hj | exact Hrows' | exact Hr | simpl in Hi; lia].
Qed.

Lemma nth_concat_rows (m : nat) (d : F) (rows : list (list F)) :
  Forall (fun r => length r = m) rows ->
  length (concat rows) = length rows * m /\
  forall k j, k < length rows -> j < m ->
    nth (k * m + j) (concat rows) d = nth j (nth k rows []) d.
Proof.
  induction 1 as [|r rows Hr Hrows [IHl IHn]]; simpl.
  - split; [reflexivity | intros; lia].
  - split; [rewrite length_app, IHl, Hr; reflexivity|].
    intros [|k] j Hk Hj.
    + simpl. apply app_nth1. lia.
    + rewrite app_nth2 by (rewrite Hr; simpl; lia).
      rewrite Hr. replace (S k * m + j - m) with (k * m + j) by (simpl; lia).
      apply IHn; lia.
Qed.

Lemma column_rows (n m j : nat) (b : list F) :
  length b = n * m -> j < m ->
  column n m b j = map (fun r => nth j r (lit 0%Q)) (chunks m n b).
Proof.
  intros Hb Hj. unfold column, chunks. rewrite map_map. apply map_ext_in.
  intros i Hi. apply in_seq in Hi.
  rewrite nth_firstn. replace (j <? m) with true by (symmetry; now apply Nat.ltb_lt).
  rewrite nth_skipn. reflexivity.
Qed.

(** X5. Along axis 0 of a two-dimensional [y] every column is
    averaged on its own: the result has [n - a + 1] rows of [m]
    entries, and its column [j] is the one-dimensional moving average
    of column [j] of [y]. *)
Theorem moving_avg_axis0_columns (x y : ndarray F) (n m a : nat) :
  shape y = [n; m] -> length (buf y) = n * m -> 1 <= a -> a <= n ->
  exists xs ret,
    moving_avg x y (Z.of_nat a) (Some 0%Z) = Ok (arr1 xs, ret) /\
    shape ret = [n - a + 1; m] /\
    length (buf ret) = (n - a + 1) * m /\
    forall j, j < m ->
      exists col,
        windowed_mean1 (column n m (buf y) j) (Z.of_nat a) = Ok col /\
        length col = n - a + 1 /\
        forall k, k + a <= n ->
          nth (k * m + j) (buf ret) (lit 0%Q) = nth k col (lit 0%Q).
Proof.
  intros Hs Hb Ha Hn.
  set (rows := chunks m n (buf y)).
  set (R := window_means (zip_with fadd) (zip_with fsub)
              (map (div_int (Z.of_nat a))) rows a).
  assert (Hrl : length rows = n) by apply chunks_length.
  assert (Hrows : Forall (fun r => length r = m) rows) by now apply chunks_rows.
  assert (HR : length R = n - a + 1).
  { unfold R. rewrite window_means_length by assumption. lia. }
  assert (Hnth : forall k, k + a <= n ->
            nth k R [] = map (div_int (Z.of_nat a))
                           (window_sum (zip_with fsub) [] (cumsum (zip_with fadd) rows) a k)).
  { intros k Hk. unfold R. apply window_means_nth; [assumption | lia]. }
  assert (Hlen : forall k, k + a <= n ->
            length (window_sum (zip_with fsub) [] (cumsum (zip_with fadd) rows) a k) = m).
  { intros k Hk. unfold window_sum. destruct k as [|k'].
    - apply (cumsum_rows_length m); [exact Hrows | lia].
    - rewrite zip_with_length.
      rewrite !(cumsum_rows_length m) by (try exact Hrows; lia). lia. }
  assert (Hsum : forall k j, k + a <= n -> j < m ->
            nth j (window_sum (zip_with fsub) [] (cumsum (zip_with fadd) rows) a k) (lit 0%Q)
            = window_sum fsub (lit 0%Q)
                (cumsum fadd (map (fun r => nth j r (lit 0%Q)) rows)) a k).
  { intros k j Hk Hj. unfold window_sum. destruct k as [|k'].
    - apply (cumsum_rows m); [exact Hj | exact Hrows | lia].
    - rewrite nth_zip_with
        by (rewrite (cumsum_rows_length m) by (try exact Hrows; lia); exact Hj).
      rewrite !(cumsum_rows m) by (try exact Hrows; try exact Hj; lia).
      reflexivity. }
  assert (HRrows : Forall (fun r => length r = m) R).
  { apply Forall_forall. intros r Hr.
    destruct (In_nth _ _ [] Hr) as [k [Hk <-]].
    rewrite Hnth by lia. rewrite length_map. apply Hlen. lia. }
  destruct (nth_concat_rows m (lit 0%Q) R HRrows) as [Hcl Hcn].
  exists (window_means fadd fsub (div_int (Z.of_nat a)) (buf x) a),
         (mk_nd [length R; m] (concat R)).
  split; [|split; [|split]].
  - unfold moving_avg. rewrite windowed_mean1_closed by assumption. cbn [rbind].
    rewrite Hs. cbn [fold_right]. rewrite Nat.mul_1_r.
    rewrite windowed_mean_closed by assumption. reflexivity.
  - cbn [shape]. now rewrite HR.
  - cbn [buf]. now rewrite Hcl, HR.
  - intros j Hj.
    exists (window_means fadd fsub (div_int (Z.of_nat a)) (column n m (buf y) j) a).
    assert (Hcol : length (column n m (buf y) j) = n).
    { unfold column. now rewrite length_map, length_seq. }
    split; [|split].
    + now apply windowed_mean1_closed.
    + rewrite window_means_length by assumption. lia.
    + intros k Hk. cbn [buf].
      rewrite Hcn by lia. rewrite Hnth by exact Hk.
      rewrite (nth_map_in _ _ _ (lit 0%Q)) by (rewrite Hlen by exact Hk; exact Hj).
      rewrite Hsum by assumption.
      rewrite window_means_nth by (try assumption; lia).
      now rewrite (column_rows n m j (buf y) Hb Hj).
Qed.

End MovingAverageFacts.

(* ------------------------------------------------------------------ *)
(** ** Polynomials, the weak-localisation shape and the mesh grid *)

Section ShapesAndGrids.
Context {F : Type} `{FloatOps F}.

(** X6. [line], [parabola], [cubic] and [quadratic] (the quartic)
    return an array of the shape of [x] holding, element by element,
    the polynomial of the coefficients in the order of the arguments,
    highest power first. *)
Theorem polynomials_elementwise (x : ndarray F) (a b c d e : F) :
  line x a b = nd_map (line_point a b) x /\
  parabola x a b c = nd_map (parabola_point a b c) x /\
  cubic x a b c d = nd_map (cubic_point a b c d) x /\
  quadratic x a b c d e = nd_map (quadratic_point a b c d e) x.
Proof.
  unfold line, parabola, cubic, quadratic, nd_map, nd_map2; cbn [shape buf].
  repeat split; f_equal;
    repeat (rewrite ?map_map, ?zip_with_map); reflexivity.
Qed.

(** X7. [di_sense_simple] returns an array of the shape of [x] with as
    many elements, holding, element by element,
    [-(0.5)*di0*((x-x0)/beta + delta) * cosh((x-x0)/beta)**-2 + di2]. *)
Theorem di_sense_simple_pointwise (x : ndarray F) (x0 beta di0 di2 delta : F) :
  shape (di_sense_simple x x0 beta di0 di2 delta) = shape x /\
  length (buf (di_sense_simple x x0 beta di0 di2 delta)) = length (buf x) /\
  forall k, k < length (buf x) ->
    nth k (buf (di_sense_simple x x0 beta di0 di2 delta)) (lit 0%Q)
    = di_point x0 beta di0 di2 delta (nth k (buf x) (lit 0%Q)).
Proof.
  destruct (di_sense_simple_elementwise x x0 beta di0 di2 delta) as [Hs Hb].
  split; [exact Hs|]. rewrite Hb. split; [apply length_map|].
  intros k Hk. now apply nth_map_in.
Qed.

Lemma py_index_first (l : list F) (a : F) : py_index (a :: l) 0%Z = Ok a.
Proof. exact (py_index_nth (a :: l) (i := 0) a (Nat.lt_0_succ _)). Qed.

Lemma py_index_end (l : list F) (a : F) :
  py_index (a :: l) (-1)%Z = Ok (last (a :: l) (lit 0%Q)).
Proof.
  unfold py_index. change (-1 <? 0)%Z with true. cbv iota.
  set (len := Z.of_nat (length (a :: l))).
  assert (Hlen : (0 < len)%Z) by (unfold len; simpl length; lia).
  replace ((-1 + len <? 0) || (len <=? -1 + len))%Z with false.
  2:{ symmetry. apply orb_false_iff. split; [apply Z.ltb_ge | apply Z.leb_gt]; lia. }
  replace (Z.to_nat (-1 + len)) with (length l) by (unfold len; simpl length; lia).
  assert (Hn : forall (l : list F) a, nth_error (a :: l) (length l)
                                      = Some (last (a :: l) (lit 0%Q))).
  { clear. induction l as [|b l IH]; intros a; [reflexivity|].
    change (nth_error (a :: b :: l) (length (b :: l))) with (nth_error (b :: l) (length l)).
    rewrite IH. reflexivity. }
  now rewrite Hn.
Qed.

Lemma last_map (f : F -> F) (l : list F) (a : F) :
  last (map f (a :: l)) (lit 0%Q) = f (last (a :: l) (lit 0%Q)).
Proof.
  revert a. induction l as [|b l IH]; intros a; [reflexivity|].
  change (last (map f (a :: b :: l)) (lit 0%Q)) with (last (map f (b :: l)) (lit 0%Q)).
  rewrite IH. reflexivity.
Qed.

Lemma nth_repeat_rows (xs : list F) (n i j : nat) :
  i < n -> j < length xs ->
  nth (i * length xs + j) (concat (repeat xs n)) (lit 0%Q) = nth j xs (lit 0%Q).
Proof.
  intros Hi Hj.
  assert (Hrows : Forall (fun r => length r = length xs) (repeat xs n)).
  { apply Forall_forall. intros r Hr. now rewrite (repeat_spec _ _ _ Hr). }
  destruct (nth_concat_rows (length xs) (lit 0%Q) _ Hrows) as [_ Hn].
  rewrite Hn by (rewrite ?repeat_length; assumption).
  f_equal. apply nth_repeat_lt. exact Hi.
Qed.

Lemma nth_repeat_cols (ys : list F) (w i j : nat) :
  i < length ys -> j < w ->
  nth (i * w + j) (flat_map (fun v => repeat v w) ys) (lit 0%Q) = nth i ys (lit 0%Q).
Proof.
  intros Hi Hj. rewrite flat_map_concat_map.
  assert (Hrows : Forall (fun r => length r = w) (map (fun v => repeat v w) ys)).
  { apply Forall_forall. intros r Hr. apply in_map_iff in Hr.
    destruct Hr as [v [<- _]]. apply repeat_length. }
  destruct (nth_concat_rows w (lit 0%Q) _ Hrows) as [_ Hn].
  rewrite Hn by (rewrite ?length_map; assumption).
  rewrite (nth_map_in _ _ _ (lit 0%Q)) by exact Hi.
  apply nth_repeat_lt. exact Hj.
Qed.

Lemma meshgrid_length (xs ys : list F) :
  length (buf (fst (np_meshgrid xs ys))) = length ys * length xs /\
  length (buf (snd (np_meshgrid xs ys))) = length ys * length xs.
Proof.
  unfold np_meshgrid; cbn [fst snd buf]. split.
  - assert (Hrows : Forall (fun r => length r = length xs) (repeat xs (length ys))).
    { apply Forall_forall. intros r Hr. now rewrite (repeat_spec _ _ _ Hr). }
    destruct (nth_concat_rows (length xs) (lit 0%Q) _ Hrows) as [Hl _].
    now rewrite Hl, repeat_length.
  - rewrite flat_map_concat_map.
    assert (Hrows : Forall (fun r => length r = length xs)
                           (map (fun v => repeat v (length xs)) ys)).
    { apply Forall_forall. intros r Hr. apply in_map_iff in Hr.
      destruct Hr as [v [<- _]]. apply repeat_length. }
    destruct (nth_concat_rows (length xs) (lit 0%Q) _ Hrows) as [Hl _].
    now rewrite Hl, length_map.
Qed.

Lemma cell_edges_length (l : list F) : length (cell_edges l) = length l + 1.
Proof. unfold cell_edges. now rewrite length_app, length_map. Qed.

(** X8. [xy_to_meshgrid] on [nx] and [ny] points, none of the two
    empty, returns two arrays of [ny+1] rows and [nx+1] columns: in the
    first every row holds the cell edges of [x], in the second every
    column holds the cell edges of [y] (the points moved back by half a
    step, and one more edge a step after the last).  With an empty axis
    the call fails with an [IndexError]. *)
Theorem xy_to_meshgrid_cell_edges (x y : list F) :
  match x, y with
  | _ :: _, _ :: _ =>
      exists X Y,
        xy_to_meshgrid x y = Ok (X, Y) /\
        shape X = [length y + 1; length x + 1] /\
        shape Y = [length y + 1; length x + 1] /\
        length (buf X) = (length y + 1) * (length x + 1) /\
        length (buf Y) = (length y + 1) * (length x + 1) /\
        forall i j, i <= length y -> j <= length x ->
          nth (i * (length x + 1) + j) (buf X) (lit 0%Q) = nth j (cell_edges x) (lit 0%Q) /\
          nth (i * (length x + 1) + j) (buf Y) (lit 0%Q) = nth i (cell_edges y) (lit 0%Q)
  | _, _ => xy_to_meshgrid x y = Raise IndexError
  end.
Proof.
  destruct x as [|x0 x]; [reflexivity|].
  destruct y as [|y0 y].
  { unfold xy_to_meshgrid. rewrite py_index_end, py_index_first. reflexivity. }
  assert (Hrun : xy_to_meshgrid (x0 :: x) (y0 :: y)
                 = Ok (np_meshgrid (cell_edges (x0 :: x)) (cell_edges (y0 :: y)))).
  { unfold xy_to_meshgrid. rewrite !py_index_end, !py_index_first. cbn [rbind].
    cbv zeta. cbn [map]. rewrite !py_index_end. cbn [rbind].
    change (fsub x0 ?s :: map ?f x) with (map f (x0 :: x)).
    change (fsub y0 ?s :: map ?f y) with (map f (y0 :: y)).
    rewrite !last_map. reflexivity. }
  exists (fst (np_meshgrid (cell_edges (x0 :: x)) (cell_edges (y0 :: y)))),
         (snd (np_meshgrid (cell_edges (x0 :: x)) (cell_edges (y0 :: y)))).
  destruct (meshgrid_length (cell_edges (x0 :: x)) (cell_edges (y0 :: y))) as [HX HY].
  rewrite !cell_edges_length in HX, HY.
  split; [rewrite Hrun; reflexivity|].
  split; [cbn [np_meshgrid fst shape]; now rewrite !cell_edges_length|].
  split; [cbn [np_meshgrid snd shape]; now rewrite !cell_edges_length|].
  split; [exact HX|]. split; [exact HY|].
  intros i j Hi Hj. unfold np_meshgrid; cbn [fst snd buf].
  rewrite <- (cell_edges_length (x0 :: x)). split.
  - apply nth_repeat_rows; rewrite cell_edges_length; lia.
  - apply nth_repeat_cols; rewrite cell_edges_length; lia.
Qed.

End ShapesAndGrids.

(* ------------------------------------------------------------------ *)
(** ** [get_subset] on two-dimensional data *)

Lemma py_slice_nat {A} (l : list A) (a b : nat) :
  a <= length l -> b <= length l ->
  py_slice l (Z.of_nat a) (Z.of_nat b) = firstn (b - a) (skipn a l).
Proof.
  intros Ha Hb. unfold py_slice. rewrite !slice_bound_nat.
  now rewrite !Nat.min_l by assumption.
Qed.

Lemma nth_firstn_skipn {A} (l : list A) (a w j : nat) (d : A) :
  j < w -> nth j (firstn w (skipn a l)) d = nth (a + j) l d.
Proof.
  intros Hj. rewrite nth_firstn.
  replace (j <? w) with true by (symmetry; now apply Nat.ltb_lt).
  apply nth_skipn.
Qed.

Section SubsetCuts.
Context {F : Type} `{FloatOps F}.

Lemma bound_or_extent_effective (extent : list F) (i : nat) (b : option F) :
  bound_or_extent extent i (effective_bound b) = bound_or_extent extent i b.
Proof.
  destruct b as [v|]; [|reflexivity]. unfold effective_bound, bound_or_extent.
  destruct (fnonzero v) eqn:E; [now rewrite E | reflexivity].
Qed.

Lemma enumerate_effective (extent : list F) (bounds : list (option F)) (i : nat) :
  rmap (fun ib => bound_or_extent extent (fst ib) (snd ib))
       (enumerate_from i (map effective_bound bounds))
  = rmap (fun ib => bound_or_extent extent (fst ib) (snd ib))
         (enumerate_from i bounds).
Proof.
  revert i. induction bounds as [|b bounds IH]; intros i; [reflexivity|].
  cbn [map enumerate_from rmap fst snd].
  now rewrite bound_or_extent_effective, IH.
Qed.

(** X9. A bound equal to zero is read as a missing bound:
    [get_subset] gives the same outcome when every bound that is zero
    is replaced by [None], which stands for the extent of the axis. *)
Theorem get_subset_zero_bound_is_extent (data : dataset F) (bounds : list (option F)) :
  get_subset data bounds = get_subset data (map effective_bound bounds).
Proof.
  unfold get_subset. rewrite length_map.
  destruct (negb _); [reflexivity|].
  destruct (py_index (data0 data) 0%Z) as [e0|]; [|reflexivity].
  destruct (py_index (data0 data) (-1)%Z) as [e1|]; [|reflexivity].
  destruct (py_index (data1 data) 0%Z) as [e2|]; [|reflexivity].
  destruct (py_index (data1 data) (-1)%Z) as [e3|]; [|reflexivity].
  cbn [rbind]. cbv zeta. now rewrite enumerate_effective.
Qed.

Lemma argmin_from_bound (l : list F) (bi : nat) (b : F) (i : nat) :
  bi < i -> argmin_from bi b i l < i + length l.
Proof.
  revert bi b i. induction l as [|v l IH]; intros bi b i Hbi; simpl; [lia|].
  destruct (fltb v b).
  - specialize (IH i v (S i)). lia.
  - specialize (IH bi b (S i)). lia.
Qed.

Lemma nearest1_bound (l : list F) (t : F) (z : Z) :
  nearest1 l t = Ok z -> exists j, z = Z.of_nat j /\ j < length l.
Proof.
  unfold nearest1. intros Hn.
  destruct (nanargmin _) as [j|] eqn:E; cbn [rbind] in Hn; [|discriminate].
  injection Hn as <-. exists j. split; [reflexivity|].
  unfold nanargmin in E. destruct l as [|v l]; [discriminate|].
  cbn [map] in E. destruct (forallb _ _); [discriminate|]. injection E as <-.
  pose proof (argmin_from_bound (map replace_nan (map (fun v => fabs (fsub v t)) l))
                0 (replace_nan (fabs (fsub v t))) 1 (Nat.lt_0_1)) as Hb.
  rewrite !length_map in Hb. simpl. lia.
Qed.

(** X10. The three cuts [get_subset] returns stay aligned: for [x] of
    [nx] points, [y] of [ny] points and values of shape [(ny, nx)], the
    values returned have one row per point of the [y] cut and one
    column per point of the [x] cut, and the value at [(i, j)] is the
    value of the input at the places the [i]-th point of the [y] cut and
    the [j]-th point of the [x] cut come from. *)
Theorem get_subset_cuts_aligned (data : dataset F) (bounds : list (option F))
    (nx ny : nat) (xs ys : list F) (zs : ndarray F) :
  shape (data2 data) = [ny; nx] ->
  length (data0 data) = nx -> length (data1 data) = ny ->
  length (buf (data2 data)) = ny * nx ->
  get_subset data bounds = Ok (xs, ys, zs) ->
  exists ix0 iy0,
    shape zs = [length ys; length xs] /\
    length (buf zs) = length ys * length xs /\
    ix0 + length xs <= nx /\ iy0 + length ys <= ny /\
    (forall j, j < length xs ->
       nth j xs (lit 0%Q) = nth (ix0 + j) (data0 data) (lit 0%Q)) /\
    (forall i, i < length ys ->
       nth i ys (lit 0%Q) = nth (iy0 + i) (data1 data) (lit 0%Q)) /\
    (forall i j, i < length ys -> j < length xs ->
       nth (i * length xs + j) (buf zs) (lit 0%Q)
       = nth ((iy0 + i) * nx + (ix0 + j)) (buf (data2 data)) (lit 0%Q)).
Proof.
  intros Hs Hx Hy Hb Hg. unfold get_subset in Hg.
  destruct (negb _); [discriminate|].
  unfold ndim in Hg. rewrite Hs in Hg. cbn [length Nat.eqb] in Hg.
  rinv Hg.
  apply nearest1_bound in E5. destruct E5 as (c0 & -> & Ha0).
  apply nearest1_bound in E7. destruct E7 as (c1 & -> & Ha1).
  apply nearest1_bound in E9. destruct E9 as (b0 & -> & Hb0).
  apply nearest1_bound in E11. destruct E11 as (b1 & -> & Hb1).
  unfold nd_slice2 in E12. rewrite Hs in E12. injection E12 as <-.
  injection Hg as <- <- <-.
  rewrite Hx in Ha0, Ha1. rewrite Hy in Hb0, Hb1.
  rewrite (py_slice_nat (data0 data)), (py_slice_nat (data1 data)) by lia.
  rewrite (py_slice_nat (chunks nx ny (buf (data2 data)))) by (rewrite chunks_length; lia).
  rewrite !slice_bound_nat, !Nat.min_l by lia.
  set (rows := map (fun r => py_slice r (Z.of_nat c0) (Z.of_nat c1))
                   (firstn (b1 - b0) (skipn b0 (chunks nx ny (buf (data2 data)))))).
  assert (Hxs : length (firstn (c1 - c0) (skipn c0 (data0 data))) = c1 - c0).
  { rewrite length_firstn, length_skipn. lia. }
  assert (Hys : length (firstn (b1 - b0) (skipn b0 (data1 data))) = b1 - b0).
  { rewrite length_firstn, length_skipn. lia. }
  assert (Hrl : length rows = b1 - b0).
  { unfold rows. rewrite length_map, length_firstn, length_skipn, chunks_length. lia. }
  assert (Hrow : forall i, i < b1 - b0 ->
            nth i rows [] = firstn (c1 - c0) (skipn c0 (row nx (buf (data2 data)) (b0 + i)))).
  { intros i Hi. unfold rows.
    rewrite (nth_map_in _ _ _ [])
      by (rewrite length_firstn, length_skipn, chunks_length; lia).
    rewrite nth_firstn_skipn by exact Hi.
    rewrite chunks_nth by lia.
    apply py_slice_nat; rewrite (row_length nx (buf (data2 data)) Hb); lia. }
  assert (Hrows : Forall (fun r => length r = c1 - c0) rows).
  { apply Forall_forall. intros r Hr.
    destruct (In_nth _ _ [] Hr) as [i [Hi <-]]. rewrite Hrl in Hi.
    rewrite Hrow by exact Hi. rewrite length_firstn, length_skipn.
    rewrite (row_length nx (buf (data2 data)) Hb) by lia. lia. }
  destruct (nth_concat_rows (c1 - c0) (lit 0%Q) rows Hrows) as [Hcl Hcn].
  exists c0, b0. cbn [shape buf]. rewrite Hxs, Hys, Hrl.
  split; [reflexivity|]. split; [now rewrite Hcl, Hrl|].
  split; [lia|]. split; [lia|]. split; [|split].
  - intros j Hj. now apply nth_firstn_skipn.
  - intros i Hi. now apply nth_firstn_skipn.
  - intros i j Hi Hj. rewrite Hcn by lia. rewrite Hrow by exact Hi.
    rewrite nth_firstn_skipn by exact Hj. unfold row.
    rewrite nth_firstn_skipn by lia. reflexivity.
Qed.

End SubsetCuts.

Lemma py_slice_upto {A} (l : list A) (b : nat) :
  py_slice l 0%Z (Z.of_nat b) = firstn b l.
Proof.
  unfold py_slice. change 0%Z with (Z.of_nat 0). rewrite !slice_bound_nat.
  cbn [Nat.min skipn]. rewrite Nat.sub_0_r.
  destruct (le_lt_dec b (length l)) as [Hb|Hb].
  - now rewrite Nat.min_l by exact Hb.
  - rewrite Nat.min_r by lia. rewrite firstn_all. symmetry. apply firstn_all2. lia.
Qed.

Lemma nth_last {A} (l : list A) (d : A) : nth (length l - 1) l d = last l d.
Proof.
  induction l as [|a [|b l] IH]; [reflexivity | reflexivity |].
  replace (length (a :: b :: l) - 1) with (S (length (b :: l) - 1)) by (simpl; lia).
  exact IH.
Qed.

Section SubsetExtent.
Context {F : Type} `{FloatOrder F} {HD : FloatDistance F}.

Local Abbreviation finite := (@finite F _).
Local Abbreviation last_apart := (@last_apart F _).

Lemma nearest1_first (a : F) (l : list F) :
  finite a -> nearest1 (a :: l) a = Ok 0%Z.
Proof.
  intros [Hn Hf]. unfold nearest1.
  set (dl := map (fun v => fabs (fsub v a)) (a :: l)).
  destruct (nanargmin_spec (lit 0%Q) dl) as (j & -> & Hj & _ & _ & Hfirst).
  { exists 0. split; [simpl; lia|]. split; [exact Hn | exact Hf]. }
  cbn [rbind]. destruct j as [|j]; [reflexivity|]. exfalso.
  specialize (Hfirst 0 (Nat.lt_0_succ j) Hn).
  unfold dl in Hfirst, Hj. rewrite length_map in Hj.
  rewrite (nth_map_in _ _ _ (lit 0%Q)) in Hfirst by exact Hj.
  change (nth 0 (map (fun v => fabs (fsub v a)) (a :: l)) (lit 0%Q))
    with (fabs (fsub a a)) in Hfirst.
  rewrite (dist_self_least a _ Hn) in Hfirst. discriminate Hfirst.
Qed.

Lemma nearest1_last (l : list F) :
  l <> [] -> finite (last l (lit 0%Q)) -> last_apart l ->
  nearest1 l (last l (lit 0%Q)) = Ok (Z.of_nat (length l - 1)).
Proof.
  intros Hl [Hn Hf] Hap. unfold nearest1.
  set (t := last l (lit 0%Q)) in *.
  set (dl := map (fun v => fabs (fsub v t)) l).
  assert (Hlen : 0 < length l) by (destruct l; [congruence | simpl; lia]).
  assert (Hd : forall k, k < length l ->
            nth k dl (lit 0%Q) = fabs (fsub (nth k l (lit 0%Q)) t)).
  { intros k Hk. unfold dl.
    exact (nth_map_in (fun v => fabs (fsub v t)) l k (lit 0%Q) (lit 0%Q) Hk). }
  assert (Hdl : nth (length l - 1) dl (lit 0%Q) = fabs (fsub t t)).
  { rewrite Hd by lia. now rewrite nth_last. }
  destruct (nanargmin_spec (lit 0%Q) dl) as (j & -> & Hj & Hjn & Hmin & _).
  { exists (length l - 1). unfold dl at 1. rewrite length_map.
    split; [lia|]. rewrite Hdl. split; [exact Hn | exact Hf]. }
  cbn [rbind]. unfold dl in Hj. rewrite length_map in Hj.
  destruct (Nat.eq_dec j (length l - 1)) as [->|Hne]; [reflexivity|]. exfalso.
  specialize (Hmin (length l - 1)).
  unfold dl in Hmin at 1. rewrite length_map in Hmin.
  rewrite Hdl in Hmin. specialize (Hmin ltac:(lia) Hn).
  rewrite Hd in Hmin, Hjn by exact Hj.
  destruct (Hap j ltac:(lia)) as [E|E]; fold t in E; congruence.
Qed.

(** X11. With every bound left to the extent, [get_subset] drops the
    last point of each axis: on finite axes whose last value is not met
    earlier it returns all but the last point of [x] and of [y], and the
    values without their last row and last column. *)
Theorem get_subset_extent_drops_last (data : dataset F) (nx ny : nat) :
  shape (data2 data) = [ny; nx] ->
  length (data0 data) = nx -> length (data1 data) = ny ->
  0 < nx -> 0 < ny ->
  finite (hd (lit 0%Q) (data0 data)) -> finite (last (data0 data) (lit 0%Q)) ->
  finite (hd (lit 0%Q) (data1 data)) -> finite (last (data1 data) (lit 0%Q)) ->
  last_apart (data0 data) -> last_apart (data1 data) ->
  get_subset data [None; None; None; None]
  = Ok (firstn (nx - 1) (data0 data), firstn (ny - 1) (data1 data),
        mk_nd [ny - 1; nx - 1]
          (concat (map (firstn (nx - 1))
                       (firstn (ny - 1) (chunks nx ny (buf (data2 data))))))).
Proof.
  intros Hs Hx Hy Hnx Hny Hx0 Hx1 Hy0 Hy1 Hxa Hya.
  destruct data as [x y z]. cbn [data0 data1 data2] in *.
  destruct x as [|x0 x]; [simpl in Hx; lia|].
  destruct y as [|y0 y]; [simpl in Hy; lia|].
  unfold get_subset, ndim. cbn [data0 data1 data2]. rewrite Hs.
  cbn [length Nat.mul Nat.add Nat.eqb negb].
  rewrite !py_index_first, !py_index_end. cbn [rbind]. cbv zeta.
  set (ex := last (x0 :: x) (lit 0%Q)) in *.
  set (ey := last (y0 :: y) (lit 0%Q)) in *.
  assert (Hbs : rmap (fun ib => bound_or_extent [x0; ex; y0; ey] (fst ib) (snd ib))
                     (enumerate_from 0 [None; None; None; None])
                = Ok [x0; ex; y0; ey]) by reflexivity.
  rewrite Hbs. cbn [rbind].
  assert (Hi0 : py_index [x0; ex; y0; ey] 0%Z = Ok x0) by reflexivity.
  assert (Hi1 : py_index [x0; ex; y0; ey] 1%Z = Ok ex) by reflexivity.
  assert (Hi2 : py_index [x0; ex; y0; ey] 2%Z = Ok y0) by reflexivity.
  assert (Hi3 : py_index [x0; ex; y0; ey] 3%Z = Ok ey) by reflexivity.
  rewrite Hi0, Hi1, Hi2, Hi3. cbn [rbind].
  rewrite (nearest1_first x0 x Hx0), (nearest1_first y0 y Hy0).
  unfold ex, ey.
  rewrite (nearest1_last (x0 :: x)), (nearest1_last (y0 :: y))
    by (try assumption; discriminate).
  cbn [rbind]. rewrite Hx, Hy.
  unfold nd_slice2. rewrite Hs. cbn [rbind].
  rewrite !py_slice_upto.
  rewrite (map_ext (fun r : list F => py_slice r 0%Z (Z.of_nat (nx - 1)))
                   (firstn (nx - 1))) by (intros r; apply py_slice_upto).
  rewrite length_map, length_firstn, chunks_length, slice_bound_nat.
  change 0%Z with (Z.of_nat 0). rewrite slice_bound_nat.
  do 3 f_equal. f_equal; [lia|]. f_equal. lia.
Qed.

End SubsetExtent.

(* ------------------------------------------------------------------ *)
(** ** The independent fits *)

Section Fallback.
Context {F : Type} `{FloatOps F}.
Variable lm_engine :
  (list F -> result (list F)) -> list (F * F * F) -> option (list F).
Variable curve_fit :
  (list F -> list F -> result (list F)) ->
  list F -> list F -> list F -> list F -> list F -> option (list F).

Local Abbreviation checked := (@checked F).

Lemma fit_body_fallback (fam : family) (centers widths x0bounds : list F)
    (constrain fix_ : option (list string)) (span : option F)
    (x z : ndarray F) (n : nat) :
  joint_mode fam constrain fix_ = false ->
  fit_body lm_engine curve_fit fam centers widths x0bounds constrain fix_ span x z n
  = bind (lift (fit_window x centers span n)) (fun win =>
      mfold (fallback_step curve_fit fam x z centers widths x0bounds (fst win) (snd win))
            (range n) []).
Proof.
  intros Hj. destruct fam; cbn [joint_mode] in Hj;
    unfold fit_body, i_sense_fit_body, di_fit_body; rewrite Hj; reflexivity.
Qed.

(** A loop of independent fits that ends well has made one call per
    dataset, in order, and appended what each call returned. *)
Lemma fallback_loop (fam : family) (x z : ndarray F)
    (centers widths x0bounds : list F) (ilow ihigh : list Z) (l : list nat) :
  forall (acc : list (list F)) (s s' : state F) (t : list (list F)),
  mfold (fallback_step curve_fit fam x z centers widths x0bounds ilow ihigh) l acc s
  = (Ok t, s') ->
  exists rows evs,
    t = acc ++ rows /\ trace s' = trace s ++ evs /\
    length rows = length l /\ length evs = length l /\
    forall k, k < length l ->
      exists xs zs p0 lo hi,
        p0_of fam z centers widths ilow ihigh (nth k l 0) = Ok p0 /\
        bounds_of fam x0bounds = Ok (lo, hi) /\
        window x ilow ihigh (nth k l 0) = Ok xs /\
        window z ilow ihigh (nth k l 0) = Ok zs /\
        nth k evs EvParameters = EvCurveFit xs zs p0 lo hi /\
        curve_fit (model_of fam) xs zs p0 lo hi = Some (nth k rows []) /\
        length (nth k rows []) = 5.
Proof.
  induction l as [|i l IH]; intros acc s s' t Hrun.
  - cbn in Hrun. injection Hrun as <- <-.
    exists [], []. rewrite !app_nil_r. repeat split; auto. intros k Hk. simpl in Hk. lia.
  - cbn [mfold] in Hrun. unfold bind at 1 in Hrun.
    destruct (fallback_step curve_fit fam x z centers widths x0bounds ilow ihigh acc i s)
      as [[df|e] s1] eqn:Estep; [|discriminate].
    unfold fallback_step, bind, lift, emit, raise in Estep.
    destruct (p0_of fam z centers widths ilow ihigh i) as [p0|] eqn:Ep0; [|discriminate].
    destruct (bounds_of fam x0bounds) as [[lo hi]|] eqn:Eb; [|discriminate].
    destruct (window x ilow ihigh i) as [xs|] eqn:Ex; [|discriminate].
    destruct (window z ilow ihigh i) as [zs|] eqn:Ez; [|discriminate].
    cbn [fst snd] in Estep.
    destruct (curve_fit (model_of fam) xs zs p0 lo hi) as [popt|] eqn:Ecf; [|discriminate].
    unfold df_set_row in Estep.
    destruct (length popt =? 5) eqn:E5; [|discriminate].
    apply Nat.eqb_eq in E5. injection Estep as <- <-.
    destruct (IH _ _ _ _ Hrun) as (rows & evs & -> & Htr & Hr & He & Hall).
    cbn [trace] in Htr.
    exists (popt :: rows), (EvCurveFit xs zs p0 lo hi :: evs).
    split; [now rewrite <- app_assoc|]. split; [now rewrite Htr, <- app_assoc|].
    split; [simpl; lia|]. split; [simpl; lia|].
    intros [|k] Hk.
    + exists xs, zs, p0, lo, hi. cbn [nth]. repeat split; assumption.
    + cbn [nth]. apply Hall. simpl in Hk. lia.
Qed.

(** However the loop ends, it has called nothing but [curve_fit], at
    most once per dataset. *)
Lemma fallback_trace (fam : family) (x z : ndarray F)
    (centers widths x0bounds : list F) (ilow ihigh : list Z) (l : list nat) :
  forall (acc : list (list F)) (s : state F),
  exists evs,
    trace (snd (mfold (fallback_step curve_fit fam x z centers widths x0bounds
                         ilow ihigh) l acc s)) = trace s ++ evs /\
    forallb (@is_curve_fit F) evs = true /\ length evs <= length l.
Proof.
  induction l as [|i l IH]; intros acc s.
  - exists []. cbn. rewrite app_nil_r. repeat split; auto.
  - cbn [mfold]. unfold bind at 1.
    destruct (fallback_step curve_fit fam x z centers widths x0bounds ilow ihigh acc i s)
      as [[df|e] s1] eqn:Estep.
    + assert (Hs1 : exists ev, trace s1 = trace s ++ [ev] /\ is_curve_fit ev = true).
      { unfold fallback_step, bind, lift, emit, raise in Estep.
        destruct (p0_of fam z centers widths ilow ihigh i); [|discriminate].
        destruct (bounds_of fam x0bounds) as [[lo hi]|]; [|discriminate].
        destruct (window x ilow ihigh i); [|discriminate].
        destruct (window z ilow ihigh i); [|discriminate].
        destruct (curve_fit _ _ _ _ _ _); [|discriminate].
        destruct (df_set_row acc _); [|discriminate].
        injection Estep as _ <-. eexists. split; reflexivity. }
      destruct Hs1 as (ev & Hs1 & Hev).
      destruct (IH df s1) as (evs & Htr & Hall & Hlen).
      exists (ev :: evs). rewrite Htr, Hs1, <- app_assoc.
      split; [reflexivity|]. cbn [forallb length]. rewrite Hev, Hall. split; [reflexivity|lia].
    + cbn [snd].
      unfold fallback_step, bind, lift, emit, raise in Estep.
      destruct (p0_of fam z centers widths ilow ihigh i);
        [|injection Estep as _ <-; exists []; rewrite app_nil_r;
          repeat split; auto; simpl; lia].
      destruct (bounds_of fam x0bounds) as [[lo hi]|];
        [|injection Estep as _ <-; exists []; rewrite app_nil_r;
          repeat split; auto; simpl; lia].
      destruct (window x ilow ihigh i);
        [|injection Estep as _ <-; exists []; rewrite app_nil_r;
          repeat split; auto; simpl; lia].
      destruct (window z ilow ihigh i);
        [|injection Estep as _ <-; exists []; rewrite app_nil_r;
          repeat split; auto; simpl; lia].
      destruct (curve_fit _ _ _ _ _ _) as [popt|].
      * destruct (df_set_row acc popt); [discriminate|].
        injection Estep as _ <-. eexists [_]. cbn [trace].
        split; [reflexivity|]. split; [reflexivity | simpl; lia].
      * injection Estep as _ <-. eexists [_]. cbn [trace].
        split; [reflexivity|]. split; [reflexivity | simpl; lia].
Qed.

End Fallback.

Lemma rmap_length {A B} (f : A -> result B) (l : list A) (r : list B) :
  rmap f l = Ok r -> length r = length l.
Proof.
  revert r. induction l as [|a l IH]; intros r; simpl.
  - intros E; injection E as <-. reflexivity.
  - destruct (f a); cbn [rbind]; [|discriminate].
    destruct (rmap f l) as [r'|]; cbn [rbind]; [|discriminate].
    intros E; injection E as <-. simpl. now rewrite (IH r').
Qed.

Section Calls.
Context {F : Type} `{FloatOps F}.
Variable lm_engine :
  (list F -> result (list F)) -> list (F * F * F) -> option (list F).
Variable curve_fit :
  (list F -> list F -> result (list F)) ->
  list F -> list F -> list F -> list F -> list F -> option (list F).

Local Abbreviation checked := (@checked F).

(** The shape checks either fail, or hand over to the body the arrays
    and the number of datasets; they call no library. *)
Lemma checked_cases (xr zr : nat) k (s : state F) :
  (exists e s1, checked xr zr k s = (Raise e, s1) /\ trace s1 = trace s) \/
  (exists x z s1, checked xr zr k s = k x z (z_rows (shape (heap s zr))) s1 /\
                  trace s1 = trace s).
Proof.
  unfold checked, z_dimensions, x_rows, bind, get_obj.
  destruct (shape (heap s zr)) as [|d0 [|d1 [|d2 zsh]]]; simpl;
    try (left; eexists _, _; split; reflexivity).
  - match goal with
    | |- context [shape ?a] => destruct (shape a) as [|e0 [|e1 xsh]]
    end; simpl; try (left; eexists _, _; split; reflexivity).
    + right. eexists _, _, _. split; reflexivity.
    + destruct (e0 =? 1); simpl; try (left; eexists _, _; split; reflexivity).
      right. eexists _, _, _. split; reflexivity.
  - destruct (shape (heap s xr)) as [|e0 [|e1 xsh]]; simpl;
      try (left; eexists _, _; split; reflexivity).
    + right. eexists _, _, _. split; reflexivity.
    + destruct (e0 =? 1); simpl.
      * right. eexists _, _, _. split; reflexivity.
      * destruct (e0 =? d0); simpl; try (left; eexists _, _; split; reflexivity).
        right. eexists _, _, _. split; reflexivity.
Qed.

Lemma fallback_body_inversion (fam : family) (centers widths x0bounds : list F)
    (constrain fix_ : option (list string)) (span : option F)
    (x z : ndarray F) (n : nat) (s s' : state F) (t : list (list F)) :
  joint_mode fam constrain fix_ = false ->
  fit_body lm_engine curve_fit fam centers widths x0bounds constrain fix_ span x z n s
  = (Ok t, s') ->
  exists ilow ihigh evs,
    fit_window x centers span n = Ok (ilow, ihigh) /\
    trace s' = trace s ++ evs /\ length t = n /\ length evs = n /\
    forall i, i < n ->
      exists xs zs p0 lo hi,
        p0_of fam z centers widths ilow ihigh i = Ok p0 /\
        bounds_of fam x0bounds = Ok (lo, hi) /\
        window x ilow ihigh i = Ok xs /\
        window z ilow ihigh i = Ok zs /\
        nth i evs EvParameters = EvCurveFit xs zs p0 lo hi /\
        curve_fit (model_of fam) xs zs p0 lo hi = Some (nth i t []) /\
        length (nth i t []) = 5.
Proof.
  intros Hj Hrun. rewrite fit_body_fallback in Hrun by exact Hj.
  unfold bind at 1, lift at 1 in Hrun.
  destruct (fit_window x centers span n) as [[ilow ihigh]|] eqn:Ew; [|discriminate].
  cbn [fst snd] in Hrun.
  destruct (fallback_loop curve_fit fam x z centers widths x0bounds ilow ihigh
              (range n) [] s s' t Hrun) as (rows & evs & -> & Htr & Hr & He & Hall).
  unfold range in *. rewrite length_seq in *. cbn [app].
  exists ilow, ihigh, evs. repeat split; try assumption.
  intros i Hi. specialize (Hall i Hi). rewrite seq_nth in Hall by exact Hi. exact Hall.
Qed.

(** X12. Without constraints (and, for the weak-localisation routine,
    without fixed roles) a call that returns a table, for [z] an array
    object of the caller, has called [curve_fit] once per dataset and in
    dataset order: the [i]-th call received the window of row [i] of
    [x] and of row [i] of [z], the initial guesses of dataset [i] and
    the bounds of the family, and row [i] of the table is what that
    call returned; the parameter set of the joint fit is never built
    and [minimize] is never called. *)
Theorem independent_fits_in_order (fam : family) (xr zr : nat)
    (centers widths x0bounds : list F) (constrain fix_ : option (list string))
    (span : option F) (s s' : state F) (t : list (list F)) :
  joint_mode fam constrain fix_ = false ->
  zr < next s ->
  fit_simultaneous fam lm_engine curve_fit xr zr centers widths x0bounds
    constrain fix_ span s = (Ok t, s') ->
  let n := z_rows (shape (heap s zr)) in
  let x := x_seen s xr zr in
  let z := z_seen s zr in
  length t = n /\
  exists ilow ihigh evs,
    fit_window x centers span n = Ok (ilow, ihigh) /\
    trace s' = trace s ++ evs /\ length evs = n /\
    forall i, i < n ->
      exists xs zs p0 lo hi,
        window x ilow ihigh i = Ok xs /\
        window z ilow ihigh i = Ok zs /\
        p0_of fam z centers widths ilow ihigh i = Ok p0 /\
        bounds_of fam x0bounds = Ok (lo, hi) /\
        nth i evs EvParameters = EvCurveFit xs zs p0 lo hi /\
        curve_fit (model_of fam) xs zs p0 lo hi = Some (nth i t []).
Proof.
  intros Hj Hz Hrun n x z. rewrite fit_simultaneous_checked in Hrun.
  destruct (checked_inversion_arrays _ _ _ _ _ _ Hz Hrun) as (s1 & Hbody & Htr).
  destruct (fallback_body_inversion fam centers widths x0bounds constrain fix_ span
              x z n s1 s' t Hj Hbody)
    as (ilow & ihigh & evs & Hwin & Htr' & Hlen & He & Hall).
  split; [exact Hlen|].
  exists ilow, ihigh, evs. split; [exact Hwin|].
  split; [now rewrite Htr', Htr|]. split; [exact He|].
  intros i Hi.
  destruct (Hall i Hi) as (xs & zs & p0 & lo & hi & Hp0 & Hb & Hx & Hzw & Hev & Hcf & _).
  exists xs, zs, p0, lo, hi. repeat split; assumption.
Qed.

(** X13. Whatever the path, a table that is returned has one row per
    dataset and five values in every row. *)
Theorem table_has_n_rows_of_five (fam : family) (xr zr : nat)
    (centers widths x0bounds : list F) (constrain fix_ : option (list string))
    (span : option F) (s s' : state F) (t : list (list F)) :
  fit_simultaneous fam lm_engine curve_fit xr zr centers widths x0bounds
    constrain fix_ span s = (Ok t, s') ->
  length t = z_rows (shape (heap s zr)) /\
  Forall (fun r => length r = 5) t.
Proof.
  intros Hrun. rewrite fit_simultaneous_checked in Hrun.
  destruct (checked_inversion _ _ _ _ _ _ Hrun) as (x & z & n & s1 & Hbody & Htr & Hn).
  rewrite <- Hn.
  destruct (joint_mode fam constrain fix_) eqn:Hj.
  - destruct (joint_inversion lm_engine curve_fit fam centers widths x0bounds constrain fix_
                span x z n s1 s' t Hj Hbody)
      as (ilow & ihigh & ps0 & ps1 & ps2 & v & vd & _ & _ & _ & _ & Htab & _).
    unfold tabulate in Htab.
    destruct (tabulate_rows (columns fam) vd (range n) [] t Htab) as (rows & -> & Hlen & Hrows).
    unfold range in *. rewrite length_seq in *. cbn [app].
    split; [exact Hlen|]. apply Forall_forall. intros r Hr.
    destruct (In_nth_error _ _ Hr) as [k Hk].
    assert (Hkn : k < n).
    { rewrite <- Hlen. apply nth_error_Some. now rewrite Hk. }
    destruct (Hrows k Hkn) as (row & Hrow & Hmap).
    rewrite Hk in Hrow. injection Hrow as <-.
    rewrite (rmap_length _ _ _ Hmap). now destruct fam.
  - destruct (fallback_body_inversion fam centers widths x0bounds constrain fix_ span
                x z n s1 s' t Hj Hbody)
      as (ilow & ihigh & evs & _ & _ & Hlen & _ & Hall).
    split; [exact Hlen|]. apply Forall_forall. intros r Hr.
    destruct (In_nth _ _ [] Hr) as [k [Hk <-]]. rewrite Hlen in Hk.
    destruct (Hall k Hk) as (xs & zs & p0 & lo & hi & _ & _ & _ & _ & _ & _ & H5).
    exact H5.
Qed.

Lemma joint_body_trace (fam : family) (centers widths x0bounds : list F)
    (constrain fix_ : option (list string)) (span : option F)
    (x z : ndarray F) (n : nat) (s : state F) :
  joint_mode fam constrain fix_ = true ->
  let out := fit_body lm_engine curve_fit fam centers widths x0bounds constrain fix_
               span x z n s in
  trace (snd out) = trace s \/ trace (snd out) = trace s ++ [EvParameters] \/
  exists ps ilow ihigh, trace (snd out) = trace s ++ [EvParameters; EvMinimize ps ilow ihigh].
Proof.
  intros Hj. cbv zeta.
  destruct fam; cbn [joint_mode] in Hj;
    unfold fit_body, i_sense_fit_body, di_fit_body; rewrite Hj;
    unfold bind, lift, emit; cbn [fst snd trace].
  - destruct (fit_window _ _ _ _); [|now left]. cbn [fst snd trace].
    destruct (rfold _ _ _); [|right; now left]. cbn [fst snd trace].
    destruct (apply_constrain _ _ _); [|right; now left].
    right; right. eexists _, _, _.
    cbn [fst snd trace heap next]. rewrite <- app_assoc.
    destruct (minimize _ _ _); [|reflexivity].
    destruct (valuesdict _); [|reflexivity].
    destruct (tabulate _ _ _); reflexivity.
  - destruct (fit_window _ _ _ _); [|now left]. cbn [fst snd trace].
    destruct (rfold _ _ _); [|right; now left]. cbn [fst snd trace].
    destruct (if truthy_seq constrain then _ else _); [|right; now left].
    destruct (if truthy_seq fix_ then _ else _); [|right; now left].
    right; right. eexists _, _, _.
    cbn [fst snd trace heap next]. rewrite <- app_assoc.
    destruct (minimize _ _ _); [|reflexivity].
    destruct (valuesdict _); [|reflexivity].
    destruct (tabulate _ _ _); reflexivity.
Qed.

(** X14. The library calls of either routine, however the call ends.
    On the joint path the parameter set is built at most once and
    [minimize] is called at most once, after it, and [curve_fit] never;
    when a table is returned both have happened.  On the independent
    path only [curve_fit] is called, at most once per dataset. *)
Theorem library_calls_by_path (fam : family) (xr zr : nat)
    (centers widths x0bounds : list F) (constrain fix_ : option (list string))
    (span : option F) (s : state F) :
  let out := fit_simultaneous fam lm_engine curve_fit xr zr centers widths
               x0bounds constrain fix_ span s in
  exists evs,
    trace (snd out) = trace s ++ evs /\
    if joint_mode fam constrain fix_
    then (evs = [] \/ evs = [EvParameters] \/
          exists ps ilow ihigh, evs = [EvParameters; EvMinimize ps ilow ihigh]) /\
         (forall t, fst out = Ok t ->
            exists ps ilow ihigh, evs = [EvParameters; EvMinimize ps ilow ihigh])
    else forallb (@is_curve_fit F) evs = true /\
         length evs <= z_rows (shape (heap s zr)).
Proof.
  cbv zeta. rewrite fit_simultaneous_checked.
  destruct (checked_cases xr zr
              (fit_body lm_engine curve_fit fam centers widths x0bounds constrain fix_ span) s)
    as [(e & s1 & -> & Htr)|(x & z & s1 & -> & Htr)].
  - exists []. cbn [fst snd]. rewrite app_nil_r. split; [exact Htr|].
    destruct (joint_mode fam constrain fix_).
    + split; [now left | discriminate].
    + split; [reflexivity | simpl; lia].
  - set (n := z_rows (shape (heap s zr))).
    destruct (joint_mode fam constrain fix_) eqn:Hj.
    + pose proof (joint_body_trace fam centers widths x0bounds constrain fix_ span
                    x z n s1 Hj) as Hcases. cbv zeta in Hcases. rewrite Htr in Hcases.
      assert (Hok : forall t evs,
                trace (snd (fit_body lm_engine curve_fit fam centers widths x0bounds
                              constrain fix_ span x z n s1)) = trace s ++ evs ->
                fst (fit_body lm_engine curve_fit fam centers widths x0bounds
                       constrain fix_ span x z n s1) = Ok t ->
                exists ps ilow ihigh, evs = [EvParameters; EvMinimize ps ilow ihigh]).
      { intros t evs Hevs Ht.
        destruct (fit_body lm_engine curve_fit fam centers widths x0bounds
                    constrain fix_ span x z n s1) as [r s'] eqn:Hbody.
        cbn [fst snd] in *. subst r.
        destruct (joint_inversion lm_engine curve_fit fam centers widths x0bounds
                    constrain fix_ span x z n s1 s' t Hj Hbody)
          as (ilow & ihigh & ps0 & ps1 & ps2 & v & vd & _ & _ & _ & _ & _ & Htr').
        rewrite Htr, Hevs in Htr'. apply app_inv_head in Htr'.
        now exists ps2, ilow, ihigh. }
      destruct Hcases as [Hc|[Hc|(ps & il & ih & Hc)]].
      * exists []. rewrite app_nil_r. split; [exact Hc|]. split; [now left|].
        intros t Ht. apply (Hok t []); [now rewrite app_nil_r | exact Ht].
      * exists [EvParameters]. split; [exact Hc|]. split; [right; now left|].
        intros t Ht. now apply (Hok t).
      * exists [EvParameters; EvMinimize ps il ih]. split; [exact Hc|].
        split; [right; right; now exists ps, il, ih|].
        intros t Ht. now apply (Hok t).
    + rewrite fit_body_fallback by exact Hj.
      unfold bind at 1, lift at 1.
      destruct (fit_window x centers span n) as [[ilow ihigh]|].
      * cbn [fst snd].
        destruct (fallback_trace curve_fit fam x z centers widths x0bounds ilow ihigh
                    (range n) [] s1) as (evs & Hevs & Hall & Hlen).
        exists evs. rewrite Hevs, Htr. split; [reflexivity|]. split; [exact Hall|].
        unfold range in Hlen. now rewrite length_seq in Hlen.
      * exists []. cbn [snd]. rewrite app_nil_r. split; [exact Htr|].
        split; [reflexivity | simpl; lia].
Qed.

End Calls.

(* ------------------------------------------------------------------ *)
(** ** Parameter names *)

Lemma underscore_free_uint (d : Decimal.uint) :
  underscore_free (NilEmpty.string_of_uint d) = true.
Proof. induction d; simpl; auto. Qed.

Lemma underscore_free_app (a b : string) :
  underscore_free (a ++ String "_"%char b)%string = false.
Proof.
  induction a as [|c a IH]; simpl; [reflexivity|].
  rewrite IH. apply andb_false_r.
Qed.

Lemma split_at_separator (a b d1 d2 : string) :
  underscore_free d1 = true -> underscore_free d2 = true ->
  (a ++ String "_"%char d1 = b ++ String "_"%char d2)%string -> a = b /\ d1 = d2.
Proof.
  revert b. induction a as [|c a IH]; intros [|c' b] H1 H2 E; simpl in E.
  - injection E as ->. auto.
  - injection E as _ ->. rewrite underscore_free_app in H1. discriminate.
  - injection E as _ <-. rewrite underscore_free_app in H2. discriminate.
  - injection E as <- E. destruct (IH b H1 H2 E) as [-> ->]. auto.
Qed.

(** A name determines its role and its group, whatever the role. *)
Lemma pname_role_inj (p c : string) (i j : nat) :
  pname p i = pname c j -> p = c /\ i = j.
Proof.
  unfold pname. intros E.
  change ("_" ++ format_d i)%string with (String "_"%char (format_d i)) in E.
  change ("_" ++ format_d j)%string with (String "_"%char (format_d j)) in E.
  destruct (split_at_separator p c (format_d i) (format_d j)) as [-> Hd];
    try apply underscore_free_uint; [exact E|].
  split; [reflexivity | now apply format_d_inj].
Qed.

Lemma NoDup_map_injective {A B} (f : A -> B) (l : list A) :
  (forall a b, f a = f b -> a = b) -> NoDup l -> NoDup (map f l).
Proof.
  intros Hf. induction 1 as [|a l Ha Hl IH]; simpl; constructor; [|exact IH].
  intros Hin. apply in_map_iff in Hin. destruct Hin as (b & E & Hb).
  apply Hf in E. now subst b.
Qed.

Section Names.
Context {F : Type} `{FloatOps F}.

Local Abbreviation keys := (@keys F).

Lemma keys_set_present (ps : lm_params F) (k : string) (p : lm_param F) :
  In k (keys ps) -> keys (params_set ps k p) = keys ps.
Proof.
  intros Hin. destruct (keys_set ps k p) as [E|[Hn _]]; [exact E | contradiction].
Qed.

Lemma keys_set_fresh (ps : lm_params F) (k : string) (p : lm_param F) :
  ~ In k (keys ps) -> keys (params_set ps k p) = keys ps ++ [k].
Proof.
  intros Hn. destruct (keys_set ps k p) as [E|[_ E]]; [|exact E].
  exfalso. apply Hn. rewrite <- E.
  apply (lookup_in_keys (params_set ps k p) k p).
  now rewrite lookup_set, String.eqb_refl.
Qed.

Lemma lookup_not_in_keys (ps : lm_params F) (k : string) :
  ~ In k (keys ps) -> params_lookup ps k = None.
Proof.
  intros Hn. destruct (params_lookup ps k) as [q|] eqn:E; [|reflexivity].
  exfalso. apply Hn. now apply (lookup_in_keys ps k q).
Qed.

Lemma in_group_names (fam : family) (n : nat) (k : string) :
  In k (group_names fam n) <->
  exists c i, In c (columns fam) /\ i < n /\ k = pname c i.
Proof.
  unfold group_names, range. rewrite in_flat_map. split.
  - intros (i & Hi & Hk). apply in_seq in Hi. apply in_map_iff in Hk.
    destruct Hk as (c & <- & Hc). exists c, i. repeat split; [exact Hc | lia].
  - intros (c & i & Hc & Hi & ->). exists i. split; [apply in_seq; lia|].
    apply in_map_iff. now exists c.
Qed.

Lemma group_names_S (fam : family) (n : nat) :
  group_names fam (S n) = group_names fam n ++ map (fun c => pname c n) (columns fam).
Proof.
  unfold group_names, range. rewrite seq_S, flat_map_app. cbn [flat_map Nat.add].
  now rewrite app_nil_r.
Qed.

Lemma group_names_length (fam : family) (n : nat) :
  length (group_names fam n) = 5 * n.
Proof.
  induction n as [|n IH]; [reflexivity|].
  rewrite group_names_S, length_app, IH, length_map. destruct fam; simpl; lia.
Qed.

Lemma group_names_NoDup (fam : family) (n : nat) : NoDup (group_names fam n).
Proof.
  induction n as [|n IH]; [constructor|].
  rewrite group_names_S. apply NoDup_app; [exact IH | |].
  - apply NoDup_map_injective.
    + intros c c' E. now destruct (pname_role_inj c c' n n E).
    + destruct fam; simpl; repeat constructor; simpl; intuition discriminate.
  - intros k Hk Hk'. apply in_group_names in Hk.
    destruct Hk as (c & i & _ & Hi & ->). apply in_map_iff in Hk'.
    destruct Hk' as (c' & E & _). destruct (pname_role_inj _ _ _ _ E). lia.
Qed.

Lemma keys_set_next (ps qs : lm_params F) (K : list string) (k : string)
    (p : lm_param F) :
  keys qs = keys ps ++ K -> ~ In k (keys ps) -> ~ In k K ->
  keys (params_set qs k p) = keys ps ++ (K ++ [k]).
Proof.
  intros Hq Hn HK. rewrite keys_set_fresh, Hq; [now rewrite app_assoc|].
  rewrite Hq, in_app_iff. tauto.
Qed.

Ltac distinct_names :=
  simpl; intros Hin; repeat (destruct Hin as [Hin|Hin]); try contradiction;
  apply pname_role_inj in Hin; destruct Hin as [Hin _]; discriminate Hin.

(** A group adds its five names, in the order of the columns. *)
Lemma add_group_keys (fam : family) z centers widths x0bounds ilow ihigh
    (ps : lm_params F) (i : nat) (ps' : lm_params F) :
  add_group_of fam z centers widths x0bounds ilow ihigh ps i = Ok ps' ->
  (forall c, ~ In (pname c i) (keys ps)) ->
  keys ps' = keys ps ++ map (fun c => pname c i) (columns fam).
Proof.
  intros E Hold.
  destruct fam; unfold add_group_of, i_sense_add_group, di_add_group in E;
    rinv E; injection E as <-; unfold params_add;
    cbn [columns i_sense_columns di_columns map];
    (apply (keys_set_next ps _ [_; _; _; _]); [|apply Hold|distinct_names]);
    (apply (keys_set_next ps _ [_; _; _]); [|apply Hold|distinct_names]);
    (apply (keys_set_next ps _ [_; _]); [|apply Hold|distinct_names]);
    (apply (keys_set_next ps _ [_]); [|apply Hold|distinct_names]);
    (apply (keys_set_next ps _ []); [|apply Hold|distinct_names]);
    now rewrite app_nil_r.
Qed.

(** The build phase leaves the names of the [n] groups, group by
    group. *)
Lemma build_keys (fam : family) z centers widths x0bounds ilow ihigh (k : nat) :
  forall (a : nat) (ps ps' : lm_params F),
  rfold (add_group_of fam z centers widths x0bounds ilow ihigh) (seq a k) ps = Ok ps' ->
  keys ps = group_names fam a ->
  keys ps' = group_names fam (a + k).
Proof.
  induction k as [|k IH]; intros a ps ps' E Hk.
  - cbn in E. injection E as <-. now rewrite Nat.add_0_r.
  - cbn [seq rfold] in E.
    destruct (add_group_of fam z centers widths x0bounds ilow ihigh ps a) as [ps1|] eqn:Ea;
      cbn [rbind] in E; [|discriminate].
    replace (a + S k) with (S a + k) by lia.
    apply (IH (S a) ps1 ps' E).
    rewrite group_names_S, <- Hk.
    apply (add_group_keys fam z centers widths x0bounds ilow ihigh ps a ps1 Ea).
    intros c Hin. rewrite Hk in Hin. apply in_group_names in Hin.
    destruct Hin as (c' & j & _ & Hj & E'). apply pname_role_inj in E'. lia.
Qed.

Lemma set_expr_keys (ps : lm_params F) (k e : string) (ps' : lm_params F) :
  set_expr ps k e = Ok ps' -> keys ps' = keys ps.
Proof.
  unfold set_expr, params_get.
  destruct (params_lookup ps k) as [q|] eqn:El; cbn [rbind]; [|discriminate].
  intros E; injection E as <-. apply keys_set_present. now apply (lookup_in_keys ps k q).
Qed.

Lemma set_fixed_keys (ps : lm_params F) (k : string) (ps' : lm_params F) :
  set_fixed ps k = Ok ps' -> keys ps' = keys ps.
Proof.
  unfold set_fixed, params_get.
  destruct (params_lookup ps k) as [q|] eqn:El; cbn [rbind]; [|discriminate].
  intros E; injection E as <-. apply keys_set_present. now apply (lookup_in_keys ps k q).
Qed.

Lemma apply_constrain_keys (cl : list string) (n : nat) (ps ps' : lm_params F) :
  apply_constrain cl n ps = Ok ps' -> keys ps' = keys ps.
Proof.
  unfold apply_constrain. intros E.
  refine (@rfold_inv _ _ (fun acc => keys acc = keys ps) _ _ _ _ _ E eq_refl).
  intros acc p acc' _ E' Hacc.
  refine (@rfold_inv _ _ (fun acc => keys acc = keys ps) _ _ _ _ _ E' Hacc).
  intros acc0 j acc1 _ E1 H0. now rewrite (set_expr_keys _ _ _ _ E1).
Qed.

Lemma apply_fix_keys (fl : list string) (n : nat) (ps ps' : lm_params F) :
  apply_fix fl n ps = Ok ps' -> keys ps' = keys ps.
Proof.
  unfold apply_fix. intros E.
  refine (@rfold_inv _ _ (fun acc => keys acc = keys ps) _ _ _ _ _ E eq_refl).
  intros acc p acc' _ E' Hacc.
  refine (@rfold_inv _ _ (fun acc => keys acc = keys ps) _ _ _ _ _ E' Hacc).
  intros acc0 j acc1 _ E1 H0. now rewrite (set_fixed_keys _ _ _ E1).
Qed.

End Names.

(* ------------------------------------------------------------------ *)
(** ** The joint path, stage by stage *)

Section JointPath.
Context {F : Type} `{FloatOps F}.
Variable lm_engine :
  (list F -> result (list F)) -> list (F * F * F) -> option (list F).
Variable curve_fit :
  (list F -> list F -> result (list F)) ->
  list F -> list F -> list F -> list F -> list F -> option (list F).

Local Abbreviation checked := (@checked F).
Local Abbreviation keys := (@keys F).

(** The joint path of either routine: window, parameter set, build,
    constraints, fixed roles, [minimize], tabulation. *)
Lemma fit_body_joint (fam : family) (centers widths x0bounds : list F)
    (constrain fix_ : option (list string)) (span : option F)
    (x z : ndarray F) (n : nat) :
  joint_mode fam constrain fix_ = true ->
  fit_body lm_engine curve_fit fam centers widths x0bounds constrain fix_ span x z n
  = bind (lift (fit_window x centers span n)) (fun win =>
    bind (emit EvParameters) (fun _ =>
    bind (lift (rfold (add_group_of fam z centers widths x0bounds (fst win) (snd win))
                      (range n) [])) (fun ps0 =>
    bind (lift (apply_constrain (constrain_items constrain) n ps0)) (fun ps1 =>
    bind (lift (apply_fix (fix_items fam fix_) n ps1)) (fun ps2 =>
    bind (emit (EvMinimize ps2 (fst win) (snd win))) (fun _ =>
    bind (lift (minimize lm_engine
                  (fun p => objective fam x p x z (fst win) (snd win)) ps2)) (fun res =>
    bind (lift (valuesdict res)) (fun vd =>
    lift (tabulate (columns fam) n vd))))))))).
Proof.
  intros Hj. destruct fam; cbn [joint_mode] in Hj;
    unfold fit_body, i_sense_fit_body, di_fit_body, constrain_items, fix_items.
  - rewrite Hj. reflexivity.
  - rewrite Hj. destruct (truthy_seq constrain), (truthy_seq fix_); reflexivity.
Qed.

Lemma joint_chain (fam : family) (centers widths x0bounds : list F)
    (constrain fix_ : option (list string)) (span : option F)
    (x z : ndarray F) (n : nat) (s s' : state F) (t : list (list F)) :
  joint_mode fam constrain fix_ = true ->
  fit_body lm_engine curve_fit fam centers widths x0bounds constrain fix_ span x z n s
  = (Ok t, s') ->
  exists ilow ihigh ps0 ps1 ps2 res vd,
    fit_window x centers span n = Ok (ilow, ihigh) /\
    rfold (add_group_of fam z centers widths x0bounds ilow ihigh) (range n) [] = Ok ps0 /\
    apply_constrain (constrain_items constrain) n ps0 = Ok ps1 /\
    apply_fix (fix_items fam fix_) n ps1 = Ok ps2 /\
    minimize lm_engine (fun p => objective fam x p x z ilow ihigh) ps2 = Ok res /\
    valuesdict res = Ok vd /\
    tabulate (columns fam) n vd = Ok t /\
    trace s' = trace s ++ [EvParameters; EvMinimize ps2 ilow ihigh].
Proof.
  intros Hj Hrun. rewrite fit_body_joint in Hrun by exact Hj.
  unfold bind, lift, emit in Hrun.
  destruct (fit_window x centers span n) as [[ilow ihigh]|]; [|discriminate].
  cbn [fst snd] in Hrun.
  destruct (rfold (add_group_of fam z centers widths x0bounds ilow ihigh) (range n) [])
    as [ps0|] eqn:E0; [|discriminate].
  destruct (apply_constrain (constrain_items constrain) n ps0) as [ps1|] eqn:E1;
    [|discriminate].
  destruct (apply_fix (fix_items fam fix_) n ps1) as [ps2|] eqn:E2; [|discriminate].
  destruct (minimize lm_engine (fun p => objective fam x p x z ilow ihigh) ps2)
    as [res|] eqn:E3; [|discriminate].
  destruct (valuesdict res) as [vd|] eqn:E4; [|discriminate].
  destruct (tabulate (columns fam) n vd) as [t'|] eqn:E5; [|discriminate].
  injection Hrun as <- <-. cbn [trace].
  exists ilow, ihigh, ps0, ps1, ps2, res, vd.
  repeat split; try assumption. now rewrite <- app_assoc.
Qed.

(** X15. The parameter set handed to [minimize] holds exactly the
    [5n] parameters [role_i], group by group and within a group in the
    order of the columns; no name occurs twice. *)
Theorem joint_parameter_names (fam : family) (xr zr : nat)
    (centers widths x0bounds : list F) (constrain fix_ : option (list string))
    (span : option F) (s s' : state F) (t : list (list F)) :
  joint_mode fam constrain fix_ = true ->
  fit_simultaneous fam lm_engine curve_fit xr zr centers widths x0bounds
    constrain fix_ span s = (Ok t, s') ->
  let n := z_rows (shape (heap s zr)) in
  exists ps ilow ihigh,
    trace s' = trace s ++ [EvParameters; EvMinimize ps ilow ihigh] /\
    keys ps = group_names fam n /\
    NoDup (keys ps) /\ length ps = 5 * n.
Proof.
  intros Hj Hrun n. rewrite fit_simultaneous_checked in Hrun.
  destruct (checked_inversion _ _ _ _ _ _ Hrun) as (x & z & n' & s1 & Hbody & Htr & Hn).
  fold n in Hn. subst n'.
  destruct (joint_chain fam centers widths x0bounds constrain fix_ span x z n s1 s' t
              Hj Hbody)
    as (ilow & ihigh & ps0 & ps1 & ps2 & res & vd & _ & Hb & Hc & Hf & _ & _ & _ & Htr').
  assert (Hk : keys ps2 = group_names fam n).
  { rewrite (apply_fix_keys _ _ _ _ Hf), (apply_constrain_keys _ _ _ _ Hc).
    apply (build_keys fam z centers widths x0bounds ilow ihigh n 0 [] ps0 Hb).
    reflexivity. }
  exists ps2, ilow, ihigh. split; [now rewrite Htr', Htr|]. split; [exact Hk|].
  split; [rewrite Hk; apply group_names_NoDup|].
  rewrite <- (group_names_length fam n), <- Hk. symmetry. apply length_map.
Qed.

End JointPath.

(* ------------------------------------------------------------------ *)
(** ** Fixed roles in the table *)

Section FixedRoles.
Context {F : Type} `{FloatOps F}.
Variable lm_engine :
  (list F -> result (list F)) -> list (F * F * F) -> option (list F).
Variable curve_fit :
  (list F -> list F -> result (list F)) ->
  list F -> list F -> list F -> list F -> list F -> option (list F).

Local Abbreviation fresh_set := (@fresh_set F).

Lemma build_fresh (fam : family) z centers widths x0bounds ilow ihigh
    (n : nat) (ps : lm_params F) :
  rfold (add_group_of fam z centers widths x0bounds ilow ihigh) (range n) [] = Ok ps ->
  fresh_set ps.
Proof.
  intros Hb.
  refine (@rfold_inv _ _ fresh_set _ _ _ _ _ Hb fresh_set_nil).
  intros acc i acc' _. destruct fam;
    [apply i_sense_add_group_fresh|apply di_add_group_fresh].
Qed.

Lemma minimize_inv engine (fcn : lm_params F -> result (list F))
    (ps res : lm_params F) :
  minimize engine fcn ps = Ok res -> exists v, res = assign (var_names ps) v ps.
Proof.
  unfold minimize.
  destruct (engine _ _) as [v|]; [|discriminate].
  intros E. injection E as <-. now exists v.
Qed.

(** When [fix] is a set containing the role [p], a table that
    [di_fit_simultaneous] returns holds for [p] what the build phase
    made of the initial guesses: the guess of the dataset clipped into
    the bounds of the role, or that of dataset 0 if the role is tied. *)
Lemma fixed_rows (xr zr : nat)
    (centers widths x0bounds : list F) (constrain : option (list string))
    (fl : list string) (span : option F)
    (s s' : state F) (t : list (list F)) (p : string) :
  (forall q, In q (constrain_items constrain) -> In q di_columns) ->
  In p fl -> In p di_columns -> zr < next s ->
  di_fit_simultaneous lm_engine curve_fit xr zr centers widths x0bounds
    constrain (Some fl) span s = (Ok t, s') ->
  exists ps ilow ihigh,
    trace s' = trace s ++ [EvParameters; EvMinimize ps ilow ihigh] /\
    fit_window (x_seen s xr zr) centers span (z_rows (shape (heap s zr)))
    = Ok (ilow, ihigh) /\
    length t = z_rows (shape (heap s zr)) /\
    forall i, i < length t ->
      exists q g g0 lo hi,
        params_lookup ps (pname p i) = Some q /\ p_vary q = false /\
        guess_of WeakLoc (z_seen s zr) centers widths ilow ihigh p i = Ok g /\
        guess_of WeakLoc (z_seen s zr) centers widths ilow ihigh p 0 = Ok g0 /\
        role_bounds WeakLoc x0bounds p = Ok (lo, hi) /\
        p_value q = clip g lo hi /\
        cell di_columns t 0 p = Some (clip g0 lo hi) /\
        (~ In p (constrain_items constrain) ->
           cell di_columns t i p = Some (clip g lo hi)) /\
        (In p (constrain_items constrain) ->
           cell di_columns t i p = Some (clip g0 lo hi)).
Proof.
  intros Hcl Hp Hcol Hz Hrun.
  change (di_fit_simultaneous lm_engine curve_fit xr zr centers widths x0bounds
            constrain (Some fl) span)
    with (fit_simultaneous WeakLoc lm_engine curve_fit xr zr centers widths x0bounds
            constrain (Some fl) span) in Hrun.
  rewrite fit_simultaneous_checked in Hrun.
  destruct (checked_inversion_arrays _ _ _ _ _ _ Hz Hrun) as (s1 & Hbody & Htrace).
  set (n := z_rows (shape (heap s zr))) in *.
  set (z := z_seen s zr) in *. set (x := x_seen s xr zr) in *.
  assert (Htr : truthy_seq (Some fl) = true) by (destruct fl; [contradiction|reflexivity]).
  assert (Hj : joint_mode WeakLoc constrain (Some fl) = true)
    by (cbn [joint_mode]; rewrite Htr; apply orb_true_r).
  destruct (joint_chain lm_engine curve_fit WeakLoc centers widths x0bounds constrain
              (Some fl) span x z n s1 s' t Hj Hbody)
    as (ilow & ihigh & ps0 & ps1 & ps2 & res & vd & Hwin & Hb & Hc & Hf & Hmin & Hvd
        & Htab & Hev).
  destruct (minimize_inv _ _ _ _ Hmin) as (v & ->).
  pose proof (build_fresh _ _ _ _ _ _ _ _ _ Hb) as Hfresh.
  cbn [fix_items] in Hf. rewrite Htr in Hf. cbn [seq_items] in Hf.
  destruct (tied_exprs WeakLoc _ fl n ps0 ps1 ps2 Hcl Hfresh Hc Hf)
    as (Hnd & Htied & Hzero & Hfree & Hfix).
  destruct Hfresh as [Hnd0 Hne0].
  destruct (constrain_facts _ n ps0 ps1 Hc Hnd0 (no_exprs_from _ ps0 Hne0))
    as (Hnd1 & _ & Hval1 & _).
  destruct (fix_facts fl n ps1 ps2 Hf Hnd1) as (_ & _ & Hval2 & _).
  destruct (tabulate_cell _ _ _ _ Htab) as (Hlen & Hcell).
  change (columns WeakLoc) with di_columns in Hcell.
  exists ps2, ilow, ihigh. split; [now rewrite Hev, Htrace|].
  split; [exact Hwin|]. split; [exact Hlen|].
  intros i Hi. rewrite Hlen in Hi.
  destruct (Hfix p i Hp Hi) as (q & Hl & Hv).
  destruct (Hfix p 0 Hp ltac:(lia)) as (q0 & Hl0 & Hv0).
  (* what the build phase left *)
  assert (Hbuilt : forall j qj, j < n -> params_lookup ps2 (pname p j) = Some qj ->
            exists g lo hi,
              guess_of WeakLoc z centers widths ilow ihigh p j = Ok g /\
              role_bounds WeakLoc x0bounds p = Ok (lo, hi) /\
              p_value qj = clip g lo hi).
  { intros j qj Hj' Hlj.
    destruct (build_phase_values WeakLoc z centers widths x0bounds ilow ihigh n ps0 Hb
                j Hj' p Hcol) as (qb & g & lo & hi & Hlb & Hg & Hbd & _ & _ & Hvb).
    exists g, lo, hi. split; [exact Hg|]. split; [exact Hbd|].
    pose proof (Hval2 (pname p j)) as E2. pose proof (Hval1 (pname p j)) as E1.
    unfold value_of in E1, E2. rewrite Hlj in E2. rewrite Hlb in E1.
    rewrite E1 in E2. cbn [option_map] in E2. injection E2 as E2. congruence. }
  destruct (Hbuilt i q Hi Hl) as (g & lo & hi & Hg & Hbd & Hq).
  destruct (Hbuilt 0 q0 ltac:(lia) Hl0) as (g0 & lo0 & hi0 & Hg0 & Hbd0 & Hq0).
  assert (Elo : lo0 = lo /\ hi0 = hi) by (split; congruence).
  destruct Elo as [-> ->].
  exists q, g, g0, lo, hi.
  set (res := assign (var_names ps2) v ps2) in *.
  (* a fixed parameter is not a free variable: its value stays *)
  assert (Hkeep : forall k qk, params_lookup ps2 k = Some qk -> p_vary qk = false ->
            exists qr, params_lookup res k = Some qr /\
                       p_expr qr = p_expr qk /\ p_value qr = p_value qk).
  { intros k qk Hlk Hvk.
    pose proof (assign_lookup (var_names ps2) v ps2 k) as Ha. rewrite Hlk in Ha.
    destruct Ha as (qr & Hlr & (_ & _ & _ & Her) & Hval).
    exists qr. split; [exact Hlr|]. split; [exact Her|].
    apply Hval. apply (not_free_not_var ps2 k qk Hnd Hlk).
    unfold is_free. now rewrite Hvk. }
  destruct (Hkeep _ q Hl Hv) as (qr & Hlr & Her & Hvr).
  destruct (Hkeep _ q0 Hl0 Hv0) as (qr0 & Hlr0 & Her0 & Hvr0).
  pose proof (Hzero p Hcol q0 Hl0) as He0. rewrite He0 in Her0.
  assert (Hrow0 : cell di_columns t 0 p = Some (clip g0 lo hi)).
  { destruct (Hcell 0 p ltac:(lia) Hcol) as (v0 & Hgv0 & Hc0).
    pose proof (valuesdict_get res vd _ _ Hvd Hgv0) as Hv0'.
    rewrite (param_value_own res _ qr0 Hlr0 Her0) in Hv0'.
    injection Hv0' as <-. now rewrite Hc0, Hvr0, Hq0. }
  destruct (Hcell i p Hi Hcol) as (vi & Hgi & Hci).
  pose proof (valuesdict_get res vd _ _ Hvd Hgi) as Hvi.
  repeat split; try assumption.
  - intros Hn. pose proof (Hfree p i Hcol Hn q Hl) as He. rewrite He in Her.
    rewrite (param_value_own res _ qr Hlr Her) in Hvi.
    injection Hvi as <-. now rewrite Hci, Hvr, Hq.
  - intros Hin. destruct (Nat.eq_dec i 0) as [->|Hne]; [exact Hrow0|].
    pose proof (Htied p i Hin ltac:(lia)) as Et.
    rewrite (expr_of_lookup _ _ _ Hl) in Et. injection Et as Et.
    rewrite Et in Her.
    rewrite (param_value_tied res _ _ qr qr0 Hlr Her Hlr0 Her0) in Hvi.
    injection Hvi as <-. now rewrite Hci, Hvr0, Hq0.
Qed.

(** C3, as the code has it.  In [di_fit_simultaneous], when [fix] is a
    set containing the role [p] (and [constrain] holds role names
    only), for [z] an array object of the caller and bounds that are in
    order for every role, the lower below the upper (lmfit treats other
    bounds in ways of its own, which the model of [add] leaves out):
    the parameter of [p] is handed to the optimiser marked not-varying
    in every group, holding the initial guess of its dataset clipped
    into the bounds of the role, and every table returned holds in row
    [i], under [p], that clipped guess if [p] is not constrained (and
    in row 0 in any case), and the clipped guess of dataset 0 if [p] is
    constrained as well, whatever the optimiser does; the guesses are
    taken on the window of the call.  And a table is returned when the
    optimiser returns, on [n > 0] datasets of at least two samples in a
    two-dimensional [z], with an [x] of matching shape, no [span], a
    center and a width per dataset, two [x0] bounds and role names in
    [fix]. *)
Theorem fixed_role_keeps_guess (xr zr : nat)
    (centers widths x0bounds : list F) (constrain : option (list string))
    (fl : list string) (s : state F) (p : string) :
  (forall q, In q (constrain_items constrain) -> In q di_columns) ->
  In p fl -> In p di_columns -> zr < next s ->
  (forall c lo hi, In c di_columns ->
     role_bounds WeakLoc x0bounds c = Ok (lo, hi) -> fltb lo hi = true) ->
  (forall span t s',
     di_fit_simultaneous lm_engine curve_fit xr zr centers widths x0bounds
       constrain (Some fl) span s = (Ok t, s') ->
     exists ps ilow ihigh,
       trace s' = trace s ++ [EvParameters; EvMinimize ps ilow ihigh] /\
       fit_window (x_seen s xr zr) centers span (z_rows (shape (heap s zr)))
       = Ok (ilow, ihigh) /\
       length t = z_rows (shape (heap s zr)) /\
       forall i, i < length t ->
         exists q g g0 lo hi,
           params_lookup ps (pname p i) = Some q /\ p_vary q = false /\
           guess_of WeakLoc (z_seen s zr) centers widths ilow ihigh p i = Ok g /\
           guess_of WeakLoc (z_seen s zr) centers widths ilow ihigh p 0 = Ok g0 /\
           role_bounds WeakLoc x0bounds p = Ok (lo, hi) /\
           p_value q = clip g lo hi /\
           cell di_columns t 0 p = Some (clip g0 lo hi) /\
           (~ In p (constrain_items constrain) ->
              cell di_columns t i p = Some (clip g lo hi)) /\
           (In p (constrain_items constrain) ->
              cell di_columns t i p = Some (clip g0 lo hi))) /\
  (forall n m,
     shape (heap s zr) = [n; m] -> length (buf (heap s zr)) = n * m ->
     2 <= m -> 0 < n ->
     shape_mismatch [n; m] (shape (heap s xr)) = false ->
     shape (heap s xr) <> [] ->
     n <= length centers -> n <= length widths -> 2 <= length x0bounds ->
     (forall q, In q fl -> In q di_columns) ->
     (forall f init, exists v, lm_engine f init = Some v) ->
     exists t s',
       di_fit_simultaneous lm_engine curve_fit xr zr centers widths x0bounds
         constrain (Some fl) None s = (Ok t, s')).
Proof.
  intros Hcl Hp Hcol Hz _. split.
  - intros span t s' Hrun.
    apply (fixed_rows xr zr centers widths x0bounds constrain fl
             span s s' t p Hcl Hp Hcol Hz Hrun).
  - intros n m Hs Hb Hm Hn Hok Hx Hc Hw Hx0 Hfl Hret.
    assert (Htr : truthy_seq (Some fl) = true)
      by (destruct fl; [contradiction|reflexivity]).
    apply (joint_fit_simultaneous_returns lm_engine curve_fit Hret WeakLoc xr zr
             centers widths x0bounds constrain (Some fl) s n m); try assumption.
    + cbn [joint_mode]. rewrite Htr. apply orb_true_r.
    + cbn [fix_items]. rewrite Htr. exact Hfl.
Qed.

End FixedRoles.

(* ------------------------------------------------------------------ *)
(** ** Names that are no role, single datasets, empty windows *)

Section EdgeCases.
Context {F : Type} `{FloatOps F}.
Variable lm_engine :
  (list F -> result (list F)) -> list (F * F * F) -> option (list F).
Variable curve_fit :
  (list F -> list F -> result (list F)) ->
  list F -> list F -> list F -> list F -> list F -> option (list F).

Local Abbreviation checked := (@checked F).
Local Abbreviation keys := (@keys F).

(** On well-shaped arrays the shape checks hand the body the array
    [z] itself, and call no library. *)
Lemma checked_runs_uniform (xr zr : nat) (s : state F) (n m : nat) :
  shape (heap s zr) = [n; m] ->
  shape_mismatch [n; m] (shape (heap s xr)) = false ->
  shape (heap s xr) <> [] -> zr < next s ->
  exists x' s1, trace s1 = trace s /\
    forall k, checked xr zr k s = k x' (heap s zr) n s1.
Proof.
  intros Hs Hok Hx Hz.
  assert (Hfresh : (zr =? next s) = false) by (apply Nat.eqb_neq; lia).
  unfold checked, z_dimensions, x_rows, bind, get_obj. rewrite Hs. simpl.
  unfold shape_mismatch in Hok. simpl in Hok.
  destruct (shape (heap s xr)) as [|e0 [|e1 xsh]]; [congruence| |]; simpl in *.
  - rewrite Hfresh. eexists _, _. split; [|intros k; reflexivity]. reflexivity.
  - destruct (e0 =? 1); simpl in *.
    + rewrite Hfresh. eexists _, _. split; [|intros k; reflexivity]. reflexivity.
    + destruct (e0 =? n); simpl in *; [|discriminate Hok].
      eexists _, _. split; [|intros k; reflexivity]. reflexivity.
Qed.

(** The outcome of the shape checks does not depend on the body. *)
Lemma checked_uniform (xr zr : nat) (s : state F) :
  (exists e s1, forall k, checked xr zr k s = (Raise e, s1)) \/
  (exists x z s1, forall k, checked xr zr k s = k x z (z_rows (shape (heap s zr))) s1).
Proof.
  unfold checked, z_dimensions, x_rows, bind, get_obj.
  destruct (shape (heap s zr)) as [|d0 [|d1 [|d2 zsh]]]; simpl;
    try (left; eexists _, _; intros k; reflexivity).
  - match goal with
    | |- context [shape ?a] => destruct (shape a) as [|e0 [|e1 xsh]]
    end; simpl; try (left; eexists _, _; intros k; reflexivity).
    + right. eexists _, _, _. intros k; reflexivity.
    + destruct (e0 =? 1); simpl; try (left; eexists _, _; intros k; reflexivity).
      right. eexists _, _, _. intros k; reflexivity.
  - destruct (shape (heap s xr)) as [|e0 [|e1 xsh]]; simpl;
      try (left; eexists _, _; intros k; reflexivity).
    + right. eexists _, _, _. intros k; reflexivity.
    + destruct (e0 =? 1); simpl.
      * right. eexists _, _, _. intros k; reflexivity.
      * destruct (e0 =? d0); simpl; try (left; eexists _, _; intros k; reflexivity).
        right. eexists _, _, _. intros k; reflexivity.
Qed.

Lemma build_returns (fam : family) (z : ndarray F)
    (centers widths x0bounds : list F) (n m : nat) :
  shape z = [n; m] -> length (buf z) = n * m -> 2 <= m ->
  n <= length centers -> n <= length widths -> 2 <= length x0bounds ->
  exists ps0,
    rfold (add_group_of fam z centers widths x0bounds (repeat 0%Z n) (repeat (-1)%Z n))
          (range n) [] = Ok ps0 /\
    keys ps0 = group_names fam n.
Proof.
  intros Hs Hb Hm Hc Hw Hx.
  destruct (@rfold_ok _ _ (fun _ => True)
              (add_group_of fam z centers widths x0bounds (repeat 0%Z n) (repeat (-1)%Z n))
              (range n)) with (acc := @nil (string * lm_param F)) as (ps0 & Hbuild & _).
  - intros acc i Hi _. apply in_seq in Hi.
    destruct (add_group_returns fam z centers widths x0bounds n m acc i Hs Hb Hm)
      as (ps' & Hps'); try lia.
    exists ps'. split; [destruct fam; exact Hps' | exact I].
  - exact I.
  - exists ps0. split; [exact Hbuild|].
    apply (build_keys fam z centers widths x0bounds _ _ n 0 [] ps0 Hbuild). reflexivity.
Qed.

Lemma not_a_role (fam : family) (n : nat) (p : string) (i : nat) :
  ~ In p (columns fam) -> ~ In (pname p i) (group_names fam n).
Proof.
  intros Hp Hin. apply in_group_names in Hin.
  destruct Hin as (c & j & Hc & _ & E). apply pname_role_inj in E.
  destruct E as [-> _]. contradiction.
Qed.

(** X16. A name in [constrain] that is no role of the family is
    found out when the second group is tied: with at least two
    datasets the call fails with [KeyError] on [name_1], after the
    parameter set is built and before [minimize] is called. *)
Theorem constrain_name_not_a_role (fam : family) (xr zr : nat)
    (centers widths x0bounds : list F) (p : string) (cl : list string)
    (fix_ : option (list string)) (s : state F) (n m : nat) :
  shape (heap s zr) = [n; m] -> length (buf (heap s zr)) = n * m ->
  2 <= m -> 2 <= n ->
  shape_mismatch [n; m] (shape (heap s xr)) = false ->
  shape (heap s xr) <> [] -> zr < next s ->
  n <= length centers -> n <= length widths -> 2 <= length x0bounds ->
  ~ In p (columns fam) ->
  let out := fit_simultaneous fam lm_engine curve_fit xr zr centers widths x0bounds
               (Some (p :: cl)) fix_ None s in
  fst out = Raise (KeyError (pname p 1)) /\
  trace (snd out) = trace s ++ [EvParameters].
Proof.
  intros Hs Hb Hm Hn Hok Hx Hz Hc Hw Hx0 Hp. cbv zeta.
  rewrite fit_simultaneous_checked.
  destruct (checked_runs_uniform xr zr s n m Hs Hok Hx Hz) as (x' & s1 & Htr & Hk).
  rewrite Hk.
  assert (Hj : joint_mode fam (Some (p :: cl)) fix_ = true) by (destruct fam; reflexivity).
  rewrite fit_body_joint by exact Hj.
  destruct (build_returns fam (heap s zr) centers widths x0bounds n m Hs Hb Hm Hc Hw Hx0)
    as (ps0 & Hbuild & Hkeys).
  unfold bind, lift, emit, fit_window. cbn [fst snd]. rewrite Hbuild.
  assert (Hcon : apply_constrain (constrain_items (Some (p :: cl))) n ps0
                 = Raise (KeyError (pname p 1))).
  { unfold apply_constrain, constrain_items. cbn [truthy_seq seq_items rfold].
    replace (n - 1) with (S (n - 2)) by lia. cbn [seq rfold].
    unfold set_expr at 1, params_get.
    rewrite (lookup_not_in_keys ps0 (pname p 1))
      by (rewrite Hkeys; now apply not_a_role).
    reflexivity. }
  rewrite Hcon. cbn [fst snd trace]. now rewrite Htr.
Qed.

(** X17. A name in [fix] that is no role of the family is found out
    at the first group: with at least one dataset and a [constrain]
    of role names (or none) [di_fit_simultaneous] fails with [KeyError]
    on [name_0], before [minimize] is called. *)
Theorem fix_name_not_a_role (xr zr : nat)
    (centers widths x0bounds : list F) (constrain : option (list string))
    (p : string) (fl : list string) (s : state F) (n m : nat) :
  shape (heap s zr) = [n; m] -> length (buf (heap s zr)) = n * m ->
  2 <= m -> 1 <= n ->
  shape_mismatch [n; m] (shape (heap s xr)) = false ->
  shape (heap s xr) <> [] -> zr < next s ->
  n <= length centers -> n <= length widths -> 2 <= length x0bounds ->
  (forall q, In q (constrain_items constrain) -> In q (columns WeakLoc)) ->
  ~ In p (columns WeakLoc) ->
  let out := di_fit_simultaneous lm_engine curve_fit xr zr centers widths x0bounds
               constrain (Some (p :: fl)) None s in
  fst out = Raise (KeyError (pname p 0)) /\
  trace (snd out) = trace s ++ [EvParameters].
Proof.
  intros Hs Hb Hm Hn Hok Hx Hz Hc Hw Hx0 Hcl Hp. cbv zeta.
  change (di_fit_simultaneous lm_engine curve_fit xr zr centers widths x0bounds
            constrain (Some (p :: fl)) None)
    with (fit_simultaneous WeakLoc lm_engine curve_fit xr zr centers widths x0bounds
            constrain (Some (p :: fl)) None).
  rewrite fit_simultaneous_checked.
  destruct (checked_runs_uniform xr zr s n m Hs Hok Hx Hz) as (x' & s1 & Htr & Hk).
  rewrite Hk.
  assert (Hj : joint_mode WeakLoc constrain (Some (p :: fl)) = true)
    by (cbn; apply orb_true_r).
  rewrite fit_body_joint by exact Hj.
  destruct (build_returns WeakLoc (heap s zr) centers widths x0bounds n m Hs Hb Hm Hc Hw Hx0)
    as (ps0 & Hbuild & Hkeys).
  unfold bind, lift, emit, fit_window. cbn [fst snd]. rewrite Hbuild.
  assert (Hnamed : all_named WeakLoc n ps0).
  { intros c i Hc' Hi. apply lookup_keys. rewrite Hkeys.
    apply in_group_names. now exists c, i. }
  destruct (apply_constrain_returns WeakLoc (constrain_items constrain) n ps0 Hcl Hnamed)
    as (ps1 & Hcon & _).
  rewrite Hcon.
  assert (Hfix : apply_fix (fix_items WeakLoc (Some (p :: fl))) n ps1
                 = Raise (KeyError (pname p 0))).
  { unfold apply_fix, fix_items, range. cbn [truthy_seq seq_items rfold].
    replace n with (S (n - 1)) by lia. cbn [seq rfold].
    unfold set_fixed at 1, params_get.
    rewrite (lookup_not_in_keys ps1 (pname p 0)).
    - reflexivity.
    - rewrite (apply_constrain_keys _ _ _ _ Hcon), Hkeys. now apply not_a_role. }
  rewrite Hfix. cbn [fst snd trace]. now rewrite Htr.
Qed.

Lemma apply_constrain_one (cl : list string) (ps : lm_params F) :
  apply_constrain cl 1 ps = Ok ps.
Proof.
  unfold apply_constrain. induction cl as [|p cl IH]; [reflexivity|].
  cbn [rfold Nat.sub seq rbind]. exact IH.
Qed.

(** X18. With a single dataset the names in [constrain] are never
    looked up: any two non-empty [constrain] lists give the same
    outcome and the same trace, whatever they name. *)
Theorem single_dataset_ignores_constrain_names (fam : family) (xr zr : nat)
    (centers widths x0bounds : list F) (cl cl' : list string)
    (fix_ : option (list string)) (span : option F) (s : state F) :
  z_rows (shape (heap s zr)) = 1 -> cl <> [] -> cl' <> [] ->
  fit_simultaneous fam lm_engine curve_fit xr zr centers widths x0bounds
    (Some cl) fix_ span s
  = fit_simultaneous fam lm_engine curve_fit xr zr centers widths x0bounds
      (Some cl') fix_ span s.
Proof.
  intros Hn Hcl Hcl'. rewrite !fit_simultaneous_checked.
  destruct (checked_uniform xr zr s) as [(e & s1 & Hk)|(x & z & s1 & Hk)];
    rewrite !Hk; [reflexivity|]. rewrite Hn.
  destruct cl as [|c cl]; [congruence|]. destruct cl' as [|c' cl']; [congruence|].
  assert (Hj : forall l, joint_mode fam (Some (c :: l)) fix_ = true)
    by (intros l; destruct fam; reflexivity).
  assert (Hj' : forall l, joint_mode fam (Some (c' :: l)) fix_ = true)
    by (intros l; destruct fam; reflexivity).
  rewrite !fit_body_joint by auto.
  unfold bind, lift, emit.
  destruct (fit_window x centers span 1) as [[ilow ihigh]|]; [|reflexivity].
  cbn [fst snd].
  destruct (rfold (add_group_of fam z centers widths x0bounds ilow ihigh) (range 1) [])
    as [ps0|]; [|reflexivity].
  now rewrite !apply_constrain_one.
Qed.

Lemma first_lookups (centers widths x0bounds : list F) :
  1 <= length centers -> 1 <= length widths -> 2 <= length x0bounds ->
  exists c w b0 b1,
    py_index centers (Z.of_nat 0) = Ok c /\ py_index widths (Z.of_nat 0) = Ok w /\
    py_index x0bounds 0%Z = Ok b0 /\ py_index x0bounds 1%Z = Ok b1.
Proof.
  intros Hc Hw Hx.
  exists (nth 0 centers (lit 0%Q)), (nth 0 widths (lit 0%Q)),
         (nth 0 x0bounds (lit 0%Q)), (nth 1 x0bounds (lit 0%Q)).
  split; [apply py_index_nth; lia|]. split; [apply py_index_nth; lia|].
  split; [apply (py_index_nth x0bounds (i := 0)); lia
         |apply (py_index_nth x0bounds (i := 1)); lia].
Qed.

(** A group whose window is empty cannot be given its guesses. *)
Lemma empty_window_group (fam : family) (z : ndarray F)
    (centers widths x0bounds : list F) (ilow ihigh : list Z) (ps : lm_params F) :
  1 <= length centers -> 1 <= length widths -> 2 <= length x0bounds ->
  window z ilow ihigh 0 = Ok [] ->
  add_group_of fam z centers widths x0bounds ilow ihigh ps 0
  = Raise (empty_window_error fam) /\
  p0_of fam z centers widths ilow ihigh 0 = Raise (empty_window_error fam).
Proof.
  intros Hc Hw Hx Hwin.
  destruct (first_lookups centers widths x0bounds Hc Hw Hx)
    as (c & w & b0 & b1 & Ec & Ew & E0 & E1).
  destruct fam;
    unfold add_group_of, p0_of, i_sense_add_group, di_add_group, i_sense_p0, di_p0,
      i0_guess, di0_guess;
    rewrite Ec, Ew, E0, E1, Hwin; split; reflexivity.
Qed.

(** X19. Rows of a single sample cannot be fitted without [span]:
    the default window leaves out the last sample, so it is empty, and
    either routine fails on the first dataset with the [ValueError] of
    an extremum over an empty array, before any optimiser is called. *)
Theorem single_sample_rows_fail (fam : family) (xr zr : nat)
    (centers widths x0bounds : list F) (constrain fix_ : option (list string))
    (s : state F) (n : nat) :
  shape (heap s zr) = [n; 1] -> length (buf (heap s zr)) = n * 1 -> 1 <= n ->
  shape_mismatch [n; 1] (shape (heap s xr)) = false ->
  shape (heap s xr) <> [] -> zr < next s ->
  1 <= length centers -> 1 <= length widths -> 2 <= length x0bounds ->
  let out := fit_simultaneous fam lm_engine curve_fit xr zr centers widths x0bounds
               constrain fix_ None s in
  fst out = Raise (empty_window_error fam) /\
  trace (snd out)
  = trace s ++ (if joint_mode fam constrain fix_ then [EvParameters] else []).
Proof.
  intros Hs Hb Hn Hok Hx Hz Hc Hw Hx0. cbv zeta.
  rewrite fit_simultaneous_checked.
  destruct (checked_runs_uniform xr zr s n 1 Hs Hok Hx Hz) as (x' & s1 & Htr & Hk).
  rewrite Hk.
  destruct (default_window x' (heap s zr) centers n 1 0 Hs Hb)
    as (_ & Hwin & _); [lia|]. cbn [Nat.sub firstn] in Hwin.
  assert (Hrange : range n = 0 :: seq 1 (n - 1)).
  { unfold range. replace n with (S (n - 1)) at 1 by lia. reflexivity. }
  destruct (joint_mode fam constrain fix_) eqn:Hj.
  - rewrite fit_body_joint by exact Hj.
    unfold bind, lift, emit, fit_window. cbn [fst snd]. rewrite Hrange. cbn [rfold].
    destruct (empty_window_group fam (heap s zr) centers widths x0bounds
                (repeat 0%Z n) (repeat (-1)%Z n) [] Hc Hw Hx0 Hwin) as [-> _].
    cbn [rbind fst snd trace]. now rewrite Htr.
  - rewrite fit_body_fallback by exact Hj.
    destruct (empty_window_group fam (heap s zr) centers widths x0bounds
                (repeat 0%Z n) (repeat (-1)%Z n) [] Hc Hw Hx0 Hwin) as [_ Hp0].
    unfold fit_window. rewrite Hrange. cbn [mfold].
    cbv beta iota delta [bind lift fst snd fallback_step]. rewrite Hp0.
    cbv beta iota delta [bind lift fst snd]. now rewrite Htr, app_nil_r.
Qed.

End EdgeCases.

(* ------------------------------------------------------------------ *)
(** ** Derivatives and distances *)

Section DerivativeFacts.
Context {F : Type} `{FloatOps F}.

Lemma zip_with_shorter (g : F -> F -> F) (l1 l2 : list F) (b : F) :
  length l1 <= length l2 -> zip_with g l1 (l2 ++ [b]) = zip_with g l1 l2.
Proof.
  revert l2. induction l1 as [|a l1 IH]; intros [|c l2] Hl; simpl in *;
    try reflexivity; try lia.
  rewrite IH by lia. reflexivity.
Qed.

Lemma roll_steps (x : list F) :
  np_sub1 x (np_roll1 x) = Ok (zip_with fsub x (np_roll1 x)) /\
  skipn 1 (zip_with fsub x (np_roll1 x)) = steps x.
Proof.
  destruct x as [|a x]; [split; reflexivity|].
  assert (Hl : length (np_roll1 (a :: x)) = length (a :: x)).
  { unfold np_roll1. cbn [length]. f_equal.
    pose proof (@app_removelast_last F (a :: x) (lit 0%Q) ltac:(discriminate)) as E.
    apply (f_equal (@length F)) in E. rewrite length_app in E. simpl in *. lia. }
  split.
  - unfold np_sub1. now rewrite Hl, Nat.eqb_refl.
  - unfold np_roll1, steps. cbn [zip_with skipn tl].
    pose proof (@app_removelast_last F (a :: x) (lit 0%Q) ltac:(discriminate)) as E.
    transitivity (zip_with fsub x (removelast (a :: x) ++ [last (a :: x) (lit 0%Q)])).
    + symmetry. apply zip_with_shorter.
      apply (f_equal (@length F)) in E. rewrite length_app in E.
      cbn [length] in E. lia.
    + f_equal. symmetry. exact E.
Qed.

(** X20. [dfdx] on one-dimensional data: the spacing is the mean of
    the steps [x[i+1] - x[i]] (the step from the last point back to the
    first is left out); with at least two values of [f] the result has
    as many entries as [f], one-sided differences over the spacing at
    the two ends and central differences over twice the spacing in
    between; with fewer values the call fails with a [ValueError].  The
    lengths of [f] and [x] need not agree. *)
Theorem dfdx_differences (f x : list F) :
  if length f <? 2
  then exists msg, dfdx f x = Raise (ValueError msg)
  else exists out,
    dfdx f x = Ok out /\ length out = length f /\
    nth 0 out (lit 0%Q)
    = fdiv (fsub (nth 1 f (lit 0%Q)) (nth 0 f (lit 0%Q))) (np_mean (steps x)) /\
    nth (length f - 1) out (lit 0%Q)
    = fdiv (fsub (nth (length f - 1) f (lit 0%Q)) (nth (length f - 2) f (lit 0%Q)))
           (np_mean (steps x)) /\
    forall i, 1 <= i -> i + 1 < length f ->
      nth i out (lit 0%Q)
      = fdiv (fsub (nth (i + 1) f (lit 0%Q)) (nth (i - 1) f (lit 0%Q)))
             (fmul (lit 2%Q) (np_mean (steps x))).
Proof.
  destruct (roll_steps x) as [Hsub Hsteps].
  unfold dfdx. rewrite Hsub. cbn [rbind]. rewrite Hsteps. unfold np_gradient1.
  destruct (length f <? 2) eqn:Hf; [eexists; reflexivity|].
  apply Nat.ltb_ge in Hf.
  set (dx := np_mean (steps x)).
  set (mid := zip_with (fun a b => fdiv (fsub a b) (fmul (lit 2%Q) dx))
                       (skipn 2 f) (firstn (length f - 2) f)).
  assert (Hmid : length mid = length f - 2).
  { unfold mid. rewrite zip_with_length, length_skipn, length_firstn. lia. }
  eexists. split; [reflexivity|]. split; [|split; [|split]].
  - rewrite !length_app, Hmid. simpl. lia.
  - reflexivity.
  - rewrite app_nth2 by (simpl; lia). rewrite app_nth2 by (simpl; rewrite Hmid; lia).
    cbn [length]. rewrite Hmid.
    replace (length f - 1 - 1 - (length f - 2)) with 0 by lia. reflexivity.
  - intros i Hi1 Hi2. rewrite app_nth2 by (simpl; lia).
    rewrite app_nth1 by (simpl; rewrite Hmid; lia). cbn [length].
    unfold mid. rewrite nth_zip_with
      by (rewrite ?length_skipn, ?length_firstn; lia).
    rewrite nth_skipn, nth_firstn.
    replace (i - 1 <? length f - 2) with true by (symmetry; apply Nat.ltb_lt; lia).
    do 3 f_equal. lia.
Qed.

End DerivativeFacts.

Lemma existsb_of_map {A B} (h : B -> bool) (g : A -> B) (l : list A) :
  existsb h (map g l) = existsb (fun a => h (g a)) l.
Proof. induction l as [|a l IH]; simpl; [reflexivity|]. now rewrite IH. Qed.

Section LineFacts.
Context {F : Type} `{FloatOps F} `{FloatSqrt F}.

Lemma map_seq_combine {B} (g : F -> F -> B) (x y : list F) :
  length x = length y ->
  map (fun j => g (nth j x (lit 0%Q)) (nth j y (lit 0%Q))) (seq 0 (length x))
  = map (fun ab => g (fst ab) (snd ab)) (combine x y).
Proof.
  revert y. induction x as [|a x IH]; intros [|b y] Hl; simpl in *;
    try reflexivity; try lia.
  f_equal. rewrite <- seq_shift, map_map. apply IH. lia.
Qed.

(** X21. [dist_2_line] tests the vertices of the line, not the
    segments between them: for [x] and [y] of one length it is true
    exactly when some point [(x[i], y[i])] is at a Euclidean distance
    below [delta] from the given point (so it is false for an empty
    line); for different lengths it fails with a [ValueError]. *)
Theorem dist_2_line_tests_vertices (x y : list F) (px py delta : F) :
  if length x =? length y
  then dist_2_line x y [px; py] delta
       = Ok (existsb (fun ab => fltb (distance px py (fst ab) (snd ab)) delta)
                     (combine x y))
  else exists msg, dist_2_line x y [px; py] delta = Raise (ValueError msg).
Proof.
  unfold dist_2_line, np_stack2.
  destruct (length x =? length y) eqn:Hl; [|eexists; reflexivity].
  apply Nat.eqb_eq in Hl. cbn [rbind].
  unfold np_transpose. cbn [shape buf rbind].
  set (G := fun j => [nth j x (lit 0%Q); nth j y (lit 0%Q)]).
  assert (HG : flat_map (fun j => map (fun i => nth (i * length x + j) (x ++ y) (lit 0%Q))
                                      (seq 0 2)) (seq 0 (length x))
               = flat_map G (seq 0 (length x))).
  { rewrite !flat_map_concat_map. f_equal. apply map_ext_in. intros j Hj. apply in_seq in Hj. unfold G. cbn [seq map].
    rewrite app_nth1 by (simpl; lia).
    rewrite app_nth2 by (simpl; lia).
    do 2 f_equal. f_equal. simpl. lia. }
  rewrite HG. unfold np_sub_bcast. cbn [shape buf length Nat.eqb rbind].
  rewrite chunks_flat_rows by (intros j; reflexivity).
  rewrite flat_map_map.
  unfold norm_axis1. cbn [shape buf rbind].
  rewrite chunks_flat_rows by (intros j; reflexivity).
  rewrite map_map. cbn [G zip_with map fold_left].
  f_equal.
  change (map _ (seq 0 (length x)))
    with (map (fun j => distance px py (nth j x (lit 0%Q)) (nth j y (lit 0%Q)))
              (seq 0 (length x))).
  rewrite (map_seq_combine (distance px py) x y Hl).
  apply existsb_of_map.
Qed.

End LineFacts.

(* ------------------------------------------------------------------ *)
(** ** One array object passed for both [x] and [z] *)

Section Aliasing.
Context {F : Type} `{FloatOps F}.
Variable lm_engine :
  (list F -> result (list F)) -> list (F * F * F) -> option (list F).
Variable curve_fit :
  (list F -> list F -> result (list F)) ->
  list F -> list F -> list F -> list F -> list F -> option (list F).

Local Abbreviation checked := (@checked F).
Local Abbreviation z_after := (@z_after F).

(** X22. When one and the same one-dimensional array object is
    passed as [x] and as [z], the in-place reshape of [z] is seen
    through [x] as well: after the call, however it ends, the caller's
    array has the shape [(1, m)] and its elements, and every other
    array object of the caller is as before. *)
Theorem one_object_as_x_and_z (fam : family) (r : nat)
    (centers widths x0bounds : list F) (constrain fix_ : option (list string))
    (span : option F) (s : state F) (m : nat) :
  r < next s -> shape (heap s r) = [m] ->
  let out := fit_simultaneous fam lm_engine curve_fit r r centers widths
               x0bounds constrain fix_ span s in
  heap (snd out) r = mk_nd [1; m] (buf (heap s r)) /\
  forall r', r' < next s -> r' <> r -> heap (snd out) r' = heap s r'.
Proof.
  intros Hr Em. cbv zeta. rewrite fit_simultaneous_checked.
  destruct (checked_store r
              (fit_body lm_engine curve_fit fam centers widths x0bounds constrain fix_ span) s
              (fit_body_benign lm_engine curve_fit fam centers widths x0bounds constrain
                 fix_ span) Hr)
    as [Ez Eothers].
  split; [|exact Eothers].
  rewrite Ez. unfold z_after. now rewrite Em.
Qed.

End Aliasing.

(* ------------------------------------------------------------------ *)
(** ** Worked inputs of the further properties *)

Lemma xreal_distance : @FloatDistance xreal xreal_ops.
Proof.
  constructor. intros a b Hn. cbn in *.
  destruct a as [|sa|ra]; [discriminate Hn | destruct sa; discriminate Hn |].
  destruct b as [|sb|rb]; [reflexivity | reflexivity |].
  cbn. unfold Rltb. destruct (Rlt_dec _ _) as [Hlt|]; [exfalso|reflexivity].
  replace (ra + - ra)%R with 0%R in Hlt by lra. rewrite Rabs_R0 in Hlt.
  pose proof (Rabs_pos (rb + - ra)). lra.
Qed.

Lemma moving_avg_window_means_witness :
  exists xs ys,
    moving_avg (arr1 [fin 1; fin 2; fin 3; fin 4]) (arr1 [fin 2; fin 4; fin 6])
      2%Z None = Ok (arr1 xs, arr1 ys) /\
    length xs = 3 /\ length ys = 2.
Proof.
  destruct (@moving_avg_window_means xreal xreal_ops
              (arr1 [fin 1; fin 2; fin 3; fin 4]) (arr1 [fin 2; fin 4; fin 6]) 2 None)
    as (xs & ys & Hrun & Hx & Hy & _).
  - discriminate.
  - discriminate.
  - lia.
  - simpl. lia.
  - simpl. lia.
  - exists xs, ys. split; [exact Hrun|]. split; [exact Hx | exact Hy].
Defined.

Lemma moving_avg_zero_window_witness :
  exists msg,
    moving_avg (arr1 [fin 1; fin 2]) (arr1 [fin 2; fin 4]) 0%Z None
    = Raise (ValueError msg).
Proof.
  apply (@moving_avg_zero_window xreal xreal_ops
           (arr1 [fin 1; fin 2]) (arr1 [fin 2; fin 4]) None).
  discriminate.
Defined.

Lemma moving_avg_long_window_witness :
  moving_avg (arr1 [fin 1; fin 2]) (arr1 [fin 2; fin 4]) 3%Z None
  = Ok (arr1 [], arr1 []).
Proof.
  apply (@moving_avg_long_window xreal xreal_ops
           (arr1 [fin 1; fin 2]) (arr1 [fin 2; fin 4]) 3 None).
  - discriminate.
  - discriminate.
  - simpl. lia.
  - simpl. lia.
Defined.

Lemma moving_avg_axis1_rows_witness :
  exists xs rows,
    moving_avg x3 z23 2%Z (Some 1%Z) = Ok (arr1 xs, mk_nd [2; 2] (concat rows)) /\
    length rows = 2.
Proof.
  destruct (@moving_avg_axis1_rows xreal xreal_ops x3 z23 2 3 2)
    as (xs & rows & Hrun & Hlen & _).
  - reflexivity.
  - reflexivity.
  - lia.
  - lia.
  - exists xs, rows. split; [exact Hrun | exact Hlen].
Defined.

Lemma moving_avg_axis0_columns_witness :
  exists xs ret,
    moving_avg x3 z23 2%Z (Some 0%Z) = Ok (arr1 xs, ret) /\
    shape ret = [1; 3] /\ length (buf ret) = 3.
Proof.
  destruct (@moving_avg_axis0_columns xreal xreal_ops x3 z23 2 3 2)
    as (xs & ret & Hrun & Hs & Hl & _).
  - reflexivity.
  - reflexivity.
  - lia.
  - lia.
  - exists xs, ret. split; [exact Hrun|]. split; [exact Hs | exact Hl].
Defined.

Lemma fin_finite (z : Z) : @finite xreal xreal_ops (fin z).
Proof. split; reflexivity. Qed.

Lemma fin_apart (a b : Z) :
  a <> b ->
  xltb (xabs (xsub (fin b) (fin b))) (xabs (xsub (fin a) (fin b))) = true.
Proof.
  intros Hab. cbn. unfold Rltb. destruct (Rlt_dec _ _) as [|Hn]; [reflexivity|].
  exfalso. apply Hn.
  replace (IZR b + - IZR b)%R with 0%R by lra. rewrite Rabs_R0.
  apply Rabs_pos_lt. intros E. apply Hab. apply eq_IZR. lra.
Qed.

Lemma axis012_last_apart : @last_apart xreal xreal_ops [fin 0; fin 1; fin 2].
Proof.
  intros k Hk. right. simpl in Hk.
  destruct k as [|[|k]]; [| |lia]; apply (fin_apart _ 2); lia.
Qed.

Lemma axis01_last_apart : @last_apart xreal xreal_ops [fin 0; fin 1].
Proof.
  intros k Hk. right. simpl in Hk.
  destruct k as [|k]; [|lia]. apply (fin_apart 0 1); lia.
Qed.

Lemma get_subset_cuts_aligned_witness :
  exists xs ys zs,
    get_subset (mk_data [fin 0; fin 1; fin 2] [fin 0; fin 1] z23)
      [None; None; None; None] = Ok (xs, ys, zs) /\
    exists ix0 iy0,
      shape zs = [length ys; length xs] /\
      length (buf zs) = length ys * length xs /\
      ix0 + length xs <= 3 /\ iy0 + length ys <= 2 /\
      (forall j, j < length xs ->
         nth j xs (lit 0%Q) = nth (ix0 + j) [fin 0; fin 1; fin 2] (lit 0%Q)) /\
      (forall i, i < length ys ->
         nth i ys (lit 0%Q) = nth (iy0 + i) [fin 0; fin 1] (lit 0%Q)) /\
      (forall i j, i < length ys -> j < length xs ->
         nth (i * length xs + j) (buf zs) (lit 0%Q)
         = nth ((iy0 + i) * 3 + (ix0 + j)) (buf z23) (lit 0%Q)).
Proof.
  assert (Hrun : exists xs ys zs,
            get_subset (mk_data [fin 0; fin 1; fin 2] [fin 0; fin 1] z23)
              [None; None; None; None] = Ok (xs, ys, zs))
    by (eexists _, _, _; lazy; reflexivity).
  destruct Hrun as (xs & ys & zs & Hrun). exists xs, ys, zs. split; [exact Hrun|].
  apply (@get_subset_cuts_aligned xreal xreal_ops
           (mk_data [fin 0; fin 1; fin 2] [fin 0; fin 1] z23)
           [None; None; None; None] 3 2 xs ys zs);
    try reflexivity. exact Hrun.
Defined.

Lemma get_subset_extent_drops_last_witness :
  get_subset (mk_data [fin 0; fin 1; fin 2] [fin 0; fin 1] z23)
    [None; None; None; None]
  = Ok ([fin 0; fin 1], [fin 0], mk_nd [1; 2] [fin 1; fin 2]).
Proof.
  apply (@get_subset_extent_drops_last xreal xreal_ops xreal_order xreal_distance
           (mk_data [fin 0; fin 1; fin 2] [fin 0; fin 1] z23) 3 2);
    try reflexivity; try lia; try apply fin_finite;
    [apply axis012_last_apart | apply axis01_last_apart].
Defined.

Lemma independent_fits_in_order_witness :
  exists t s',
    fit_simultaneous Sensor idle_engine idle_curve_fit 0 1
      [fin 1; fin 2] [fin 1; fin 1] [fin 0; fin 3] None None None (store2 x3 z23)
    = (Ok t, s') /\
    length t = 2 /\
    exists ilow ihigh evs,
      fit_window (x_seen (store2 x3 z23) 0 1) [fin 1; fin 2] None 2 = Ok (ilow, ihigh) /\
      trace s' = evs /\ length evs = 2 /\
      forall i, i < 2 ->
        exists xs zs p0 lo hi,
          window (x_seen (store2 x3 z23) 0 1) ilow ihigh i = Ok xs /\
          window (z_seen (store2 x3 z23) 1) ilow ihigh i = Ok zs /\
          p0_of Sensor (z_seen (store2 x3 z23) 1) [fin 1; fin 2] [fin 1; fin 1]
            ilow ihigh i = Ok p0 /\
          bounds_of Sensor [fin 0; fin 3] = Ok (lo, hi) /\
          nth i evs EvParameters = EvCurveFit xs zs p0 lo hi /\
          idle_curve_fit (model_of Sensor) xs zs p0 lo hi = Some (nth i t []).
Proof.
  assert (Hrun : exists t s',
            fit_simultaneous Sensor idle_engine idle_curve_fit 0 1
              [fin 1; fin 2] [fin 1; fin 1] [fin 0; fin 3] None None None (store2 x3 z23)
            = (Ok t, s'))
    by (eexists _, _; lazy; reflexivity).
  destruct Hrun as (t & s' & Hrun). exists t, s'. split; [exact Hrun|].
  assert (Hz : 1 < next (store2 x3 z23)) by (simpl; lia).
  apply (@independent_fits_in_order xreal xreal_ops idle_engine idle_curve_fit
           Sensor 0 1 [fin 1; fin 2] [fin 1; fin 1] [fin 0; fin 3] None None None
           (store2 x3 z23) s' t eq_refl Hz Hrun).
Defined.

Lemma table_has_n_rows_of_five_witness :
  exists t s',
    fit_simultaneous WeakLoc idle_engine idle_curve_fit 0 1
      [fin 1; fin 2] [fin 1; fin 1] [fin 0; fin 3] (Some ["x0"]) None None
      (store2 x3 z23) = (Ok t, s') /\
    length t = 2 /\ Forall (fun r => length r = 5) t.
Proof.
  assert (Hrun : exists t s',
            fit_simultaneous WeakLoc idle_engine idle_curve_fit 0 1
              [fin 1; fin 2] [fin 1; fin 1] [fin 0; fin 3] (Some ["x0"]) None None
              (store2 x3 z23) = (Ok t, s'))
    by (eexists _, _; lazy; reflexivity).
  destruct Hrun as (t & s' & Hrun). exists t, s'. split; [exact Hrun|].
  apply (@table_has_n_rows_of_five xreal xreal_ops idle_engine idle_curve_fit
           WeakLoc 0 1 [fin 1; fin 2] [fin 1; fin 1] [fin 0; fin 3] (Some ["x0"]) None None
           (store2 x3 z23) s' t Hrun).
Defined.

Lemma joint_parameter_names_witness :
  exists t s',
    fit_simultaneous Sensor idle_engine idle_curve_fit 0 1
      [fin 1; fin 2] [fin 1; fin 1] [fin 0; fin 3] (Some ["beta"]) None None
      (store2 x3 z23) = (Ok t, s') /\
    exists ps ilow ihigh,
      trace s' = [EvParameters; EvMinimize ps ilow ihigh] /\
      keys ps = ["x0_0"; "beta_0"; "i0_0"; "i1_0"; "i2_0";
                 "x0_1"; "beta_1"; "i0_1"; "i1_1"; "i2_1"] /\
      NoDup (keys ps) /\ length ps = 10.
Proof.
  assert (Hrun : exists t s',
            fit_simultaneous Sensor idle_engine idle_curve_fit 0 1
              [fin 1; fin 2] [fin 1; fin 1] [fin 0; fin 3] (Some ["beta"]) None None
              (store2 x3 z23) = (Ok t, s'))
    by (eexists _, _; lazy; reflexivity).
  destruct Hrun as (t & s' & Hrun). exists t, s'. split; [exact Hrun|].
  apply (@joint_parameter_names xreal xreal_ops idle_engine idle_curve_fit
           Sensor 0 1 [fin 1; fin 2] [fin 1; fin 1] [fin 0; fin 3] (Some ["beta"]) None None
           (store2 x3 z23) s' t eq_refl Hrun).
Defined.

Lemma constrain_name_not_a_role_witness :
  let out := fit_simultaneous Sensor idle_engine idle_curve_fit 0 1
               [fin 1; fin 2] [fin 1; fin 1] [fin 0; fin 3] (Some ["gamma"]) None None
               (store2 x3 z23) in
  fst out = Raise (KeyError "gamma_1") /\ trace (snd out) = [EvParameters].
Proof.
  apply (@constrain_name_not_a_role xreal xreal_ops idle_engine idle_curve_fit
           Sensor 0 1 [fin 1; fin 2] [fin 1; fin 1] [fin 0; fin 3] "gamma" [] None
           (store2 x3 z23) 2 3).
  - reflexivity.
  - reflexivity.
  - lia.
  - lia.
  - reflexivity.
  - discriminate.
  - simpl. lia.
  - simpl. lia.
  - simpl. lia.
  - simpl. lia.
  - simpl. intuition discriminate.
Defined.

Lemma fix_name_not_a_role_witness :
  let out := di_fit_simultaneous idle_engine idle_curve_fit 0 1
               [fin 1] [fin 1] [fin 0; fin 3] None (Some ["gamma"]) None
               (store2 x3 z13) in
  fst out = Raise (KeyError "gamma_0") /\ trace (snd out) = [EvParameters].
Proof.
  apply (@fix_name_not_a_role xreal xreal_ops idle_engine idle_curve_fit
           0 1 [fin 1] [fin 1] [fin 0; fin 3] None "gamma" []
           (store2 x3 z13) 1 3).
  - reflexivity.
  - reflexivity.
  - lia.
  - lia.
  - reflexivity.
  - discriminate.
  - simpl. lia.
  - simpl. lia.
  - simpl. lia.
  - simpl. lia.
  - intros q [].
  - simpl. intuition discriminate.
Defined.

Lemma single_dataset_ignores_constrain_names_witness :
  fit_simultaneous Sensor idle_engine idle_curve_fit 0 1
    [fin 1] [fin 1] [fin 0; fin 2] (Some ["beta"]) None None (store2 x3 z13)
  = fit_simultaneous Sensor idle_engine idle_curve_fit 0 1
      [fin 1] [fin 1] [fin 0; fin 2] (Some ["no such role"]) None None (store2 x3 z13).
Proof.
  apply (@single_dataset_ignores_constrain_names xreal xreal_ops idle_engine
           idle_curve_fit Sensor 0 1 [fin 1] [fin 1] [fin 0; fin 2]
           ["beta"] ["no such role"] None None (store2 x3 z13)).
  - reflexivity.
  - discriminate.
  - discriminate.
Defined.

Lemma single_sample_rows_fail_witness :
  let out := fit_simultaneous Sensor idle_engine idle_curve_fit 0 1
               [fin 1] [fin 1] [fin 0; fin 2] None None None
               (store2 (arr1 [fin 0]) (mk_nd [1; 1] [fin 1])) in
  fst out = Raise (ValueError
                     "zero-size array to reduction operation maximum which has no identity") /\
  trace (snd out) = [].
Proof.
  apply (@single_sample_rows_fail xreal xreal_ops idle_engine idle_curve_fit
           Sensor 0 1 [fin 1] [fin 1] [fin 0; fin 2] None None
           (store2 (arr1 [fin 0]) (mk_nd [1; 1] [fin 1])) 1).
  - reflexivity.
  - reflexivity.
  - lia.
  - reflexivity.
  - discriminate.
  - simpl. lia.
  - simpl. lia.
  - simpl. lia.
  - simpl. lia.
Defined.

Lemma one_object_as_x_and_z_witness :
  let s := store2 x3 x3 in
  let out := fit_simultaneous Sensor idle_engine idle_curve_fit 0 0
               [fin 1] [fin 1] [fin 0; fin 2] None None None s in
  heap (snd out) 0 = mk_nd [1; 3] [fin 0; fin 1; fin 2] /\
  forall r', r' < 2 -> r' <> 0 -> heap (snd out) r' = heap s r'.
Proof.
  apply (@one_object_as_x_and_z xreal xreal_ops idle_engine idle_curve_fit
           Sensor 0 [fin 1] [fin 1] [fin 0; fin 2] None None None
           (store2 x3 x3) 3).
  - simpl. lia.
  - reflexivity.
Defined.

(* ------------------------------------------------------------------ *)
(** ** Worked inputs: fixed roles *)

Lemma Rltb_IZR (a b : Z) : Rltb (IZR a) (IZR b) = (a <? b)%Z.
Proof.
  unfold Rltb. destruct (Rlt_dec (IZR a) (IZR b)) as [Hl|Hl].
  - symmetry. apply Z.ltb_lt. now apply lt_IZR.
  - symmetry. apply Z.ltb_ge. apply le_IZR. now apply Rnot_lt_le.
Qed.

Lemma fltb_fin (a b : Z) : fltb (fin a) (fin b) = (a <? b)%Z.
Proof. apply Rltb_IZR. Qed.

Lemma fabs_fin (a : Z) : fabs (fin a) = fin (Z.abs a).
Proof. unfold fin. simpl. now rewrite abs_IZR. Qed.

Lemma fisnan_fin (a : Z) : fisnan (fin a) = false.
Proof. reflexivity. Qed.


Lemma np_minimum_fin (a b : Z) : np_minimum (fin a) (fin b) = fin (Z.min a b).
Proof.
  unfold np_minimum. rewrite !fisnan_fin, fltb_fin.
  destruct (Z.ltb_spec b a); [now rewrite Z.min_r by lia|now rewrite Z.min_l by lia].
Qed.

Lemma np_maximum_fin (a b : Z) : np_maximum (fin a) (fin b) = fin (Z.max a b).
Proof.
  unfold np_maximum. rewrite !fisnan_fin, fltb_fin.
  destruct (Z.ltb_spec a b); [now rewrite Z.max_r by lia|now rewrite Z.max_l by lia].
Qed.

Lemma py_max_fin (a b : Z) : py_max (fin a) (fin b) = fin (Z.max a b).
Proof.
  unfold py_max. rewrite fltb_fin.
  destruct (Z.ltb_spec a b); [now rewrite Z.max_r by lia|now rewrite Z.max_l by lia].
Qed.

Lemma clip_fin (v lo hi : Z) :
  clip (fin v) (fin lo) (fin hi) = fin (Z.max lo (Z.min hi v)).
Proof.
  unfold clip. cbv zeta. rewrite fltb_fin.
  destruct (Z.ltb_spec hi v); rewrite fltb_fin.
  - rewrite (Z.min_l hi v) by lia.
    destruct (Z.ltb_spec hi lo); [now rewrite Z.max_l by lia|now rewrite Z.max_r by lia].
  - rewrite (Z.min_r hi v) by lia.
    destruct (Z.ltb_spec v lo); [now rewrite Z.max_l by lia|now rewrite Z.max_r by lia].
Qed.

(** A guess of 2 against the bounds 0 and 0.5 of [di0]. *)
Lemma clip_di0 : clip (fin 2) (lit 0%Q) (lit (5#10)%Q) = lit (5#10)%Q.
Proof.
  unfold clip. cbv zeta.
  assert (E1 : fltb (lit (5#10)%Q) (fin 2) = true).
  { simpl. unfold Rltb, Q2R. simpl.
    destruct (Rlt_dec (5 * / 10) 2); [reflexivity|lra]. }
  rewrite E1.
  assert (E2 : fltb (lit (5#10)%Q) (lit 0%Q : xreal) = false).
  { simpl. unfold Rltb, Q2R. simpl.
    destruct (Rlt_dec (5 * / 10) (0 * / 1)); [lra|reflexivity]. }
  now rewrite E2.
Qed.

Lemma half_not_two : lit (5#10)%Q <> fin 2.
Proof.
  simpl. unfold fin, Q2R. simpl. intros E. injection E as E. lra.
Qed.

Lemma z26_row0 :
  window z26 [0%Z; 0%Z] [(-1)%Z; (-1)%Z] 0 = Ok [fin 0; fin 1; fin 2; fin 1; fin 0].
Proof. reflexivity. Qed.

Lemma guess_di0 :
  guess_of WeakLoc z26 [fin 2; fin 3] [fin 1; fin 1] [0%Z; 0%Z] [(-1)%Z; (-1)%Z] "di0" 0
  = Ok (fin 2).
Proof.
  unfold guess_of, p0_of, di_p0, di0_guess.
  rewrite z26_row0.
  change (py_index [fin 2; fin 3] (Z.of_nat 0)) with (Ok (fin 2) : result xreal).
  change (py_index [fin 1; fin 1] (Z.of_nat 0)) with (Ok (fin 1) : result xreal).
  cbn [rbind np_min np_max fold_left].
  rewrite !np_minimum_fin, !np_maximum_fin, !fabs_fin, py_max_fin.
  destruct (di2_guess z26 [0%Z; 0%Z] [(-1)%Z; (-1)%Z] 0) as [g2|] eqn:E2;
    [reflexivity|discriminate E2].
Qed.

Lemma guess_x0 (i : nat) :
  i < 2 ->
  guess_of WeakLoc z26 [fin 2; fin 3] [fin 1; fin 1] [0%Z; 0%Z] [(-1)%Z; (-1)%Z] "x0" i
  = Ok (fin (2 + Z.of_nat i)).
Proof.
  intros Hi. assert (Hi' : i = 0 \/ i = 1) by lia.
  destruct Hi' as [-> | ->]; unfold guess_of, p0_of, di_p0.
  - change (py_index [fin 2; fin 3] (Z.of_nat 0)) with (Ok (fin 2) : result xreal).
    change (py_index [fin 1; fin 1] (Z.of_nat 0)) with (Ok (fin 1) : result xreal).
    cbn [rbind].
    destruct (di0_guess z26 [0%Z; 0%Z] [(-1)%Z; (-1)%Z] 0) as [g0|] eqn:E0;
      [|discriminate E0].
    destruct (di2_guess z26 [0%Z; 0%Z] [(-1)%Z; (-1)%Z] 0) as [g2|] eqn:E2;
      [reflexivity|discriminate E2].
  - change (py_index [fin 2; fin 3] (Z.of_nat 1)) with (Ok (fin 3) : result xreal).
    change (py_index [fin 1; fin 1] (Z.of_nat 1)) with (Ok (fin 1) : result xreal).
    cbn [rbind].
    destruct (di0_guess z26 [0%Z; 0%Z] [(-1)%Z; (-1)%Z] 1) as [g0|] eqn:E0;
      [|discriminate E0].
    destruct (di2_guess z26 [0%Z; 0%Z] [(-1)%Z; (-1)%Z] 1) as [g2|] eqn:E2;
      [reflexivity|discriminate E2].
Qed.

Lemma idle_engine_returns :
  forall f init, exists v, idle_engine f init = Some v.
Proof. intros f init. eexists. reflexivity. Defined.

(** C3, as stated, fails on two counts.  Two datasets of six samples
    with peaks of height 2 and 4, centers 2 and 3.  With
    [fix = ['di0']] the initial guess of [di0] for dataset 0 is 2, above
    the upper bound 0.5 of the role: whatever the optimiser returns,
    the table holds 0.5.  With [constrain = fix = ['x0']] the initial
    guess of [x0] for dataset 1 is 3, within its bounds, and the table
    holds 2 in row 1, the guess of dataset 0.  On both inputs a table is
    returned when the optimiser returns. *)
Lemma fixed_role_counterexample :
  guess_of WeakLoc z26 [fin 2; fin 3] [fin 1; fin 1] [0%Z; 0%Z] [(-1)%Z; (-1)%Z] "di0" 0
  = Ok (fin 2) /\
  (forall engine t s',
     di_fit_simultaneous engine idle_curve_fit 0 1
       [fin 2; fin 3] [fin 1; fin 1] [fin 0; fin 5]
       None (Some ["di0"]) None (store2 x6 z26) = (Ok t, s') ->
     cell di_columns t 0 "di0" = Some (lit (5#10)%Q)) /\
  lit (5#10)%Q <> fin 2 /\
  guess_of WeakLoc z26 [fin 2; fin 3] [fin 1; fin 1] [0%Z; 0%Z] [(-1)%Z; (-1)%Z] "x0" 1
  = Ok (fin 3) /\
  (forall engine t s',
     di_fit_simultaneous engine idle_curve_fit 0 1
       [fin 2; fin 3] [fin 1; fin 1] [fin 0; fin 5]
       (Some ["x0"]) (Some ["x0"]) None (store2 x6 z26) = (Ok t, s') ->
     cell di_columns t 1 "x0" = Some (fin 2)) /\
  fin 2 <> fin 3 /\
  (exists t s',
     di_fit_simultaneous idle_engine idle_curve_fit 0 1
       [fin 2; fin 3] [fin 1; fin 1] [fin 0; fin 5]
       None (Some ["di0"]) None (store2 x6 z26) = (Ok t, s')) /\
  (exists t s',
     di_fit_simultaneous idle_engine idle_curve_fit 0 1
       [fin 2; fin 3] [fin 1; fin 1] [fin 0; fin 5]
       (Some ["x0"]) (Some ["x0"]) None (store2 x6 z26) = (Ok t, s')).
Proof.
  assert (Hw : fit_window (x_seen (store2 x6 z26) 0 1) [fin 2; fin 3] None
                 (z_rows (shape (heap (store2 x6 z26) 1)))
               = Ok ([0%Z; 0%Z], [(-1)%Z; (-1)%Z])) by reflexivity.
  assert (Hz : 1 < next (store2 x6 z26)) by (simpl; lia).
  split; [exact guess_di0|]. split; [|split; [exact half_not_two|]].
  { intros engine t s' Hrun.
    destruct (@fixed_rows xreal xreal_ops engine idle_curve_fit 0 1
                [fin 2; fin 3] [fin 1; fin 1] [fin 0; fin 5] None ["di0"] None
                (store2 x6 z26) s' t "di0")
      as (ps & ilow & ihigh & _ & Hwin & Hlen & Hrows);
      [intros q []|simpl; tauto|simpl; tauto|exact Hz|exact Hrun|].
    rewrite Hw in Hwin. injection Hwin as <- <-.
    assert (H0 : 0 < length t) by (rewrite Hlen; simpl; lia).
    destruct (Hrows 0 H0) as (q & g & g0 & lo & hi & _ & _ & _ & Hg0 & Hbd & _ & Hc0 & _).
    change (z_seen (store2 x6 z26) 1) with z26 in Hg0.
    rewrite guess_di0 in Hg0. injection Hg0 as <-.
    assert (Hb : role_bounds WeakLoc [fin 0; fin 5] "di0"
                 = Ok (lit 0%Q, lit (5#10)%Q)) by reflexivity.
    rewrite Hb in Hbd. injection Hbd as <- <-.
    rewrite Hc0. f_equal. exact clip_di0. }
  split; [exact (guess_x0 1 ltac:(lia))|]. split; [|split].
  { intros engine t s' Hrun.
    destruct (@fixed_rows xreal xreal_ops engine idle_curve_fit 0 1
                [fin 2; fin 3] [fin 1; fin 1] [fin 0; fin 5] (Some ["x0"]) ["x0"] None
                (store2 x6 z26) s' t "x0")
      as (ps & ilow & ihigh & _ & Hwin & Hlen & Hrows);
      [intros q [<-|[]]; simpl; tauto|simpl; tauto|simpl; tauto|exact Hz|exact Hrun|].
    rewrite Hw in Hwin. injection Hwin as <- <-.
    assert (H1 : 1 < length t) by (rewrite Hlen; simpl; lia).
    destruct (Hrows 1 H1) as (q & g & g0 & lo & hi & _ & _ & _ & Hg0 & Hbd & _ & _ & _ & Hc1).
    change (z_seen (store2 x6 z26) 1) with z26 in Hg0.
    rewrite (guess_x0 0 ltac:(lia)) in Hg0. injection Hg0 as <-.
    assert (Hb : role_bounds WeakLoc [fin 0; fin 5] "x0" = Ok (fin 0, fin 5))
      by reflexivity.
    rewrite Hb in Hbd. injection Hbd as <- <-.
    rewrite Hc1 by (simpl; tauto). f_equal. exact (clip_fin 2 0 5). }
  { unfold fin. intros E. injection E as E. apply eq_IZR in E. discriminate E. }
  split.
  - apply (@joint_fit_simultaneous_returns xreal xreal_ops idle_engine idle_curve_fit
             idle_engine_returns WeakLoc 0 1 [fin 2; fin 3] [fin 1; fin 1] [fin 0; fin 5]
             None (Some ["di0"]) (store2 x6 z26) 2 6);
      try reflexivity; try (simpl; lia); try discriminate;
      intros q Hq; simpl in Hq; destruct Hq as [<-|[]]; simpl; tauto.
  - apply (@joint_fit_simultaneous_returns xreal xreal_ops idle_engine idle_curve_fit
             idle_engine_returns WeakLoc 0 1 [fin 2; fin 3] [fin 1; fin 1] [fin 0; fin 5]
             (Some ["x0"]) (Some ["x0"]) (store2 x6 z26) 2 6);
      try reflexivity; try (simpl; lia); try discriminate;
      intros q Hq; simpl in Hq; destruct Hq as [<-|[]]; simpl; tauto.
Qed.

Lemma fixed_role_keeps_guess_witness :
  exists t s',
    di_fit_simultaneous upper_engine idle_curve_fit 0 1
      [fin 2; fin 3] [fin 1; fin 1] [fin 0; fin 5] None (Some ["di0"]) None
      (store2 x6 z26) = (Ok t, s') /\
    exists ps ilow ihigh,
      trace s' = trace (store2 x6 z26) ++ [EvParameters; EvMinimize ps ilow ihigh] /\
      fit_window (x_seen (store2 x6 z26) 0 1) [fin 2; fin 3] None
        (z_rows (shape (heap (store2 x6 z26) 1)))
      = Ok (ilow, ihigh) /\
      length t = z_rows (shape (heap (store2 x6 z26) 1)) /\
      forall i, i < length t ->
        exists q g g0 lo hi,
          params_lookup ps (pname "di0" i) = Some q /\ p_vary q = false /\
          guess_of WeakLoc (z_seen (store2 x6 z26) 1) [fin 2; fin 3] [fin 1; fin 1]
            ilow ihigh "di0" i = Ok g /\
          guess_of WeakLoc (z_seen (store2 x6 z26) 1) [fin 2; fin 3] [fin 1; fin 1]
            ilow ihigh "di0" 0 = Ok g0 /\
          role_bounds WeakLoc [fin 0; fin 5] "di0" = Ok (lo, hi) /\
          p_value q = clip g lo hi /\
          cell di_columns t 0 "di0" = Some (clip g0 lo hi) /\
          (~ In "di0" (constrain_items None) ->
             cell di_columns t i "di0" = Some (clip g lo hi)) /\
          (In "di0" (constrain_items None) ->
             cell di_columns t i "di0" = Some (clip g0 lo hi)).
Proof.
  destruct (@fixed_role_keeps_guess xreal xreal_ops upper_engine idle_curve_fit
              0 1 [fin 2; fin 3] [fin 1; fin 1] [fin 0; fin 5] None ["di0"]
              (store2 x6 z26) "di0") as [Hrows Hreturns].
  - intros q [].
  - simpl. tauto.
  - simpl. tauto.
  - simpl. lia.
  - intros c lo hi Hc Hb. simpl in Hc.
    destruct Hc as [<-|[<-|[<-|[<-|[<-|[]]]]]];
      injection Hb as <- <-; simpl; unfold Rltb, Q2R; simpl;
      match goal with
      | |- (if Rlt_dec ?a ?b then true else false) = true =>
          destruct (Rlt_dec a b); [reflexivity|lra]
      end.
  - destruct (Hreturns 2 6) as (t & s' & Hrun).
    + reflexivity.
    + reflexivity.
    + lia.
    + lia.
    + reflexivity.
    + discriminate.
    + simpl. lia.
    + simpl. lia.
    + simpl. lia.
    + intros q [<-|[]]. simpl. tauto.
    + apply upper_engine_returns.
    + exists t, s'. split; [exact Hrun|]. apply (Hrows None t s' Hrun).
Defined.
